(** * GTaskScheduler: a shallow embedding of scheduler.go

    The program is a cron-style job scheduler.  It runs shell commands,
    writes one [JobStatus] per run to a log file and to an SQLite
    database, and serves a small HTTP interface (status summary, log
    download, job creation, job deletion).

    The embedding follows the Go source function by function.  The
    collaborators that are not part of the repository are inputs of the
    model:
    - the subprocess ([exec.Command(...).CombinedOutput()]) is a
      [RunResult] handed to [job];
    - the wall clock ([time.Now()]) is a [Time] handed to the caller;
    - [uuid.New()] is a [UUID] handed to [job];
    - the SQLite store is a pair of tables (lists of rows in rowid
      order) on which the SQL statements of the source are interpreted;
    - the cron expression parser of robfig/cron is a parameter of the
      registry section;
    - the job file of the variant that reads its jobs from a file is
      the bytes that the reads deliver; the functions of Go's library
      that the loader calls on them ([bufio.Scanner] with its buffer
      limit, [strings.Fields] with its UTF-8 reading and
      [unicode.IsSpace], [strings.Join]) are written out;
    - the goroutines that record concurrently are instruction lists
      over the shared mutex, run by an interleaving step relation.

    Writes to an open log file and statements on an open database
    succeed, except for an INSERT that violates a UNIQUE column. *)

From Stdlib Require Import String Ascii List ZArith NArith Bool Arith Lia.
From Stdlib Require Import Permutation Sorted DecimalString.
Import ListNotations.

Local Open Scope list_scope.
Local Open Scope string_scope.

(** ** Text helpers *)

(** The line feed written as [\n] in the Go string literals. *)
Definition nl : string := String (ascii_of_nat 10) EmptyString.

(** [%d] of [fmt] on an integer. *)
Definition fmtInt (z : Z) : string := NilZero.string_of_int (Z.to_int z).

(** Decimal digits of [n], left-padded with zeros to [width] characters
    (the [appendInt] of Go's [time] package). *)
Fixpoint zeros (k : nat) : string :=
  match k with
  | O => ""
  | S k' => String "0" (zeros k')
  end.

Definition appendInt (n width : nat) : string :=
  let digits := NilZero.string_of_uint (Nat.to_uint n) in
  zeros (width - String.length digits) ++ digits.

(** ** Wall-clock time *)

Record Time := mkTime {
  year : nat;
  month : nat;
  day : nat;
  hour : nat;
  minute : nat;
  second : nat
}.

(** [t.Format("02-01-2006 15:04:05")]: day, month, year, then the time of
    day. *)
Definition formatTime (t : Time) : string :=
  appendInt (day t) 2 ++ "-" ++ appendInt (month t) 2 ++ "-" ++
  appendInt (year t) 4 ++ " " ++
  appendInt (hour t) 2 ++ ":" ++ appendInt (minute t) 2 ++ ":" ++
  appendInt (second t) 2.

(** Chronological order of two instants, most significant field first. *)
Definition timeKey (t : Time) : list nat :=
  [year t; month t; day t; hour t; minute t; second t].

Fixpoint lexLeb (a b : list nat) : bool :=
  match a, b with
  | [], _ => true
  | _ :: _, [] => false
  | x :: a', y :: b' =>
      if (x <? y)%nat then true
      else if (y <? x)%nat then false
      else lexLeb a' b'
  end.

Definition notAfter (t1 t2 : Time) : bool := lexLeb (timeKey t1) (timeKey t2).

(** ** UUIDs

    A [UUID] is a 128-bit value; [uuidString] is its canonical text form
    (32 lower-case hexadecimal digits in groups 8-4-4-4-12). *)

Definition UUID := N.
Bind Scope N_scope with UUID.

Definition hexDigit (n : N) : ascii :=
  match n with
  | 0%N => "0" | 1%N => "1" | 2%N => "2" | 3%N => "3"
  | 4%N => "4" | 5%N => "5" | 6%N => "6" | 7%N => "7"
  | 8%N => "8" | 9%N => "9" | 10%N => "a" | 11%N => "b"
  | 12%N => "c" | 13%N => "d" | 14%N => "e" | _ => "f"
  end%char.

(** Byte number [i] (0 is the most significant) of a 128-bit value. *)
Definition uuidByte (u : UUID) (i : nat) : N :=
  N.land (N.shiftr u (8 * N.of_nat (15 - i))) 255.

Definition hexByte (b : N) : string :=
  String (hexDigit (N.shiftr b 4)) (String (hexDigit (N.land b 15)) "").

Definition hexBytes (u : UUID) (from count : nat) : string :=
  String.concat "" (map (fun i => hexByte (uuidByte u i)) (seq from count)).

Definition uuidString (u : UUID) : string :=
  hexBytes u 0 4 ++ "-" ++ hexBytes u 4 2 ++ "-" ++ hexBytes u 6 2 ++ "-" ++
  hexBytes u 8 2 ++ "-" ++ hexBytes u 10 6.

(** ** Data model *)

(** [type JobStatus struct] *)
Record JobStatus := mkJobStatus {
  UID : string;
  AutoIncrementalID : Z;
  Command : string;
  Timestamp : string;
  Status : string;
  Output : string
}.

(** A row of table [tasks]:
    [id INTEGER PRIMARY KEY AUTOINCREMENT, task_uid TEXT UNIQUE, command,
    timestamp, status, output]. *)
Record TaskRow := mkTaskRow {
  id : Z;
  task_uid : string;
  command : string;
  timestamp : string;
  status : string;
  output : string
}.

(** A row of table [jobs]:
    [job_id INTEGER PRIMARY KEY AUTOINCREMENT, job_name TEXT UNIQUE,
    job_schedule, job_command, job_description, added_at,
    job_status Boolean DEFAULT 1, updated_at]. *)
Record JobRow := mkJobRow {
  job_id : Z;
  job_name : string;
  job_schedule : string;
  job_command : string;
  job_description : string;
  added_at : string;
  job_status : bool;
  updated_at : option string
}.

(** The database: both tables in rowid order, each with the counter that
    SQLite keeps for an AUTOINCREMENT key (the largest rowid ever used). *)
Record Database := mkDatabase {
  tasks : list TaskRow;
  tasks_seq : Z;
  jobs : list JobRow;
  jobs_seq : Z
}.

(** The process globals [logFile] and [db] ([None] is Go's [nil]) and the
    terminal.  A log file opened with [O_APPEND] is its content. *)
Record World := mkWorld {
  logFile : option string;
  db : option Database;
  stdout : string
}.

Definition print (s : string) (w : World) : World :=
  {| logFile := logFile w; db := db w; stdout := stdout w ++ s |}.

Definition setDb (d : Database) (w : World) : World :=
  {| logFile := logFile w; db := Some d; stdout := stdout w |}.

Definition setLogFile (content : string) (w : World) : World :=
  {| logFile := Some content; db := db w; stdout := stdout w |}.

(** ** SQL statements on table [tasks] *)

(** [INSERT INTO tasks (task_uid, command, timestamp, status, output)
    VALUES (?, ?, ?, ?, ?)].  The statement fails when [task_uid] is
    already present (UNIQUE); otherwise the row gets the next rowid. *)
Definition insertTask (uid cmd ts st out : string) (d : Database)
  : Database * Z + string :=
  if existsb (fun r => task_uid r =? uid) (tasks d)
  then inr "UNIQUE constraint failed: tasks.task_uid"
  else
    let rowid := (tasks_seq d + 1)%Z in
    inl ({| tasks := (tasks d ++ [mkTaskRow rowid uid cmd ts st out])%list;
            tasks_seq := rowid;
            jobs := jobs d;
            jobs_seq := jobs_seq d |}, rowid).

(** [SELECT task_uid, command, timestamp, status, output FROM tasks
    WHERE task_uid = ?] read with [QueryRow]: the first matching row, or
    [sql.ErrNoRows]. *)
Definition selectTaskByUid (uid : string) (d : Database) : option TaskRow :=
  find (fun r => task_uid r =? uid) (tasks d).

(** ** Status recorder *)

(** The text [logLine] that [logJobStatus] builds: one line, and for a
    failure a second block with the output. *)
Definition logLineOf (jobStatus : JobStatus) : string :=
  let logLine :=
    "[" ++ Timestamp jobStatus ++ "] Status: " ++ Status jobStatus ++
    ", Job UID: " ++ UID jobStatus ++ ", Command: " ++
    Command jobStatus ++ nl in
  if Status jobStatus =? "Failure"
  then logLine ++
       "[" ++ Timestamp jobStatus ++ "] Error Occured Status: " ++
       Status jobStatus ++ ", Job UID: " ++ UID jobStatus ++ nl ++
       "Command: " ++ Command jobStatus ++ ", Output: " ++
       Output jobStatus ++ nl
  else logLine.

(** [func logJobStatus(jobStatus JobStatus)] *)
Definition logJobStatus (jobStatus : JobStatus) (w : World) : World :=
  match logFile w with
  | None => w
  | Some content =>
      let logLine := logLineOf jobStatus in
      setLogFile (content ++ logLine) (print logLine w)
  end.

(** [func logJobStatusToDB(jobStatus JobStatus)] *)
Definition logJobStatusToDB (jobStatus : JobStatus) (w : World) : World :=
  match db w with
  | None => w
  | Some d =>
      match insertTask (UID jobStatus) (Command jobStatus)
                       (Timestamp jobStatus) (Status jobStatus)
                       (Output jobStatus) d with
      | inr err => print ("Error inserting into database: " ++ err ++ nl) w
      | inl (d', autoIncrementalID) =>
          print ("Inserted job status into database with Auto Incremental ID: "
                 ++ fmtInt autoIncrementalID ++ nl)
                (setDb d' w)
      end
  end.

(** ** Executor *)

(** How the subprocess of [exec.Command("bash", "-c", command)] ended:
    it ran and left an exit status, it was ended by a signal, or it
    could not be started. *)
Inductive Termination :=
| Exited (code : N)
| Signaled (signal : string)
| SpawnFailed (reason : string).

(** What [cmd.CombinedOutput()] observes: the termination and the bytes
    written to stdout and stderr. *)
Record RunResult := mkRunResult {
  termination : Termination;
  combined : string
}.

(** The [err] returned by [CombinedOutput]: [nil] exactly for exit
    status 0. *)
Definition runError (r : RunResult) : option string :=
  match termination r with
  | Exited 0 => None
  | Exited c => Some ("exit status " ++ fmtInt (Z.of_N c))
  | Signaled signal => Some ("signal: " ++ signal)
  | SpawnFailed reason => Some reason
  end.

(** The [JobStatus] literal built in [job]. *)
Definition newJobStatus (cmd : string) (r : RunResult) (endTime : Time)
    (u : UUID) : JobStatus :=
  let status := match runError r with
                | Some _ => "Failure"
                | None => "Success"
                end in
  {| UID := uuidString u;
     AutoIncrementalID := 0;
     Command := cmd;
     Timestamp := formatTime endTime;
     Status := status;
     Output := combined r |}.

(** [func job(command string)] *)
Definition job (cmd : string) (r : RunResult) (endTime : Time) (u : UUID)
    (w : World) : World :=
  let jobStatus := newJobStatus cmd r endTime u in
  logJobStatus jobStatus (logJobStatusToDB jobStatus w).

(** ** HTTP surface *)

(** The parts of [*http.Request] the handlers read: the method, the URL
    query, the posted form, and whether [ParseForm] reports an error. *)
Record Request := mkRequest {
  Method : string;
  URLQuery : list (string * string);
  PostForm : list (string * string);
  ParseFormError : bool
}.

(** First value stored under [key], or the empty string. *)
Fixpoint firstValue (key : string) (values : list (string * string)) : string :=
  match values with
  | [] => ""
  | (k, v) :: rest => if k =? key then v else firstValue key rest
  end.

(** [r.URL.Query().Get(key)] *)
Definition queryGet (r : Request) (key : string) : string :=
  firstValue key (URLQuery r).

(** [r.FormValue(key)]: body parameters take precedence over the URL
    query. *)
Definition FormValue (r : Request) (key : string) : string :=
  firstValue key (PostForm r ++ URLQuery r)%list.

Definition StatusSeeOther : nat := 303.
Definition StatusBadRequest : nat := 400.
Definition StatusNotFound : nat := 404.
Definition StatusMethodNotAllowed : nat := 405.
Definition StatusInternalServerError : nat := 500.

(** One element of the [jobs] slice built by [distinctCommandsHandler]. *)
Module View.
Record t := mk {
  TaskUID : string;
  Command : string;
  LastRun : string;
  SuccessCount : Z;
  FailureCount : Z;
  Output : string;
  HasOutput : bool
}.
End View.

(** What a handler writes to its [http.ResponseWriter]. *)
Inductive Response :=
| HttpError (error : string) (code : nat)
| Redirect (url : string) (code : nat)
| FormWithError (cronExpr cmd jobName jobDescription errorMessage : string)
| Attachment (filename content : string)
| IndexPage (currentTime refreshInterval : string) (views : list View.t).

(** The status code of a response ([renderFormWithError] sets 400, the
    other pages are written with the default 200). *)
Definition statusCode (resp : Response) : nat :=
  match resp with
  | HttpError _ code => code
  | Redirect _ code => code
  | FormWithError _ _ _ _ _ => StatusBadRequest
  | Attachment _ _ => 200
  | IndexPage _ _ _ => 200
  end.

(** [func renderFormWithError(w, cronExpr, command, jobName,
    jobDescription, errorMessage)]: the form again, with the values
    typed in and the error message, under status 400. *)
Definition renderFormWithError
    (cronExpr cmd jobName jobDescription errorMessage : string) : Response :=
  FormWithError cronExpr cmd jobName jobDescription errorMessage.

(** A Go call either returns or panics (a method called through the nil
    [db] handle dereferences a nil pointer). *)
Inductive Outcome (A : Type) :=
| Returned (a : A)
| Panicked.
Arguments Returned {A} a.
Arguments Panicked {A}.

(** ** Status query service *)

(** [func downloadLogHandler(w http.ResponseWriter, r *http.Request)] *)
Definition downloadLogHandler (r : Request) (w : World)
  : Outcome (Response * World) :=
  let taskID := queryGet r "task_uid" in
  if taskID =? "" then
    Returned (HttpError "Task ID not specified" StatusBadRequest, w)
  else
    match db w with
    | None => Panicked
    | Some d =>
        match selectTaskByUid taskID d with
        | None =>
            Returned (HttpError "No log entries found for the specified task ID"
                                StatusNotFound, w)
        | Some row =>
            let logContent :=
              "Task ID: " ++ task_uid row ++ nl ++
              "Command: " ++ command row ++ nl ++
              "Timestamp: " ++ timestamp row ++ nl ++
              "Status: " ++ status row ++ nl ++ nl ++
              "Output:" ++ nl ++ output row ++ nl in
            Returned (Attachment (task_uid row ++ ".log") logContent, w)
        end
    end.

(** A row of the aggregate query of [distinctCommandsHandler]. *)
Record SummaryRow := mkSummaryRow {
  sum_command : string;
  sum_task_uid : string;
  last_run : string;
  success_count : Z;
  failure_count : Z;
  sum_output : string
}.

(** The keys of [GROUP BY command], each once, in order of first
    appearance. *)
Fixpoint distinct (l : list string) : list string :=
  match l with
  | [] => []
  | x :: rest => x :: filter (fun y => negb (y =? x)) (distinct rest)
  end.

(** The row holding [MAX(timestamp)] among [best :: rows].  TEXT values
    are compared byte by byte (SQLite's BINARY collation); of several
    rows with the greatest value the earliest is kept. *)
Fixpoint maxTimestampRow (best : TaskRow) (rows : list TaskRow) : TaskRow :=
  match rows with
  | [] => best
  | r :: rest =>
      maxTimestampRow
        (if String.ltb (timestamp best) (timestamp r) then r else best) rest
  end.

(** [SUM(CASE WHEN status = s THEN 1 ELSE 0 END)] *)
Fixpoint sumCase (s : string) (rows : list TaskRow) : Z :=
  match rows with
  | [] => 0%Z
  | r :: rest => Z.add (if status r =? s then 1%Z else 0%Z) (sumCase s rest)
  end.

(** One output row per group; the bare columns [task_uid] and [output]
    come from the row that holds the maximum. *)
Definition aggregate (first : TaskRow) (rest : list TaskRow) : SummaryRow :=
  let top := maxTimestampRow first rest in
  {| sum_command := command first;
     sum_task_uid := task_uid top;
     last_run := timestamp top;
     success_count := sumCase "Success" (first :: rest);
     failure_count := sumCase "Failure" (first :: rest);
     sum_output := output top |}.

Definition groupOf (c : string) (rows : list TaskRow) : list TaskRow :=
  filter (fun r => command r =? c) rows.

Definition groupRows (rows : list TaskRow) : list SummaryRow :=
  flat_map (fun c => match groupOf c rows with
                     | [] => []
                     | first :: rest => [aggregate first rest]
                     end)
           (distinct (map command rows)).

(** [ORDER BY last_run DESC]: a stable insertion sort on the text of
    [last_run], greatest first. *)
Fixpoint insertDesc (x : SummaryRow) (l : list SummaryRow) : list SummaryRow :=
  match l with
  | [] => [x]
  | y :: rest =>
      if String.leb (last_run y) (last_run x)
      then x :: y :: rest
      else y :: insertDesc x rest
  end.

Definition orderByLastRunDesc (l : list SummaryRow) : list SummaryRow :=
  fold_right insertDesc [] l.

(** [SELECT command, task_uid, MAX(timestamp) AS last_run, SUM(...),
    SUM(...), output FROM tasks GROUP BY command ORDER BY last_run DESC] *)
Definition selectSummary (d : Database) : list SummaryRow :=
  orderByLastRunDesc (groupRows (tasks d)).

(** The body of the [rows.Next()] loop. *)
Definition viewOf (row : SummaryRow) : View.t :=
  {| View.TaskUID := sum_task_uid row;
     View.Command := sum_command row;
     View.LastRun := last_run row;
     View.SuccessCount := success_count row;
     View.FailureCount := failure_count row;
     View.Output := sum_output row;
     View.HasOutput := (2 <? String.length (sum_output row))%nat |}.

(** [func getCurrentTime() string] *)
Definition getCurrentTime (now : Time) : string := formatTime now.

(** [func distinctCommandsHandler(w http.ResponseWriter, r *http.Request)] *)
Definition distinctCommandsHandler (now : Time) (r : Request) (w : World)
  : Outcome (Response * World) :=
  let refreshInterval :=
    if queryGet r "interval" =? "" then "5" else queryGet r "interval" in
  match db w with
  | None => Panicked
  | Some d =>
      let rows := selectSummary d in
      let currentTime := getCurrentTime now in
      Returned (IndexPage currentTime refreshInterval (map viewOf rows), w)
  end.

(** ** SQL statements on table [jobs] *)

(** [SELECT EXISTS(SELECT 1 FROM jobs WHERE job_name = ?)]: TEXT equality
    is exact and case sensitive, and rows of every [job_status] count. *)
Definition jobNameExists (name : string) (d : Database) : bool :=
  existsb (fun j => job_name j =? name) (jobs d).

(** [INSERT INTO jobs (job_name, job_schedule, job_command,
    job_description, added_at) VALUES (?, ?, ?, ?, ?)]: [job_status] takes
    its default 1 and [updated_at] stays NULL; the statement fails when
    the name is already present (UNIQUE). *)
Definition insertJob (name schedule cmd description ts : string)
    (d : Database) : Database + string :=
  if jobNameExists name d
  then inr "UNIQUE constraint failed: jobs.job_name"
  else
    let rowid := (jobs_seq d + 1)%Z in
    inl {| tasks := tasks d;
           tasks_seq := tasks_seq d;
           jobs := (jobs d ++
                    [mkJobRow rowid name schedule cmd description ts
                              true None])%list;
           jobs_seq := rowid |}.

Definition disabled (j : JobRow) : JobRow :=
  {| job_id := job_id j;
     job_name := job_name j;
     job_schedule := job_schedule j;
     job_command := job_command j;
     job_description := job_description j;
     added_at := added_at j;
     job_status := false;
     updated_at := updated_at j |}.

(** ** Splitting a line into fields *)

(** A Go string is a sequence of bytes, and the loops of the [strings]
    package read it rune by rune in UTF-8. *)
Definition rune := N.

Definition byte (c : ascii) : N := N_of_ascii c.

(** [utf8.RuneError], U+FFFD. *)
Definition RuneError : rune := 0xFFFD%N.

(** The table [first] of unicode/utf8 with its [acceptRanges]: what the
    first byte of an encoding says about the rest of it (the number of
    bytes, and the range the second byte must lie in). *)
Inductive FirstByte :=
| ASCII
| Illegal
| Lead (sz : nat) (lo hi : N).

Definition first (s0 : N) : FirstByte :=
  if (s0 <? 0x80)%N then ASCII
  else if (s0 <? 0xC2)%N then Illegal
  else if (s0 <? 0xE0)%N then Lead 2 0x80 0xBF
  else if (s0 =? 0xE0)%N then Lead 3 0xA0 0xBF
  else if (s0 <? 0xED)%N then Lead 3 0x80 0xBF
  else if (s0 =? 0xED)%N then Lead 3 0x80 0x9F
  else if (s0 <? 0xF0)%N then Lead 3 0x80 0xBF
  else if (s0 =? 0xF0)%N then Lead 4 0x90 0xBF
  else if (s0 <? 0xF4)%N then Lead 4 0x80 0xBF
  else if (s0 =? 0xF4)%N then Lead 4 0x80 0x8F
  else Illegal.

(** [s[i]], read only below [len(s)]. *)
Definition byteAt (s : string) (i : nat) : N :=
  match String.get i s with
  | Some c => byte c
  | None => 0%N
  end.

(** The continuation bytes, [locb] to [hicb]. *)
Definition continuation (b : N) : bool := ((0x80 <=? b) && (b <=? 0xBF))%N.

(** [utf8.DecodeRuneInString(s)]: the first rune of [s] and the number
    of bytes it takes; a byte that starts no well-formed encoding is
    [RuneError] of width 1. *)
Definition DecodeRuneInString (s : string) : rune * nat :=
  match s with
  | EmptyString => (RuneError, 0%nat)
  | String c0 _ =>
      let s0 := byte c0 in
      match first s0 with
      | ASCII => (s0, 1%nat)
      | Illegal => (RuneError, 1%nat)
      | Lead sz lo hi =>
          if (String.length s <? sz)%nat then (RuneError, 1%nat) else
          let s1 := byteAt s 1 in
          if ((s1 <? lo) || (hi <? s1))%N then (RuneError, 1%nat) else
          if (sz <=? 2)%nat then
            (N.lor (N.shiftl (N.land s0 0x1F) 6) (N.land s1 0x3F), 2%nat)
          else
          let s2 := byteAt s 2 in
          if negb (continuation s2) then (RuneError, 1%nat) else
          if (sz <=? 3)%nat then
            (N.lor (N.lor (N.shiftl (N.land s0 0x0F) 12)
                          (N.shiftl (N.land s1 0x3F) 6))
                   (N.land s2 0x3F), 3%nat)
          else
          let s3 := byteAt s 3 in
          if negb (continuation s3) then (RuneError, 1%nat) else
          (N.lor (N.lor (N.lor (N.shiftl (N.land s0 0x07) 18)
                               (N.shiftl (N.land s1 0x3F) 12))
                        (N.shiftl (N.land s2 0x3F) 6))
                 (N.land s3 0x3F), 4%nat)
      end
  end.

(** [unicode.IsSpace(r)]: the white space of Latin-1, and beyond it the
    code points of the [White_Space] table. *)
Definition IsSpace (r : rune) : bool :=
  if (r <=? 0xFF)%N then
    ((r =? 9) || (r =? 10) || (r =? 11) || (r =? 12) || (r =? 13) ||
     (r =? 32) || (r =? 0x85) || (r =? 0xA0))%N
  else
    ((r =? 0x1680) || ((0x2000 <=? r) && (r <=? 0x200A)) ||
     ((0x2028 <=? r) && (r <=? 0x2029)) || (r =? 0x202F) ||
     (r =? 0x205F) || (r =? 0x3000))%N.

(** The text of the span that is open, if one is. *)
Definition spanText (start : option string) : string :=
  match start with
  | Some field => field
  | None => ""
  end.

(** The loop [for end, rune := range s] of [strings.FieldsFunc], at
    byte [end] of the string: [s] is what lies ahead, [ahead] counts
    the bytes of the rune read last that are still to pass, and [start]
    holds the text of the open span ([None] for [start < 0]).  A rune
    on which [f] holds closes the open span, another rune opens one. *)
Fixpoint fieldsLoop (f : rune -> bool) (s : string) (ahead : nat)
    (start : option string) : list string :=
  match s with
  | EmptyString =>
      match start with
      | Some field => [field]
      | None => []
      end
  | String c rest =>
      match ahead with
      | S ahead' =>
          fieldsLoop f rest ahead'
            (match start with
             | Some field => Some (field ++ String c "")
             | None => None
             end)
      | O =>
          let '(r, size) := DecodeRuneInString s in
          if f r then
            match start with
            | Some field => field :: fieldsLoop f rest (size - 1) None
            | None => fieldsLoop f rest (size - 1) None
            end
          else
            fieldsLoop f rest (size - 1)
                       (Some (spanText start ++ String c ""))
      end
  end.

(** [strings.FieldsFunc(s, f)] *)
Definition FieldsFunc (s : string) (f : rune -> bool) : list string :=
  fieldsLoop f s 0 None.

(** [strings.Fields(s)]: the fields of [s] around runs of white space
    ([unicode.IsSpace]); the short cut the library takes for a string
    of ASCII bytes gives the same fields. *)
Definition Fields (s : string) : list string := FieldsFunc s IsSpace.

(** [strings.Join(elems, sep)] *)
Definition Join (elems : list string) (sep : string) : string :=
  String.concat sep elems.

(** ** Reading a job file *)

(** What [os.Open] and the reads of the file deliver: an open error, or
    the bytes of the file, followed by its end or by the error of the
    read that failed. *)
Inductive JobFile :=
| OpenError (err : string)
| Opened (content : string) (readErr : option string).

(** [bufio.MaxScanTokenSize], the size the buffer of a [bufio.Scanner]
    does not grow beyond unless [Buffer] is called. *)
Definition MaxScanTokenSize : N := 65536%N.

(** The text of [bufio.ErrTooLong]. *)
Definition ErrTooLong : string := "bufio.Scanner: token too long".

Fixpoint reverseOnto (s acc : string) : string :=
  match s with
  | EmptyString => acc
  | String c rest => reverseOnto rest (String c acc)
  end.

Definition reverse (s : string) : string := reverseOnto s "".

(** [dropCR] of bufio: the line without the carriage return it may end
    with. *)
Fixpoint dropCR (data : string) : string :=
  match data with
  | EmptyString => ""
  | String c rest =>
      match rest with
      | EmptyString => if (c =? "013")%char then "" else data
      | String _ _ => String c (dropCR rest)
      end
  end.

(** The loop [for scanner.Scan()] over a [bufio.NewScanner(file)]: the
    texts it delivers ([scanner.Text()]) and what [scanner.Err()]
    returns after it.  The scanner splits with [ScanLines]; [held] is
    the part of the current line that is in its buffer (last byte
    first) and [n] the length of that part.  A buffer that is full
    without a line feed in it ends the scan with [ErrTooLong]; at the
    end of the file, or at a read error, what is held is delivered as
    the last line. *)
Fixpoint scanLoop (data held : string) (n : N) (readErr : option string)
  : list string * option string :=
  match data with
  | EmptyString =>
      (match held with
       | EmptyString => []
       | String _ _ => [dropCR (reverse held)]
       end, readErr)
  | String c rest =>
      if (c =? "010")%char then
        let '(lines, err) := scanLoop rest "" 0 readErr in
        (dropCR (reverse held) :: lines, err)
      else if (MaxScanTokenSize <=? N.succ n)%N then ([], Some ErrTooLong)
      else scanLoop rest (String c held) (N.succ n) readErr
  end.

(** ** Job registry and trigger clock *)

Section Registry.

(** The schedules of robfig/cron: [ParseStandard] turns a cron
    expression into a schedule or an error text, and [Due] tells
    whether a schedule activates at a given minute. *)
Variable Schedule : Type.
Variable ParseStandard : string -> Schedule + string.
Variable Due : Schedule -> Time -> bool.

(** SQLite compares the INTEGER column [job_id] with a TEXT parameter
    by numeric affinity: the integer the text stands for, if any. *)
Variable integerOfText : string -> option Z.

(** An entry of a [*cron.Cron]: the schedule and the command captured
    by the closure [func() { job(cmd) }]. *)
Record Entry := mkEntry {
  entrySchedule : Schedule;
  entryCmd : string
}.

Record Cron := mkCron {
  entries : list Entry
}.

(** [cron.New()] *)
Definition cronNew : Cron := {| entries := [] |}.

(** [c.AddFunc(spec, func() { job(cmd) })] *)
Definition AddFunc (spec cmd : string) (c : Cron) : Cron + string :=
  match ParseStandard spec with
  | inr err => inr err
  | inl s => inl {| entries := (entries c ++ [mkEntry s cmd])%list |}
  end.

(** The running process: the globals and the clocks on which
    [Start()] was called (each keeps firing its entries until the
    process exits). *)
Record Process := mkProcess {
  world : World;
  clocks : list Cron
}.

(** The commands one clock hands to [job] at minute [t]. *)
Definition dueCommands (t : Time) (c : Cron) : list string :=
  map entryCmd (filter (fun e => Due (entrySchedule e) t) (entries c)).

(** The commands dispatched by the process at minute [t]. *)
Definition tick (t : Time) (p : Process) : list string :=
  flat_map (dueCommands t) (clocks p).

(** The entries armed in the running clocks. *)
Definition armed (p : Process) : list Entry := flat_map entries (clocks p).

(** [func submitJobHandler(w http.ResponseWriter, r *http.Request)] *)
Definition submitJobHandler (now : Time) (r : Request) (p : Process)
  : Outcome (Response * Process) :=
  if negb (Method r =? "POST") then
    Returned (HttpError "Invalid request method" StatusMethodNotAllowed, p)
  else
    let cronExpr := FormValue r "cron_expr" in
    let cmd := FormValue r "command" in
    let jobName := FormValue r "job_name" in
    let jobDescription := FormValue r "job_description" in
    if (cronExpr =? "") || (cmd =? "") || (jobName =? "") ||
       (jobDescription =? "") then
      Returned (renderFormWithError cronExpr cmd jobName jobDescription
        "Missing cron expression, command, job name, or job description", p)
    else
      match db (world p) with
      | None => Panicked
      | Some d =>
          if jobNameExists jobName d then
            Returned (renderFormWithError cronExpr cmd jobName jobDescription
              "Job name already exists. Please enter a different unique job name.",
              p)
          else
            match insertJob jobName cronExpr cmd jobDescription
                            (formatTime now) d with
            | inr _ =>
                Returned (renderFormWithError cronExpr cmd jobName jobDescription
                  "Error inserting job into database", p)
            | inl d' =>
                let w' := setDb d' (world p) in
                match AddFunc cronExpr cmd cronNew with
                | inr err =>
                    Returned (Redirect "/" StatusSeeOther,
                      {| world := print ("Error scheduling new job: " ++
                                         err ++ nl) w';
                         clocks := clocks p |})
                | inl c =>
                    Returned (Redirect "/" StatusSeeOther,
                      {| world := w';
                         clocks := (clocks p ++ [c])%list |})
                end
            end
      end.

(** The loop of [scheduleJobsFromTable] over the rows
    [(job_schedule, job_command)]. *)
Fixpoint scheduleRows (rows : list (string * string)) (c : Cron) (w : World)
  : Cron * World :=
  match rows with
  | [] => (c, w)
  | (cronExpr, cmd) :: rest =>
      match AddFunc cronExpr cmd c with
      | inr err =>
          scheduleRows rest c (print ("Error scheduling job: " ++ err ++ nl) w)
      | inl c' =>
          scheduleRows rest c'
            (print ("Scheduled job: " ++ cmd ++ " with cron expression: " ++
                    cronExpr ++ nl) w)
      end
  end.

(** [SELECT job_schedule, job_command FROM jobs WHERE job_status = 1] *)
Definition selectActiveJobs (d : Database) : list (string * string) :=
  map (fun j => (job_schedule j, job_command j))
      (filter job_status (jobs d)).

(** [func scheduleJobsFromTable(c *cron.Cron)] *)
Definition scheduleJobsFromTable (c : Cron) (w : World)
  : Outcome (Cron * World) :=
  match db w with
  | None => Panicked
  | Some d => Returned (scheduleRows (selectActiveJobs d) c w)
  end.

(** [func logSchedulerStart()] *)
Definition logSchedulerStart (now : Time) (w : World) : World :=
  let message := "[" ++ formatTime now ++ "] Scheduler has started" ++ nl in
  let w := print message w in
  match logFile w with
  | Some content => setLogFile (content ++ message) w
  | None => w
  end.

(** The scheduling part of [main]:
    [c := cron.New(); scheduleJobsFromTable(c); c.Start();
    logSchedulerStart()]. *)
Definition startScheduler (now : Time) (w : World) : Outcome Process :=
  match scheduleJobsFromTable cronNew w with
  | Panicked => Panicked
  | Returned (c, w') =>
      Returned {| world := logSchedulerStart now w'; clocks := [c] |}
  end.

(** Whether [job_id = ?] holds of a row for the text parameter. *)
Definition jobIdIs (jobID : string) (j : JobRow) : bool :=
  match integerOfText jobID with
  | Some n => (job_id j =? n)%Z
  | None => false
  end.

(** [UPDATE jobs SET job_status = 0 WHERE job_id = ?] *)
Definition disableJob (jobID : string) (d : Database) : Database :=
  {| tasks := tasks d;
     tasks_seq := tasks_seq d;
     jobs := map (fun j => if jobIdIs jobID j then disabled j else j)
                 (jobs d);
     jobs_seq := jobs_seq d |}.

(** [func deleteJobHandler(w http.ResponseWriter, r *http.Request)] *)
Definition deleteJobHandler (r : Request) (p : Process)
  : Outcome (Response * Process) :=
  if negb (Method r =? "POST") then
    Returned (HttpError "Invalid request method" StatusMethodNotAllowed, p)
  else if ParseFormError r then
    Returned (HttpError "Failed to parse form data" StatusBadRequest, p)
  else
    let jobID := FormValue r "job_id" in
    if jobID =? "" then
      Returned (HttpError "Job ID is required" StatusBadRequest, p)
    else
      match db (world p) with
      | None => Panicked
      | Some d =>
          Returned (Redirect "/" StatusSeeOther,
                    {| world := setDb (disableJob jobID d) (world p);
                       clocks := clocks p |})
      end.

(** The [WriteString] of [scheduleJobsFromFile]: the handle is used
    without a nil check, and a nil [*os.File] reports an error. *)
Definition writeSchedulerLine (line : string) (w : World) : World :=
  match logFile w with
  | Some content => setLogFile (content ++ line) w
  | None => print ("Error writing to log file: invalid argument" ++ nl) w
  end.

(** The body of the [scanner.Scan()] loop of [scheduleJobsFromFile]. *)
Definition scheduleLine (line : string) (c : Cron) (w : World)
  : Cron * World :=
  let parts := Fields line in
  if (List.length parts <? 6)%nat then
    (c, print ("Skipping invalid line: " ++ line ++ nl) w)
  else
    let cronExpr := Join (firstn 5 parts) " " in
    let cmd := Join (skipn 5 parts) " " in
    match AddFunc cronExpr cmd c with
    | inr err =>
        let SchedulerLine := "Error scheduling job: " ++ err ++ nl in
        (c, writeSchedulerLine SchedulerLine (print SchedulerLine w))
    | inl c' =>
        let SchedulerLine :=
          "Scheduled job: " ++ cmd ++ " with cron expression: " ++
          cronExpr ++ nl in
        (c', writeSchedulerLine SchedulerLine (print SchedulerLine w))
    end.

Fixpoint scheduleLines (lines : list string) (c : Cron) (w : World)
  : Cron * World :=
  match lines with
  | [] => (c, w)
  | line :: rest =>
      let '(c', w') := scheduleLine line c w in
      scheduleLines rest c' w'
  end.

(** [func scheduleJobsFromFile(c *cron.Cron, filePath string)], the loader
    of the variant of the program that keeps its jobs in a file.  The
    scanner reads on whatever the body of the loop does, so the lines
    it delivers are listed first. *)
Definition scheduleJobsFromFile (c : Cron) (file : JobFile) (w : World)
  : Cron * World :=
  match file with
  | OpenError err => (c, print ("Error opening file: " ++ err ++ nl) w)
  | Opened content readErr =>
      let '(lines, scanErr) := scanLoop content "" 0 readErr in
      let '(c', w') := scheduleLines lines c w in
      match scanErr with
      | Some err => (c', print ("Error reading file: " ++ err ++ nl) w')
      | None => (c', w')
      end
  end.

End Registry.

Arguments mkEntry {Schedule} _ _.
Arguments entrySchedule {Schedule} _.
Arguments entryCmd {Schedule} _.
Arguments mkCron {Schedule} _.
Arguments entries {Schedule} _.
Arguments cronNew {Schedule}.
Arguments mkProcess {Schedule} _ _.
Arguments world {Schedule} _.
Arguments clocks {Schedule} _.
Arguments armed {Schedule} _.
Arguments AddFunc {Schedule} _ _ _ _.
Arguments dueCommands {Schedule} _ _ _.
Arguments tick {Schedule} _ _ _.
Arguments submitJobHandler {Schedule} _ _ _ _.
Arguments scheduleRows {Schedule} _ _ _ _.
Arguments scheduleJobsFromTable {Schedule} _ _ _.
Arguments startScheduler {Schedule} _ _ _.
Arguments deleteJobHandler {Schedule} _ _ _.
Arguments scheduleLine {Schedule} _ _ _ _.
Arguments scheduleLines {Schedule} _ _ _ _.
Arguments scheduleJobsFromFile {Schedule} _ _ _ _.

(** ** A reference schedule evaluator *)

(** Decimal value of a non-empty string of digits. *)
Fixpoint digitsValue (s : string) (acc : nat) : option nat :=
  match s with
  | EmptyString => Some acc
  | String c s' =>
      let n := nat_of_ascii c in
      if ((48 <=? n) && (n <=? 57))%nat
      then digitsValue s' (10 * acc + (n - 48))
      else None
  end.

Definition parseNat (s : string) : option nat :=
  match s with
  | EmptyString => None
  | _ => digitsValue s 0
  end.

(** The integer a decimal text stands for, used for [integerOfText]. *)
Definition decimalInteger (s : string) : option Z :=
  option_map Z.of_nat (parseNat s).

(** One field of a cron expression: any value, or one literal value. *)
Inductive CronField :=
| Any
| Literal (n : nat).

Record FieldSchedule := mkFieldSchedule {
  atMinute : CronField;
  atHour : CronField;
  atDom : CronField;
  atMonth : CronField;
  atDow : CronField
}.

Definition parseField (name : string) (lo hi : nat) (s : string)
  : CronField + string :=
  if s =? "*" then inl Any
  else
    match parseNat s with
    | None => inr ("failed to parse " ++ name ++ " field: " ++ s)
    | Some n =>
        if ((lo <=? n) && (n <=? hi))%nat then inl (Literal n)
        else inr (name ++ " field out of range: " ++ s)
    end.

(** Modelled from the spec: the cron expression parser (robfig/cron) is
    not under src/.  Five space-separated fields (minute 0-59, hour 0-23,
    day-of-month 1-31, month 1-12, day-of-week 0-6), each [*] or a
    literal integer; a wrong field count or an out-of-range value is an
    error with a descriptive text. *)
Definition specParseStandard (spec : string) : FieldSchedule + string :=
  match Fields spec with
  | [mi; ho; dom; mo; dow] =>
      match parseField "minute" 0 59 mi, parseField "hour" 0 23 ho,
            parseField "day-of-month" 1 31 dom, parseField "month" 1 12 mo,
            parseField "day-of-week" 0 6 dow with
      | inl a, inl b, inl c, inl d, inl e => inl (mkFieldSchedule a b c d e)
      | inr err, _, _, _, _ => inr err
      | _, inr err, _, _, _ => inr err
      | _, _, inr err, _, _ => inr err
      | _, _, _, inr err, _ => inr err
      | _, _, _, _, inr err => inr err
      end
  | parts =>
      inr ("expected exactly 5 fields, found " ++
           fmtInt (Z.of_nat (List.length parts)) ++ ": " ++ spec)
  end.

Definition fieldMatches (f : CronField) (v : nat) : bool :=
  match f with
  | Any => true
  | Literal n => (n =? v)%nat
  end.

(** Day of the week of a calendar date, 0 for Sunday. *)
Definition weekday (t : Time) : nat :=
  let offsets := [0; 3; 2; 5; 0; 3; 5; 1; 4; 6; 2; 4]%nat in
  let y := if (month t <? 3)%nat then year t - 1 else year t in
  ((y + y / 4 - y / 100 + y / 400 + nth (month t - 1) offsets 0 + day t)
     mod 7)%nat.

(** Modelled from the spec: standard cron field semantics, not under
    src/.  Minute, hour and month must match; when both day fields are
    restricted one of them suffices, otherwise both must match. *)
Definition specDue (s : FieldSchedule) (t : Time) : bool :=
  fieldMatches (atMinute s) (minute t) &&
  fieldMatches (atHour s) (hour t) &&
  fieldMatches (atMonth s) (month t) &&
  match atDom s, atDow s with
  | Literal d, Literal wd => (d =? day t)%nat || (wd =? weekday t)%nat
  | dom, dow => fieldMatches dom (day t) && fieldMatches dow (weekday t)
  end.

(** ** Concurrent recording

    Every dispatched job runs in its own goroutine and ends with the two
    recorder calls.  The goroutines are modelled as instruction lists
    over the shared mutex [mu] and the two durable sinks.  A write is
    split into the smallest pieces (one byte of the log text, one column
    of the row), so that without the lock pieces of different records
    could mix.  Terminal output and the UNIQUE check of the insert are
    left out of this part of the model. *)

Inductive Sink :=
| LogSink
| TasksSink.

Inductive Instr :=
| Lock
| Unlock
| Write (k : Sink) (piece : string).

(** The recorder calls made by a goroutine. *)
Inductive Call :=
| ToDB (jobStatus : JobStatus)
| ToLog (jobStatus : JobStatus).

(** Which of the global handles are non-nil. *)
Record Handles := mkHandles {
  logOpen : bool;
  dbOpen : bool
}.

Definition bytesOf (s : string) : list string :=
  map (fun c => String c "") (list_ascii_of_string s).

Definition columnsOf (jobStatus : JobStatus) : list string :=
  [UID jobStatus; Command jobStatus; Timestamp jobStatus; Status jobStatus;
   Output jobStatus].

(** The writes made between [mu.Lock()] and the deferred [mu.Unlock()]. *)
Definition writesOf (h : Handles) (call : Call) : list (Sink * string) :=
  match call with
  | ToDB jobStatus =>
      if dbOpen h then map (pair TasksSink) (columnsOf jobStatus) else []
  | ToLog jobStatus =>
      if logOpen h then map (pair LogSink) (bytesOf (logLineOf jobStatus))
      else []
  end.

Definition writeInstr (kp : Sink * string) : Instr := Write (fst kp) (snd kp).

Definition callCode (h : Handles) (call : Call) : list Instr :=
  (Lock :: map writeInstr (writesOf h call) ++ [Unlock])%list.

Definition callsCode (h : Handles) (calls : list Call) : list Instr :=
  flat_map (callCode h) calls.

(** The recorder part of [job]: [logJobStatusToDB] then [logJobStatus]. *)
Definition jobCalls (jobStatus : JobStatus) : list Call :=
  [ToDB jobStatus; ToLog jobStatus].

Record Goroutine := mkGoroutine {
  gid : nat;
  code : list Instr
}.

Record Event := mkEvent {
  writer : nat;
  sink : Sink;
  piece : string
}.

(** The shared state: whether [mu] is locked, the goroutines, and the
    pieces written so far in the order they reached the sinks. *)
Record Config := mkConfig {
  mu : bool;
  pool : list Goroutine;
  trace : list Event
}.

(** One goroutine executes one instruction.  [Lock] needs the mutex to
    be free; [Unlock] needs it to be locked (Go aborts otherwise) and
    does not ask who locked it. *)
Inductive step : Config -> Config -> Prop :=
| StepLock : forall before g rest after tr,
    code g = Lock :: rest ->
    step (mkConfig false (before ++ g :: after)%list tr)
         (mkConfig true (before ++ mkGoroutine (gid g) rest :: after)%list tr)
| StepUnlock : forall before g rest after tr,
    code g = Unlock :: rest ->
    step (mkConfig true (before ++ g :: after)%list tr)
         (mkConfig false (before ++ mkGoroutine (gid g) rest :: after)%list tr)
| StepWrite : forall m before g k s rest after tr,
    code g = Write k s :: rest ->
    step (mkConfig m (before ++ g :: after)%list tr)
         (mkConfig m (before ++ mkGoroutine (gid g) rest :: after)%list
                   (tr ++ [mkEvent (gid g) k s])%list).

Inductive steps : Config -> Config -> Prop :=
| StepsRefl : forall c, steps c c
| StepsSnoc : forall c1 c2 c3, steps c1 c2 -> step c2 c3 -> steps c1 c3.

(** The start of a set of goroutines, each with its number and the
    calls it is going to make: the mutex is free and nothing has been
    written (only what is appended to the sinks is traced). *)
Definition launch (h : Handles) (programs : list (nat * list Call)) : Config :=
  mkConfig false
           (map (fun p => mkGoroutine (fst p) (callsCode h (snd p))) programs)
           [].

(** One goroutine per record, numbered from [n]. *)
Fixpoint jobPrograms (n : nat) (records : list JobStatus)
  : list (nat * list Call) :=
  match records with
  | [] => []
  | jobStatus :: rest => (n, jobCalls jobStatus) :: jobPrograms (S n) rest
  end.

Definition initial (h : Handles) (records : list JobStatus) : Config :=
  launch h (jobPrograms 0 records).

Definition finished (c : Config) : Prop :=
  Forall (fun g => code g = []) (pool c).

(** What has reached sink [k]: the pieces in order. *)
Definition received (k : Sink) (tr : list Event) : list string :=
  map piece
      (filter (fun e => match sink e, k with
                        | LogSink, LogSink => true
                        | TasksSink, TasksSink => true
                        | _, _ => false
                        end) tr).

(** The content appended to the log file. *)
Definition appended (tr : list Event) : string :=
  String.concat "" (received LogSink tr).

(** The same semantics as a function: goroutine number [i] of the pool
    executes its next instruction, if it has one and is not blocked. *)
Fixpoint replaceAt {A : Type} (i : nat) (x : A) (l : list A) : list A :=
  match l, i with
  | [], _ => []
  | _ :: rest, O => x :: rest
  | a :: rest, S i' => a :: replaceAt i' x rest
  end.

Definition stepOf (i : nat) (c : Config) : option Config :=
  match nth_error (pool c) i with
  | None => None
  | Some g =>
      match code g with
      | [] => None
      | Lock :: rest =>
          if mu c then None
          else Some (mkConfig true
                       (replaceAt i (mkGoroutine (gid g) rest) (pool c))
                       (trace c))
      | Unlock :: rest =>
          if mu c
          then Some (mkConfig false
                       (replaceAt i (mkGoroutine (gid g) rest) (pool c))
                       (trace c))
          else None
      | Write k s :: rest =>
          Some (mkConfig (mu c)
                  (replaceAt i (mkGoroutine (gid g) rest) (pool c))
                  (trace c ++ [mkEvent (gid g) k s])%list)
      end
  end.

(** Run a schedule: the goroutine named at each position takes a step
    when it can. *)
Fixpoint run (schedule : list nat) (c : Config) : Config :=
  match schedule with
  | [] => c
  | i :: rest =>
      match stepOf i c with
      | Some c' => run rest c'
      | None => run rest c
      end
  end.

(** A schedule that lets the goroutines take turns, [rounds] times. *)
Fixpoint roundRobin (rounds goroutines : nat) : list nat :=
  match rounds with
  | O => []
  | S k => (seq 0 goroutines ++ roundRobin k goroutines)%list
  end.

(** ** The delete-job page *)

(** [type Job struct] *)
Record Job := mkJob {
  JobID : string;
  JobName : string
}.

(** [SELECT job_id, job_name FROM jobs where job_status = 1], each row
    scanned into a [Job]: the integer key is read into a string as its
    decimal text. *)
Definition selectJobList (d : Database) : list Job :=
  map (fun j => mkJob (fmtInt (job_id j)) (job_name j))
      (filter job_status (jobs d)).

(** [func getJobs() ([]Job, error)] *)
Definition getJobs (w : World) : Outcome (list Job) :=
  match db w with
  | None => Panicked
  | Some d => Returned (selectJobList d)
  end.

(** [func deleteJobPageHandler(w http.ResponseWriter, r *http.Request)]:
    the page is its list of jobs. *)
Definition deleteJobPageHandler (r : Request) (w : World)
  : Outcome (list Job * World) :=
  match getJobs w with
  | Panicked => Panicked
  | Returned listed => Returned (listed, w)
  end.

(** ** The variant with one log file per task

    In this variant of the program [logJobStatus] also saves the text of
    a record in a file of its own, and [downloadLogHandler] serves that
    file.  The files are kept by path, the latest write first
    ([ioutil.WriteFile] replaces the content); writing succeeds. *)

Record TaskLogs := mkTaskLogs {
  globals : World;
  files : list (string * string)
}.

(** [ioutil.ReadFile(path)] *)
Fixpoint readFile (path : string) (fs : list (string * string)) : option string :=
  match fs with
  | [] => None
  | (p, content) :: rest => if p =? path then Some content else readFile path rest
  end.

(** [fmt.Sprintf("./logs/%s.log", uid)] *)
Definition taskLogFilePath (uid : string) : string := "./logs/" ++ uid ++ ".log".

(** [func logJobStatus(jobStatus JobStatus)] of the variant. *)
Definition logJobStatusWithFile (jobStatus : JobStatus) (t : TaskLogs)
  : TaskLogs :=
  match logFile (globals t) with
  | None => t
  | Some content =>
      let logLine := logLineOf jobStatus in
      {| globals := setLogFile (content ++ logLine) (print logLine (globals t));
         files := (taskLogFilePath (UID jobStatus), logLine) :: files t |}
  end.

(** [func downloadLogHandler(w http.ResponseWriter, r *http.Request)] of
    the variant. *)
Definition downloadLogFileHandler (r : Request) (t : TaskLogs) : Response :=
  let taskID := queryGet r "task_id" in
  if taskID =? "" then HttpError "Task ID not specified" StatusBadRequest
  else
    match readFile (taskLogFilePath taskID) (files t) with
    | None => HttpError "Error reading log file" StatusInternalServerError
    | Some logContents => Attachment (taskID ++ ".log") logContents
    end.

(** ** The requests and job runs of a running process *)

Section Operations.

Variable Schedule : Type.
Variable ParseStandard : string -> Schedule + string.
Variable integerOfText : string -> option Z.

(** What can happen to a running process: a dispatched job finishes, or
    one of the handlers serves a request. *)
Inductive Action :=
| RunJob (cmd : string) (r : RunResult) (endTime : Time) (u : UUID)
| SubmitJob (now : Time) (r : Request)
| DeleteJob (r : Request)
| DownloadLog (r : Request)
| ShowStatus (now : Time) (r : Request)
| ShowDeletePage (r : Request).

Definition stateOf {A : Type} (o : Outcome (A * Process Schedule))
  : Outcome (Process Schedule) :=
  match o with
  | Returned (_, p) => Returned p
  | Panicked => Panicked
  end.

Definition withWorld {A : Type} (p : Process Schedule) (o : Outcome (A * World))
  : Outcome (Process Schedule) :=
  match o with
  | Returned (_, w) => Returned (mkProcess w (clocks p))
  | Panicked => Panicked
  end.

Definition perform (a : Action) (p : Process Schedule)
  : Outcome (Process Schedule) :=
  match a with
  | RunJob cmd r endTime u =>
      Returned (mkProcess (job cmd r endTime u (world p)) (clocks p))
  | SubmitJob now r => stateOf (submitJobHandler ParseStandard now r p)
  | DeleteJob r => stateOf (deleteJobHandler integerOfText r p)
  | DownloadLog r => withWorld p (downloadLogHandler r (world p))
  | ShowStatus now r => withWorld p (distinctCommandsHandler now r (world p))
  | ShowDeletePage r => withWorld p (deleteJobPageHandler r (world p))
  end.

Fixpoint performAll (actions : list Action) (p : Process Schedule)
  : Outcome (Process Schedule) :=
  match actions with
  | [] => Returned p
  | a :: rest =>
      match perform a p with
      | Returned p' => performAll rest p'
      | Panicked => Panicked
      end
  end.

End Operations.

Arguments stateOf {Schedule A} _.
Arguments withWorld {Schedule A} _ _.
Arguments perform {Schedule} _ _ _ _.
Arguments performAll {Schedule} _ _ _ _.

(** ** The work of the goroutines *)

(** The instructions the goroutines have left. *)
Definition workLeft (c : Config) : nat :=
  list_sum (map (fun g => List.length (code g)) (pool c)).

(** ** Vocabulary of the statements *)

(** The rows of [tasks], empty when there is no database handle. *)
Definition tasksOf (w : World) : list TaskRow :=
  match db w with
  | Some d => tasks d
  | None => []
  end.

(** The row that stores a [JobStatus] under a given rowid. *)
Definition rowOf (rowid : Z) (js : JobStatus) : TaskRow :=
  mkTaskRow rowid (UID js) (Command js) (Timestamp js) (Status js) (Output js).

Definition uidFresh (uid : string) (d : Database) : Prop :=
  forall row, In row (tasks d) -> task_uid row <> uid.

(** The text served by [downloadLogHandler] for a record. *)
Definition logContentOf (js : JobStatus) : string :=
  "Task ID: " ++ UID js ++ nl ++
  "Command: " ++ Command js ++ nl ++
  "Timestamp: " ++ Timestamp js ++ nl ++
  "Status: " ++ Status js ++ nl ++ nl ++
  "Output:" ++ nl ++ Output js ++ nl.

(** Recording further records after the first one. *)
Definition recordAll (later : list JobStatus) (w : World) : World :=
  fold_left (fun acc js => logJobStatus js (logJobStatusToDB js acc)) later w.

Definition notFound : Response :=
  HttpError "No log entries found for the specified task ID" StatusNotFound.

(** The entries that the active rows of [jobs] stand for: one per row
    with [job_status = 1] whose schedule parses. *)
Definition activeEntries {Schedule : Type}
    (parse : string -> Schedule + string) (rows : list JobRow)
  : list (Entry Schedule) :=
  flat_map (fun j =>
              if job_status j then
                match parse (job_schedule j) with
                | inl s => [mkEntry s (job_command j)]
                | inr _ => []
                end
              else [])
           rows.

(** A submission did not register the job. *)
Definition rejected (resp : Response) : Prop :=
  resp = HttpError "Invalid request method" StatusMethodNotAllowed \/
  exists cronExpr cmd jobName jobDescription errorMessage,
    resp = FormWithError cronExpr cmd jobName jobDescription errorMessage.

(** The cron expression and the command of a job-file line. *)
Definition cronExprOf (line : string) : string :=
  Join (firstn 5 (Fields line)) " ".

Definition commandOf (line : string) : string :=
  Join (skipn 5 (Fields line)) " ".



(** The lines of a file: the texts between its line feeds, and the text
    after the last line feed when there is one. *)
Fixpoint fileLines (content : string) : list string :=
  match content with
  | EmptyString => []
  | String c rest =>
      if (c =? "010")%char then "" :: fileLines rest
      else match fileLines rest with
           | line :: more => String c line :: more
           | [] => [String c ""]
           end
  end.

(** The lines that are left when [line] has been read of the first. *)
Definition linesAfter (line : string) (lines : list string) : list string :=
  match lines with
  | next :: more => (line ++ next) :: more
  | [] => if line =? "" then [] else [line]
  end.

(** A line that fits into the buffer of the scanner together with its
    line feed. *)
Definition scannable (line : string) : bool :=
  (N.of_nat (String.length line) <? MaxScanTokenSize)%N.

(** The lines before the first one that does not fit. *)
Fixpoint scannablePrefix (lines : list string) : list string :=
  match lines with
  | [] => []
  | line :: rest =>
      if scannable line then line :: scannablePrefix rest else []
  end.


(** Where a goroutine stands: outside the lock with calls still to
    make, or inside a call, holding the lock, with part of the call's
    writes done. *)
Inductive Standing :=
| Outside (todo : list Call)
| Inside (current : Call) (written pending : list (Sink * string))
         (todo : list Call).

(** The instructions a goroutine in a given standing has left. *)
Definition codeAt (h : Handles) (s : Standing) : list Instr :=
  match s with
  | Outside todo => callsCode h todo
  | Inside _ _ pending todo =>
      (map writeInstr pending ++ Unlock :: callsCode h todo)%list
  end.

Definition insideCount (s : Standing) : nat :=
  match s with
  | Outside _ => 0
  | Inside _ _ _ _ => 1
  end.

Definition holders (gs : list (nat * Standing)) : nat :=
  list_sum (map (fun g => insideCount (snd g)) gs).

(** A goroutine [g] stands at [(n, s)]. *)
Definition standsAt (h : Handles) (ns : nat * Standing) (g : Goroutine) : Prop :=
  gid g = fst ns /\ code g = codeAt h (snd ns) /\
  match snd ns with
  | Outside _ => True
  | Inside call written pending _ =>
      (written ++ pending)%list = writesOf h call
  end.

Definition eventsOf (n : nat) (writes : list (Sink * string)) : list Event :=
  map (fun kp => mkEvent n (fst kp) (snd kp)) writes.

(** The events of a whole call. *)
Definition callEvents (h : Handles) (b : nat * Call) : list Event :=
  eventsOf (fst b) (writesOf h (snd b)).

(** The events of the calls that are under way. *)
Definition underWay (gs : list (nat * Standing)) : list Event :=
  flat_map (fun g => match snd g with
                     | Outside _ => []
                     | Inside _ written _ _ => eventsOf (fst g) written
                     end) gs.

(** The calls not yet completed. *)
Definition outstanding (gs : list (nat * Standing)) : list (nat * Call) :=
  flat_map (fun g => match snd g with
                     | Outside todo => map (pair (fst g)) todo
                     | Inside call _ _ todo =>
                         (fst g, call) :: map (pair (fst g)) todo
                     end) gs.

Definition allCalls (programs : list (nat * list Call)) : list (nat * Call) :=
  flat_map (fun p => map (pair (fst p)) (snd p)) programs.

(** The invariant of the recorder goroutines: the trace is made of the
    events of completed calls, call after call, followed by the events
    of the calls under way, and the number of goroutines inside a call
    is one when [mu] is locked and zero when it is free. *)
Definition Serialized (h : Handles) (programs : list (nat * list Call))
    (c : Config) : Prop :=
  exists (completed : list (nat * Call)) (gs : list (nat * Standing)),
    Forall2 (standsAt h) gs (pool c) /\
    trace c = (flat_map (callEvents h) completed ++ underWay gs)%list /\
    holders gs = (if mu c then 1 else 0) /\
    Permutation (completed ++ outstanding gs) (allCalls programs).

(** The records whose log entry, or whose row, a list of calls holds. *)
Definition loggedBy (calls : list (nat * Call)) : list JobStatus :=
  flat_map (fun b => match snd b with
                     | ToLog js => [js]
                     | ToDB _ => []
                     end) calls.

Definition insertedBy (calls : list (nat * Call)) : list JobStatus :=
  flat_map (fun b => match snd b with
                     | ToDB js => [js]
                     | ToLog _ => []
                     end) calls.

(** [a] is the beginning of [b]. *)
Definition beginsText (a b : string) : Prop := exists rest, b = a ++ rest.

Definition beginsList {A : Type} (a b : list A) : Prop :=
  exists rest, b = (a ++ rest)%list.

(** What a record adds to the log file and to the table once its call
    is complete (nothing through a nil handle). *)
Definition entryText (h : Handles) (js : JobStatus) : string :=
  if logOpen h then logLineOf js else "".

Definition rowCells (h : Handles) (js : JobStatus) : list string :=
  if dbOpen h then columnsOf js else [].

(** The number of rows of [tasks] with a given command and status. *)
Definition countRuns (cmd st : string) (rows : list TaskRow) : Z :=
  Z.of_nat (List.length
              (filter (fun r => (command r =? cmd) && (status r =? st)) rows)).

(** [a] does not come before [b] in the byte-wise order of texts. *)
Definition textGe (a b : string) : Prop := String.leb b a = true.

(** ** Vocabulary of the further statements *)

(** The constraints of the two tables: unique task uids and job names,
    keys in strictly ascending order and not above the counter of the
    table. *)
Definition Consistent (d : Database) : Prop :=
  NoDup (map task_uid (tasks d)) /\
  StronglySorted Z.lt (map id (tasks d)) /\
  Forall (fun r => (id r <= tasks_seq d)%Z) (tasks d) /\
  NoDup (map job_name (jobs d)) /\
  StronglySorted Z.lt (map job_id (jobs d)) /\
  Forall (fun j => (job_id j <= jobs_seq d)%Z) (jobs d).

(** [d'] extends [d]: the rows of [tasks] are kept and new ones follow;
    the rows of [jobs] are kept up to their status, new ones follow, and
    a row that was disabled is kept as it is. *)
Definition Extends (d d' : Database) : Prop :=
  (exists added, tasks d' = (tasks d ++ added)%list) /\
  (exists added, map disabled (jobs d') = (map disabled (jobs d) ++ added)%list) /\
  (forall j, In j (jobs d) -> job_status j = false -> In j (jobs d')).

(** Every armed entry was parsed from the schedule and command of a row
    of [jobs]. *)
Definition FromRows {Schedule : Type} (parse : string -> Schedule + string)
    (p : Process Schedule) : Prop :=
  forall e, In e (armed p) ->
    exists d j, db (world p) = Some d /\ In j (jobs d) /\
                parse (job_schedule j) = inl (entrySchedule e) /\
                job_command j = entryCmd e.

(** The sum of the two counters over the rows of the status page. *)
Definition totalRuns (views : list View.t) : Z :=
  fold_right (fun v acc => (View.SuccessCount v + View.FailureCount v + acc)%Z)
             0%Z views.

(** The refresh interval shown on the status page. *)
Definition intervalOf (r : Request) : string :=
  if queryGet r "interval" =? "" then "5" else queryGet r "interval".

(** The statuses that [job] writes. *)
Definition jobStatusText (st : string) : Prop :=
  st = "Success" \/ st = "Failure".

(** The number of records of one command. *)
Definition groupTotal (rows : list TaskRow) (c : string) : Z :=
  Z.of_nat (List.length (groupOf c rows)).

(** The first [k] bytes of [s] are continuation bytes. *)
Fixpoint contPrefix (k : nat) (s : string) : Prop :=
  match k with
  | O => True
  | S k' =>
      match s with
      | EmptyString => False
      | String c rest => continuation (byte c) = true /\ contPrefix k' rest
      end
  end.

(** [s] is empty or begins with a byte that continues no encoding. *)
Definition freshStart (s : string) : Prop :=
  match s with
  | EmptyString => True
  | String c _ => continuation (byte c) = false
  end.

(** The bytes that the loop of [strings.Fields] adds to the open span
    before the next white space (or the end of the string). *)
Fixpoint spanOf (s : string) (ahead : nat) : string :=
  match s with
  | EmptyString => ""
  | String c rest =>
      match ahead with
      | S ahead' => String c (spanOf rest ahead')
      | O =>
          let '(r, size) := DecodeRuneInString s in
          if IsSpace r then "" else String c (spanOf rest (size - 1))
      end
  end.

(** No white space can be read at any byte of [s]. *)
Fixpoint spaceFree (s : string) : bool :=
  match s with
  | EmptyString => true
  | String _ rest =>
      negb (IsSpace (fst (DecodeRuneInString s))) && spaceFree rest
  end.

(** A field as [strings.Fields] returns it: not empty, no white space. *)
Definition cleanField (s : string) : Prop := s <> "" /\ spaceFree s = true.

(** A job-file line with its fields separated by single spaces. *)
Definition singleSpaced (line : string) : string :=
  cronExprOf line ++ " " ++ commandOf line.

(** The line that [scheduleJobsFromFile] writes to the log file for a
    job-file line with at least six fields. *)
Definition schedulerLineOf {Schedule : Type}
    (parse : string -> Schedule + string) (line : string) : string :=
  match parse (cronExprOf line) with
  | inl _ => "Scheduled job: " ++ commandOf line ++
             " with cron expression: " ++ cronExprOf line ++ nl
  | inr err => "Error scheduling job: " ++ err ++ nl
  end.

Definition hasSixFields (line : string) : bool :=
  negb (List.length (Fields line) <? 6)%nat.

(** What [scheduleJobsFromFile] prints for a line. *)
Definition reportOf {Schedule : Type}
    (parse : string -> Schedule + string) (line : string) : string :=
  if hasSixFields line then schedulerLineOf parse line
  else "Skipping invalid line: " ++ line ++ nl.

(** What it prints after the loop. *)
Definition readReport (content : string) (readErr : option string) : string :=
  if forallb scannable (fileLines content) then
    match readErr with
    | Some err => "Error reading file: " ++ err ++ nl
    | None => ""
    end
  else "Error reading file: " ++ ErrTooLong ++ nl.

(** Recording further records in the variant with one file per task. *)
Definition logAllWithFile (later : list JobStatus) (t : TaskLogs) : TaskLogs :=
  fold_left (fun acc js => logJobStatusWithFile js acc) later t.

(** The terminal line of [scheduleJobsFromTable] for an active row. *)
Definition tableLineOf {Schedule : Type}
    (parse : string -> Schedule + string) (j : JobRow) : string :=
  match parse (job_schedule j) with
  | inl _ => "Scheduled job: " ++ job_command j ++
             " with cron expression: " ++ job_schedule j ++ nl
  | inr err => "Error scheduling job: " ++ err ++ nl
  end.

(** ** Sample data *)

Definition emptyDatabase : Database := mkDatabase [] 0 [] 0.

(** A process state right after [main] opened both sinks. *)
Definition freshWorld : World := mkWorld (Some "") (Some emptyDatabase) "".

(** A state in which neither global handle was initialised. *)
Definition nilWorld : World := mkWorld None None "".

Definition okRun : RunResult := mkRunResult (Exited 0) "ok".
Definition failedRun : RunResult := mkRunResult (Exited 1) "boom".

Definition lastOfJanuary : Time := mkTime 2024 1 31 10 0 0.
Definition firstOfFebruary : Time := mkTime 2024 2 1 10 0 0.

(** The record of a failed run of [exit 1]. *)
Definition failedStatus : JobStatus :=
  newJobStatus "exit 1" failedRun lastOfJanuary 7%N.

(** A download request for a given task uid. *)
Definition downloadRequest (uid : string) : Request :=
  mkRequest "GET" [("task_uid", uid)] [] false.

(** A registered job and the state of a process that starts with it. *)
Definition pingRow : JobRow :=
  mkJobRow 1 "ping" "* * * * *" "echo ok" "says ok" "31-01-2024 09:00:00"
           true None.

Definition pingWorld : World :=
  mkWorld (Some "") (Some (mkDatabase [] 0 [pingRow] 1)) "".

Definition submitRequest (name cronExpr cmd description : string) : Request :=
  mkRequest "POST" []
            [("job_name", name); ("cron_expr", cronExpr); ("command", cmd);
             ("job_description", description)] false.

Definition deleteRequest (jobID : string) : Request :=
  mkRequest "POST" [] [("job_id", jobID)] false.

(** The clock that [main] starts for [pingWorld], the process after the
    start on 31 January, and the process after job 1 was deleted. *)
Definition pingClock : Cron FieldSchedule :=
  mkCron [mkEntry (mkFieldSchedule Any Any Any Any Any) "echo ok"].

Definition pingProcess : Process FieldSchedule :=
  mkProcess
    (logSchedulerStart lastOfJanuary
       (print ("Scheduled job: echo ok with cron expression: * * * * *" ++ nl)
              pingWorld))
    [pingClock].

Definition pingProcessDisabled : Process FieldSchedule :=
  mkProcess
    (setDb (mkDatabase [] 0 [disabled pingRow] 1) (world pingProcess))
    [pingClock].

(** A submission whose minute field is out of range, and the row it
    leaves in table [jobs]. *)
Definition badMinuteRequest : Request :=
  submitRequest "nightly" "61 * * * *" "echo hi" "bad minute".

Definition badMinuteRow : JobRow :=
  mkJobRow 1 "nightly" "61 * * * *" "echo hi" "bad minute"
           "31-01-2024 10:00:00" true None.

(** Two successful runs of the same command, on 31 January and then on
    1 February. *)
Definition twoRunsWorld : World :=
  job "echo ok" okRun firstOfFebruary 2
      (job "echo ok" okRun lastOfJanuary 1 freshWorld).

(** A run of [echo a] on 31 January and a run of [echo b] on 1 February. *)
Definition twoCommandsWorld : World :=
  job "echo b" okRun firstOfFebruary 2
      (job "echo a" okRun lastOfJanuary 1 freshWorld).

(** A job file with a short line, a line with an out-of-range hour, and
    two good lines around them (the last one ends in CR LF). *)
Definition sampleContent : string :=
  "* * * * * echo first" ++ nl ++
  "# nightly jobs" ++ nl ++
  "0 24 * * * echo never" ++ nl ++
  "30 2 * * * echo   last one" ++ String "013" nl.

Definition sampleJobFile : JobFile := Opened sampleContent None.




(** A job-file line with a no-break space (U+00A0) and an em space
    (U+2003) between its fields. *)
Definition noBreakSpace : string := String "194" (String "160" "").

Definition emSpace : string := String "226" (String "128" (String "131" "")).

Definition unicodeSpacedLine : string :=
  "30" ++ noBreakSpace ++ "2 * * *" ++ emSpace ++ "echo" ++ noBreakSpace ++
  noBreakSpace ++ "last one".

(** Two records written concurrently, and the state after the two
    goroutines took turns until both were done. *)
Definition okStatus : JobStatus :=
  newJobStatus "echo ok" okRun lastOfJanuary 8%N.

Definition bothOpen : Handles := mkHandles true true.

Definition interleavedRun : Config :=
  run (roundRobin 400 2) (initial bothOpen [failedStatus; okStatus]).

(** ** Further sample data *)

(** A busy quarter of an hour: a job is submitted, two jobs finish, the
    first job is deleted, a submission repeats a name, and the pages are
    looked at. *)
Definition sampleActions : list Action :=
  [SubmitJob lastOfJanuary
     (submitRequest "nightly" "30 2 * * *" "echo night" "runs at night");
   RunJob "echo ok" okRun lastOfJanuary 1;
   ShowStatus lastOfJanuary (mkRequest "GET" [] [] false);
   DeleteJob (deleteRequest "1");
   RunJob "echo ok" failedRun firstOfFebruary 2;
   SubmitJob firstOfFebruary
     (submitRequest "nightly" "* * * * *" "echo again" "same name");
   ShowDeletePage (mkRequest "GET" [] [] false);
   DownloadLog (downloadRequest (uuidString 2))].

Definition sampleOutcome : Outcome (Process FieldSchedule) :=
  performAll specParseStandard decimalInteger sampleActions pingProcess.

(** The process, and its database, that an outcome holds. *)
Definition processOf (o : Outcome (Process FieldSchedule))
  : Process FieldSchedule :=
  match o with
  | Returned p => p
  | Panicked => mkProcess nilWorld []
  end.

Definition databaseOf (o : Outcome (Process FieldSchedule)) : Database :=
  match db (world (processOf o)) with
  | Some d => d
  | None => emptyDatabase
  end.

Definition pingDatabase : Database := mkDatabase [] 0 [pingRow] 1.

(** A submission of a new job that runs at half past two, the process
    after it, and the minute at which both jobs are due. *)
Definition nightlyRequest : Request :=
  submitRequest "nightly" "30 2 * * *" "echo night" "runs at night".

Definition nightlyProcess : Process FieldSchedule :=
  processOf (stateOf (submitJobHandler specParseStandard lastOfJanuary
                                       nightlyRequest pingProcess)).

Definition halfPastTwo : Time := mkTime 2024 2 1 2 30 0.

(** The variant with task files, right after its [main] opened the log. *)
Definition freshTaskLogs : TaskLogs := mkTaskLogs freshWorld [].

Definition taskLogRequest (uid : string) : Request :=
  mkRequest "GET" [("task_id", uid)] [] false.

(** A table with an unparsable active row between two good ones, the
    middle one left behind by a refused schedule. *)
Definition mixedWorld : World :=
  mkWorld (Some "")
          (Some (mkDatabase [] 0
                   [pingRow; badMinuteRow;
                    mkJobRow 3 "nightly" "30 2 * * *" "echo night"
                             "runs at night" "31-01-2024 10:00:00" true None]
                   3))
          "".

(** * Properties *)

(** ** Status recorder and executor *)

Lemma runError_none_iff (r : RunResult) :
  runError r = None <-> termination r = Exited 0.
Proof.
  unfold runError. destruct (termination r) as [[|c]|signal|reason]; split;
    intro H; try reflexivity; try discriminate H.
Qed.

Lemma newJobStatus_success_iff cmd r endTime u :
  Status (newJobStatus cmd r endTime u) = "Success" <->
  termination r = Exited 0.
Proof.
  rewrite <- runError_none_iff. unfold newJobStatus; simpl.
  destruct (runError r); split; intro H; try reflexivity; discriminate H.
Qed.

Lemma newJobStatus_failure_iff cmd r endTime u :
  Status (newJobStatus cmd r endTime u) = "Failure" <->
  termination r <> Exited 0.
Proof.
  rewrite <- runError_none_iff. unfold newJobStatus; simpl.
  destruct (runError r); split; intro H; try reflexivity;
    try discriminate; try congruence.
Qed.

Lemma existsb_uid_false uid d :
  uidFresh uid d -> existsb (fun r => task_uid r =? uid) (tasks d) = false.
Proof.
  unfold uidFresh. induction (tasks d) as [|row rows IH]; intro H; simpl.
  - reflexivity.
  - destruct (String.eqb_spec (task_uid row) uid) as [E|_].
    + exfalso. apply (H row); [left; reflexivity | exact E].
    + simpl. apply IH. intros r Hr. apply H. right. exact Hr.
Qed.

Lemma existsb_uid_true uid d :
  existsb (fun r => task_uid r =? uid) (tasks d) = true ->
  exists row, In row (tasks d) /\ task_uid row = uid.
Proof.
  intro H. apply existsb_exists in H. destruct H as [row [Hin Heq]].
  exists row. split; [exact Hin | apply String.eqb_eq; exact Heq].
Qed.

Lemma logJobStatus_db js w : db (logJobStatus js w) = db w.
Proof. unfold logJobStatus. destruct (logFile w); reflexivity. Qed.

Lemma logJobStatusToDB_logFile js w :
  logFile (logJobStatusToDB js w) = logFile w.
Proof.
  unfold logJobStatusToDB. destruct (db w) as [d|]; [|reflexivity].
  destruct (insertTask _ _ _ _ _ d) as [[d' n]|err]; reflexivity.
Qed.

(** What [logJobStatusToDB] does to the table: nothing, or one new row
    that carries the record. *)
Lemma logJobStatusToDB_tasks js w :
  tasksOf (logJobStatusToDB js w) = tasksOf w \/
  exists d, db w = Some d /\ uidFresh (UID js) d /\
    tasksOf (logJobStatusToDB js w) =
    (tasks d ++ [rowOf (tasks_seq d + 1) js])%list.
Proof.
  unfold logJobStatusToDB, tasksOf. destruct (db w) as [d|] eqn:Hdb.
  - unfold insertTask.
    destruct (existsb _ (tasks d)) eqn:Hex; simpl.
    + left. rewrite Hdb. reflexivity.
    + right. exists d. split; [reflexivity|]. split; [|reflexivity].
      intros row Hin Heq.
      assert (Ht : existsb (fun r => task_uid r =? UID js) (tasks d) = true).
      { apply existsb_exists. exists row. split; [exact Hin|].
        apply String.eqb_eq. exact Heq. }
      rewrite Ht in Hex. discriminate Hex.
  - left. rewrite Hdb. reflexivity.
Qed.

Lemma logJobStatusToDB_fresh js w d :
  db w = Some d -> uidFresh (UID js) d ->
  tasksOf (logJobStatusToDB js w) =
  (tasks d ++ [rowOf (tasks_seq d + 1) js])%list.
Proof.
  intros Hdb Hfresh. unfold logJobStatusToDB, tasksOf, insertTask.
  rewrite Hdb, (existsb_uid_false _ _ Hfresh). reflexivity.
Qed.

(** C10: with a nil log-file handle [logJobStatus] returns at once, and
    with a nil database handle so does [logJobStatusToDB]: the process
    state is left exactly as it was, so nothing is written to the sink,
    and nothing is printed about the lost record. *)
Theorem nil_sink_drops_record_silently (js : JobStatus) (w : World) :
  (logFile w = None -> logJobStatus js w = w) /\
  (db w = None -> logJobStatusToDB js w = w).
Proof.
  split; intro H.
  - unfold logJobStatus. rewrite H. reflexivity.
  - unfold logJobStatusToDB. rewrite H. reflexivity.
Qed.

Lemma nil_sink_drops_record_silently_witness :
  logJobStatus failedStatus nilWorld = nilWorld /\
  logJobStatusToDB failedStatus nilWorld = nilWorld.
Proof.
  destruct (nil_sink_drops_record_silently failedStatus nilWorld)
    as [Hlog Hdb].
  split; [apply Hlog | apply Hdb]; reflexivity.
Defined.

(** C1: [job] builds one [JobStatus] per execution.  Its status is
    "Success" exactly when the subprocess exited with status 0 and
    "Failure" in every other case, a failed spawn included.  [job]
    always returns a process state (no path raises): the table [tasks]
    gains at most one row, which carries that record, and with both
    sinks open and a fresh uid it gains exactly that one row while the
    log file gains exactly the text of that record. *)
Theorem job_produces_one_record
    (cmd : string) (r : RunResult) (endTime : Time) (u : UUID) (w : World) :
  let js := newJobStatus cmd r endTime u in
  (Status js = "Success" <-> termination r = Exited 0) /\
  (Status js = "Failure" <-> termination r <> Exited 0) /\
  (exists added,
     tasksOf (job cmd r endTime u w) = (tasksOf w ++ added)%list /\
     (added = [] \/ exists rowid, added = [rowOf rowid js])) /\
  (forall d content,
     db w = Some d -> logFile w = Some content -> uidFresh (UID js) d ->
     tasksOf (job cmd r endTime u w) =
       (tasks d ++ [rowOf (tasks_seq d + 1) js])%list /\
     logFile (job cmd r endTime u w) = Some (content ++ logLineOf js)).
Proof.
  intro js. split; [apply newJobStatus_success_iff|].
  split; [apply newJobStatus_failure_iff|]. split.
  - unfold job. fold js.
    assert (Hsame : tasksOf (logJobStatus js (logJobStatusToDB js w)) =
                    tasksOf (logJobStatusToDB js w)).
    { unfold tasksOf. rewrite logJobStatus_db. reflexivity. }
    rewrite Hsame.
    destruct (logJobStatusToDB_tasks js w) as [Heq | [d [Hdb [_ Heq]]]].
    + exists []. rewrite app_nil_r. split; [exact Heq | left; reflexivity].
    + exists [rowOf (tasks_seq d + 1) js]. split.
      * rewrite Heq. unfold tasksOf. rewrite Hdb. reflexivity.
      * right. exists (tasks_seq d + 1)%Z. reflexivity.
  - intros d content Hdb Hlog Hfresh. unfold job. fold js. split.
    + unfold tasksOf at 1. rewrite logJobStatus_db.
      apply (logJobStatusToDB_fresh js w d Hdb Hfresh).
    + unfold logJobStatus. rewrite logJobStatusToDB_logFile, Hlog.
      reflexivity.
Qed.

Lemma job_produces_one_record_witness :
  tasksOf (job "exit 1" failedRun lastOfJanuary 7 freshWorld) =
    [rowOf 1 failedStatus] /\
  Status failedStatus = "Failure".
Proof.
  destruct (job_produces_one_record "exit 1" failedRun lastOfJanuary 7
                                    freshWorld)
    as [_ [Hfailure [_ Hsinks]]].
  destruct (Hsinks emptyDatabase "" eq_refl eq_refl) as [Htasks _].
  - intros row [].
  - split; [exact Htasks | apply Hfailure; discriminate].
Defined.

(** ** Fetching a record by uid *)

Lemma uuidString_not_empty (u : UUID) : uuidString u <> "".
Proof.
  unfold uuidString, hexBytes.
  cbn [seq map String.concat]. unfold hexByte. cbn [append]. discriminate.
Qed.

Lemma find_app_some {A} (f : A -> bool) (l l' : list A) (x : A) :
  find f l = Some x -> find f (l ++ l')%list = Some x.
Proof.
  induction l as [|a l IH]; simpl; intro H; [discriminate H|].
  destruct (f a); [exact H | apply IH; exact H].
Qed.

Lemma find_app_none {A} (f : A -> bool) (l l' : list A) :
  find f l = None -> find f (l ++ l')%list = find f l'.
Proof.
  induction l as [|a l IH]; simpl; intro H; [reflexivity|].
  destruct (f a); [discriminate H | apply IH; exact H].
Qed.

Lemma find_none_fresh uid d :
  uidFresh uid d -> selectTaskByUid uid d = None.
Proof.
  unfold uidFresh, selectTaskByUid. induction (tasks d) as [|row rows IH];
    intro H; simpl; [reflexivity|].
  destruct (String.eqb_spec (task_uid row) uid) as [E|_].
  - exfalso. apply (H row); [left; reflexivity | exact E].
  - apply IH. intros r Hr. apply H. right. exact Hr.
Qed.

Lemma find_some_present uid d :
  (exists row, In row (tasks d) /\ task_uid row = uid) ->
  exists row, selectTaskByUid uid d = Some row /\ In row (tasks d) /\
              task_uid row = uid.
Proof.
  unfold selectTaskByUid. intros [row [Hin Heq]].
  destruct (find (fun r => task_uid r =? uid) (tasks d)) as [found|] eqn:Hf.
  - exists found. split; [reflexivity|]. apply find_some in Hf.
    destruct Hf as [Hin' Heq']. split; [exact Hin'|].
    apply String.eqb_eq. exact Heq'.
  - exfalso. apply (find_none _ _ Hf) in Hin.
    apply String.eqb_neq in Hin. apply Hin. exact Heq.
Qed.

(** A row that [QueryRow] finds stays the one it finds after any further
    insert: rows are only appended. *)
Lemma logJobStatusToDB_keeps_row js w d uid row :
  db w = Some d -> selectTaskByUid uid d = Some row ->
  exists d', db (logJobStatusToDB js w) = Some d' /\
             selectTaskByUid uid d' = Some row.
Proof.
  intros Hdb Hsel. unfold logJobStatusToDB. rewrite Hdb.
  unfold insertTask. destruct (existsb _ (tasks d)); simpl.
  - exists d. split; [exact Hdb | exact Hsel].
  - eexists. split; [reflexivity|]. unfold selectTaskByUid; simpl.
    apply find_app_some. exact Hsel.
Qed.

Lemma recordAll_keeps_row later : forall w d uid row,
  db w = Some d -> selectTaskByUid uid d = Some row ->
  exists d', db (recordAll later w) = Some d' /\
             selectTaskByUid uid d' = Some row.
Proof.
  induction later as [|js later IH]; intros w d uid row Hdb Hsel.
  - exists d. split; [exact Hdb | exact Hsel].
  - simpl.
    destruct (logJobStatusToDB_keeps_row js w d uid row Hdb Hsel)
      as [d' [Hdb' Hsel']].
    apply (IH _ d'); [rewrite logJobStatus_db; exact Hdb' | exact Hsel'].
Qed.

(** C6: a record that [logJobStatusToDB] inserted (the INSERT succeeded)
    is served unchanged by [downloadLogHandler] for its uid: the answer
    is the attachment built from the recorded uid, command, timestamp,
    status and output, also after any number of later recordings. *)
Theorem fetch_after_record_round_trip
    (js : JobStatus) (u : UUID) (w : World) (d d' : Database) (rowid : Z)
    (later : list JobStatus) (r : Request) :
  UID js = uuidString u ->
  db w = Some d ->
  insertTask (UID js) (Command js) (Timestamp js) (Status js) (Output js) d
    = inl (d', rowid) ->
  queryGet r "task_uid" = UID js ->
  let w' := recordAll later (logJobStatusToDB js w) in
  exists row,
    option_map (selectTaskByUid (UID js)) (db w') = Some (Some row) /\
    command row = Command js /\ status row = Status js /\
    output row = Output js /\
    downloadLogHandler r w' =
      Returned (Attachment (UID js ++ ".log") (logContentOf js), w').
Proof.
  intros Huid Hdb Hins Hreq w'.
  assert (Hnow : db (logJobStatusToDB js w) = Some d' /\
                 selectTaskByUid (UID js) d' = Some (rowOf rowid js)).
  { unfold logJobStatusToDB. rewrite Hdb, Hins. split; [reflexivity|].
    unfold insertTask in Hins.
    destruct (existsb _ (tasks d)) eqn:Hex; [discriminate Hins|].
    injection Hins as Hd' Hrow. subst d' rowid.
    unfold selectTaskByUid; simpl. rewrite find_app_none.
    - simpl. rewrite String.eqb_refl. reflexivity.
    - destruct (find _ (tasks d)) as [x|] eqn:Hf; [|reflexivity].
      apply find_some in Hf. destruct Hf as [Hin Heq].
      assert (Ht : existsb (fun r0 => task_uid r0 =? UID js) (tasks d) = true)
        by (apply existsb_exists; exists x; split; assumption).
      rewrite Ht in Hex. discriminate Hex. }
  destruct Hnow as [Hdb' Hsel'].
  destruct (recordAll_keeps_row later _ d' (UID js) _ Hdb' Hsel')
    as [d'' [Hdb'' Hsel'']].
  fold w' in Hdb''. exists (rowOf rowid js).
  split; [rewrite Hdb''; simpl; rewrite Hsel''; reflexivity|].
  split; [reflexivity|]. split; [reflexivity|]. split; [reflexivity|].
  unfold downloadLogHandler. rewrite Hreq.
  assert (Hne : (UID js =? "") = false).
  { apply String.eqb_neq. rewrite Huid. apply uuidString_not_empty. }
  rewrite Hne, Hdb'', Hsel''. reflexivity.
Qed.

Lemma fetch_after_record_round_trip_witness :
  downloadLogHandler (downloadRequest (UID failedStatus))
                     (logJobStatusToDB failedStatus freshWorld) =
  Returned (Attachment (UID failedStatus ++ ".log")
                       (logContentOf failedStatus),
            logJobStatusToDB failedStatus freshWorld).
Proof.
  destruct (fetch_after_record_round_trip
              failedStatus 7 freshWorld emptyDatabase
              (mkDatabase [rowOf 1 failedStatus] 1 [] 0) 1 []
              (downloadRequest (UID failedStatus))
              eq_refl eq_refl eq_refl eq_refl)
    as [row [_ [_ [_ [_ H]]]]].
  exact H.
Defined.

(** C7 (as amended): for a non-empty uid, [downloadLogHandler] answers
    404 "not found" when no row of [tasks] carries the uid and serves
    the attachment of a row with that uid when one does; the state is
    not changed. (The empty uid is refused with 400 before the table
    is read.) *)
Theorem fetch_not_found_iff_absent (r : Request) (w : World) (d : Database) :
  db w = Some d ->
  queryGet r "task_uid" <> "" ->
  (uidFresh (queryGet r "task_uid") d ->
   downloadLogHandler r w = Returned (notFound, w)) /\
  ((exists row, In row (tasks d) /\ task_uid row = queryGet r "task_uid") ->
   exists row,
     In row (tasks d) /\ task_uid row = queryGet r "task_uid" /\
     downloadLogHandler r w =
       Returned (Attachment (task_uid row ++ ".log")
                            (logContentOf
                               (mkJobStatus (task_uid row) (id row)
                                  (command row) (timestamp row) (status row)
                                  (output row))), w)).
Proof.
  intros Hdb Hne. apply String.eqb_neq in Hne. split.
  - intro Hfresh. unfold downloadLogHandler.
    rewrite Hne, Hdb, (find_none_fresh _ _ Hfresh). reflexivity.
  - intro Hex. destruct (find_some_present _ _ Hex) as [row [Hsel [Hin Heq]]].
    exists row. split; [exact Hin|]. split; [exact Heq|].
    unfold downloadLogHandler. rewrite Hne, Hdb, Hsel. reflexivity.
Qed.

Lemma fetch_not_found_iff_absent_witness :
  downloadLogHandler (downloadRequest "no-such-uid") freshWorld =
  Returned (notFound, freshWorld).
Proof.
  destruct (fetch_not_found_iff_absent (downloadRequest "no-such-uid")
              freshWorld emptyDatabase eq_refl) as [Habsent _].
  - discriminate.
  - apply Habsent. intros row [].
Defined.

(** C7, counterexample to the claim as stated: the empty uid is carried
    by no record of the (empty) table, yet the answer is 400 "Task ID
    not specified" and not the 404 of a missing record. *)
Lemma fetch_empty_uid_counterexample :
  uidFresh "" emptyDatabase /\
  downloadLogHandler (downloadRequest "") freshWorld =
    Returned (HttpError "Task ID not specified" StatusBadRequest, freshWorld) /\
  downloadLogHandler (downloadRequest "") freshWorld <>
    Returned (notFound, freshWorld).
Proof.
  split; [intros row []|]. split; [reflexivity|]. discriminate.
Qed.

(** ** Job registry *)

Section RegistryFacts.

Variable Schedule : Type.
Variable ParseStandard : string -> Schedule + string.
Variable Due : Schedule -> Time -> bool.
Variable integerOfText : string -> option Z.

Lemma jobNameExists_true name d :
  (exists j, In j (jobs d) /\ job_name j = name) ->
  jobNameExists name d = true.
Proof.
  intros [j [Hin Heq]]. unfold jobNameExists. apply existsb_exists.
  exists j. split; [exact Hin | apply String.eqb_eq; exact Heq].
Qed.

(** C2: a submission whose name is the name of a registered, not
    disabled job is rejected (405 for a request that is not a POST,
    otherwise the form with status 400), and the handler returns the
    process state it was given: table [jobs] has the same rows and
    nothing is armed.  For a POST with all four fields the error is
    "Job name already exists". *)
Theorem duplicate_name_rejected
    (now : Time) (r : Request) (p : Process Schedule) (d : Database) :
  db (world p) = Some d ->
  (exists j, In j (jobs d) /\ job_name j = FormValue r "job_name" /\
             job_status j = true) ->
  exists resp,
    submitJobHandler ParseStandard now r p = Returned (resp, p) /\
    rejected resp /\ statusCode resp <> StatusSeeOther /\
    (Method r = "POST" -> FormValue r "cron_expr" <> "" ->
     FormValue r "command" <> "" -> FormValue r "job_name" <> "" ->
     FormValue r "job_description" <> "" ->
     resp = FormWithError (FormValue r "cron_expr") (FormValue r "command")
              (FormValue r "job_name") (FormValue r "job_description")
              "Job name already exists. Please enter a different unique job name.").
Proof.
  intros Hdb [j [Hin [Hname _]]].
  assert (Hex : jobNameExists (FormValue r "job_name") d = true)
    by (apply jobNameExists_true; exists j; split; assumption).
  unfold submitJobHandler.
  destruct (String.eqb_spec (Method r) "POST") as [Hm|Hm]; simpl.
  - destruct (String.eqb_spec (FormValue r "cron_expr") "") as [H1|H1];
    [|destruct (String.eqb_spec (FormValue r "command") "") as [H2|H2];
      [|destruct (String.eqb_spec (FormValue r "job_name") "") as [H3|H3];
        [|destruct (String.eqb_spec (FormValue r "job_description") "")
            as [H4|H4]]]]; simpl.
    1-4: eexists; split; [reflexivity|]; split;
      [right; do 5 eexists; reflexivity|]; split; [discriminate|];
      intros; congruence.
    rewrite Hdb, Hex. eexists. split; [reflexivity|]. split.
    + right. do 5 eexists. reflexivity.
    + split; [discriminate|]. intros. reflexivity.
  - eexists. split; [reflexivity|]. split; [left; reflexivity|].
    split; [discriminate|]. intros. congruence.
Qed.

(** What the loop of [scheduleJobsFromTable] arms: the rows whose
    schedule parses, in order, after the entries already there. *)
Lemma scheduleRows_entries rows : forall (c : Cron Schedule) (w : World),
  entries (fst (scheduleRows ParseStandard rows c w)) =
  (entries c ++
   flat_map (fun row => match ParseStandard (fst row) with
                        | inl s => [mkEntry s (snd row)]
                        | inr _ => []
                        end) rows)%list.
Proof.
  induction rows as [|[cronExpr cmd] rows IH]; intros c w; simpl.
  - rewrite app_nil_r. reflexivity.
  - unfold AddFunc. destruct (ParseStandard cronExpr) as [s|err].
    + rewrite IH. simpl. rewrite <- app_assoc. reflexivity.
    + rewrite IH. reflexivity.
Qed.

Lemma scheduleRows_db rows : forall (c : Cron Schedule) (w : World),
  db (snd (scheduleRows ParseStandard rows c w)) = db w.
Proof.
  induction rows as [|[cronExpr cmd] rows IH]; intros c w; simpl.
  - reflexivity.
  - destruct (AddFunc ParseStandard cronExpr cmd c); rewrite IH;
      reflexivity.
Qed.

Lemma selectActiveJobs_entries (d : Database) :
  flat_map (fun row => match ParseStandard (fst row) with
                       | inl s => [mkEntry s (snd row)]
                       | inr _ => []
                       end) (selectActiveJobs d) =
  activeEntries ParseStandard (jobs d).
Proof.
  unfold selectActiveJobs, activeEntries.
  induction (jobs d) as [|j js IH]; simpl; [reflexivity|].
  destruct (job_status j); simpl; rewrite IH; reflexivity.
Qed.

(** A start of the scheduler arms exactly the active rows whose
    schedule parses. *)
Lemma startScheduler_armed (now : Time) (w : World) (d : Database) :
  db w = Some d ->
  exists p, startScheduler ParseStandard now w = Returned p /\
            armed p = activeEntries ParseStandard (jobs d) /\
            db (world p) = Some d.
Proof.
  intro Hdb. unfold startScheduler, scheduleJobsFromTable. rewrite Hdb.
  destruct (scheduleRows ParseStandard (selectActiveJobs d) cronNew w)
    as [c w'] eqn:Hrows.
  eexists. split; [reflexivity|]. split.
  - unfold armed; simpl. rewrite app_nil_r.
    change c with (fst (c, w')). rewrite <- Hrows.
    rewrite scheduleRows_entries, selectActiveJobs_entries. reflexivity.
  - simpl. unfold logSchedulerStart.
    assert (Hw' : db w' = Some d).
    { change w' with (snd (c, w')). rewrite <- Hrows.
      rewrite scheduleRows_db. exact Hdb. }
    simpl. destruct (logFile w'); simpl; exact Hw'.
Qed.

Lemma activeEntries_disableJob (jobID : string) (rows : list JobRow) :
  activeEntries ParseStandard
    (map (fun j => if jobIdIs integerOfText jobID j then disabled j else j)
         rows) =
  activeEntries ParseStandard
    (filter (fun j => negb (jobIdIs integerOfText jobID j)) rows).
Proof.
  unfold activeEntries. induction rows as [|j rows IH]; simpl;
    [reflexivity|].
  destruct (jobIdIs integerOfText jobID j); simpl; rewrite IH; reflexivity.
Qed.

(** C3 (as amended): [deleteJobHandler] marks the rows with the given
    id inactive and leaves the execution history and the running
    clocks as they are: the same commands are dispatched at every
    later minute.  The job is absent only from the set armed by the
    next start of the scheduler, which arms exactly the remaining
    active rows whose schedule parses. *)
Theorem disable_takes_effect_at_next_start
    (r : Request) (p : Process Schedule) (d : Database) :
  Method r = "POST" -> ParseFormError r = false ->
  FormValue r "job_id" <> "" -> db (world p) = Some d ->
  exists p',
    deleteJobHandler integerOfText r p =
      Returned (Redirect "/" StatusSeeOther, p') /\
    db (world p') = Some (disableJob integerOfText (FormValue r "job_id") d) /\
    (forall j, In j (jobs d) ->
       jobIdIs integerOfText (FormValue r "job_id") j = true ->
       In (disabled j)
          (jobs (disableJob integerOfText (FormValue r "job_id") d))) /\
    tasksOf (world p') = tasks d /\
    clocks p' = clocks p /\
    (forall t, tick Due t p' = tick Due t p) /\
    (forall now, exists p'',
       startScheduler ParseStandard now (world p') = Returned p'' /\
       armed p'' =
         activeEntries ParseStandard
           (filter (fun j => negb (jobIdIs integerOfText
                                     (FormValue r "job_id") j))
                   (jobs d))).
Proof.
  intros Hm Hparse Hid Hdb. unfold deleteJobHandler.
  rewrite Hm, Hparse. apply String.eqb_neq in Hid. rewrite Hid, Hdb. simpl.
  eexists. split; [reflexivity|]. simpl.
  split; [reflexivity|]. split.
  { intros j Hin Hmatch.
    apply in_map_iff. exists j. rewrite Hmatch. split; [reflexivity|exact Hin]. }
  split; [reflexivity|]. split; [reflexivity|]. split; [reflexivity|].
  intro now.
  destruct (startScheduler_armed now
              (setDb (disableJob integerOfText (FormValue r "job_id") d)
                     (world p))
              (disableJob integerOfText (FormValue r "job_id") d) eq_refl)
    as [p'' [Hstart [Harmed _]]].
  exists p''. split; [exact Hstart|]. rewrite Harmed. simpl.
  apply activeEntries_disableJob.
Qed.

(** What [submitJobHandler] does with a complete POST for a new name
    whose cron expression the parser refuses: the row is inserted as
    an active job, no clock is started, the error goes to the
    terminal and the caller is redirected to the index page. *)
Lemma submit_malformed_schedule
    (now : Time) (r : Request) (p : Process Schedule) (d : Database)
    (err : string) :
  Method r = "POST" -> FormValue r "cron_expr" <> "" ->
  FormValue r "command" <> "" -> FormValue r "job_name" <> "" ->
  FormValue r "job_description" <> "" ->
  db (world p) = Some d ->
  jobNameExists (FormValue r "job_name") d = false ->
  ParseStandard (FormValue r "cron_expr") = inr err ->
  exists d',
    insertJob (FormValue r "job_name") (FormValue r "cron_expr")
              (FormValue r "command") (FormValue r "job_description")
              (formatTime now) d = inl d' /\
    submitJobHandler ParseStandard now r p =
      Returned (Redirect "/" StatusSeeOther,
                {| world := print ("Error scheduling new job: " ++ err ++ nl)
                                  (setDb d' (world p));
                   clocks := clocks p |}).
Proof.
  intros Hm H1 H2 H3 H4 Hdb Hnew Hbad. unfold submitJobHandler.
  apply String.eqb_neq in H1, H2, H3, H4.
  rewrite Hm, H1, H2, H3, H4, Hdb, Hnew. simpl.
  unfold insertJob, AddFunc. rewrite Hnew, Hbad.
  eexists. split; reflexivity.
Qed.

End RegistryFacts.

(** ** Registry: concrete cases *)

Lemma duplicate_name_rejected_witness :
  submitJobHandler specParseStandard lastOfJanuary
    (submitRequest "ping" "* * * * *" "echo again" "second ping")
    (mkProcess pingWorld []) =
  Returned (FormWithError "* * * * *" "echo again" "ping" "second ping"
    "Job name already exists. Please enter a different unique job name.",
    mkProcess pingWorld []).
Proof.
  destruct (duplicate_name_rejected FieldSchedule specParseStandard
              lastOfJanuary
              (submitRequest "ping" "* * * * *" "echo again" "second ping")
              (mkProcess pingWorld []) (mkDatabase [] 0 [pingRow] 1) eq_refl)
    as [resp [Hrun [_ [_ Hmsg]]]].
  - exists pingRow. split; [left; reflexivity|]. split; reflexivity.
  - rewrite Hrun, Hmsg; [reflexivity | reflexivity | discriminate ..].
Defined.

(** C3, counterexample to the claim as stated: job 1 is started with the
    scheduler, then deleted.  Its row is inactive, but the running clock
    still holds its entry: without a restart the job is dispatched when
    its schedule is next due, and the armed set differs from the (empty)
    set of active jobs of the table. *)
Lemma disabled_job_still_dispatched_counterexample :
  startScheduler specParseStandard lastOfJanuary pingWorld =
    Returned pingProcess /\
  deleteJobHandler decimalInteger (deleteRequest "1") pingProcess =
    Returned (Redirect "/" StatusSeeOther, pingProcessDisabled) /\
  option_map jobs (db (world pingProcessDisabled)) =
    Some [disabled pingRow] /\
  tick specDue firstOfFebruary pingProcessDisabled = ["echo ok"] /\
  armed pingProcessDisabled <>
    activeEntries specParseStandard [disabled pingRow].
Proof.
  split; [reflexivity|]. split; [reflexivity|]. split; [reflexivity|].
  split; [reflexivity|]. discriminate.
Qed.

Lemma disable_takes_effect_at_next_start_witness :
  deleteJobHandler decimalInteger (deleteRequest "1") pingProcess =
    Returned (Redirect "/" StatusSeeOther, pingProcessDisabled) /\
  tick specDue firstOfFebruary pingProcessDisabled =
    tick specDue firstOfFebruary pingProcess.
Proof.
  destruct (disable_takes_effect_at_next_start FieldSchedule
              specParseStandard specDue decimalInteger
              (deleteRequest "1") pingProcess
              (mkDatabase [] 0 [pingRow] 1) eq_refl eq_refl)
    as [p' [Hrun [_ [_ [_ [_ [Htick _]]]]]]].
  - discriminate.
  - reflexivity.
  - assert (Hp : @Returned (Response * Process FieldSchedule)
                   (Redirect "/" StatusSeeOther, p') =
                 Returned (Redirect "/" StatusSeeOther, pingProcessDisabled))
      by (rewrite <- Hrun; reflexivity).
    injection Hp as Hp. subst p'. split; [exact Hrun | apply Htick].
Defined.

(** C4, the code at the failing input: a POST for the new job "nightly"
    with the out-of-range minute 61.  The handler answers with the
    redirect of a successful registration, the row is stored as an
    active job, no clock is started, and the parser's error is only
    printed on the terminal. *)
Theorem malformed_schedule_is_persisted :
  specParseStandard "61 * * * *" = inr "minute field out of range: 61" /\
  submitJobHandler specParseStandard lastOfJanuary badMinuteRequest
                   (mkProcess freshWorld []) =
  Returned (Redirect "/" StatusSeeOther,
            mkProcess
              (print ("Error scheduling new job: minute field out of range: 61"
                      ++ nl)
                     (setDb (mkDatabase [] 0 [badMinuteRow] 1) freshWorld))
              []).
Proof. split; reflexivity. Qed.

(** ** Status summary *)

(** *** The byte-wise order of texts *)

Lemma ascii_compare_trans (a b c : ascii) :
  Ascii.compare a b <> Gt -> Ascii.compare b c <> Gt ->
  Ascii.compare a c <> Gt.
Proof.
  unfold Ascii.compare. rewrite !N.compare_le_iff. intros H1 H2.
  apply (N.le_trans _ _ _ H1 H2).
Qed.

Lemma string_compare_refl (s : string) : String.compare s s = Eq.
Proof.
  induction s as [|a s IH]; simpl; [reflexivity|].
  unfold Ascii.compare. rewrite N.compare_refl. exact IH.
Qed.

Lemma string_compare_trans (s1 : string) : forall s2 s3,
  String.compare s1 s2 <> Gt -> String.compare s2 s3 <> Gt ->
  String.compare s1 s3 <> Gt.
Proof.
  induction s1 as [|a s1 IH]; intros [|b s2] [|c s3]; simpl;
    try congruence.
  destruct (Ascii.compare a b) eqn:Hab; try congruence;
    destruct (Ascii.compare b c) eqn:Hbc; try congruence; intros H12 H23.
  - apply Ascii.compare_eq_iff in Hab, Hbc. subst b c.
    unfold Ascii.compare. rewrite N.compare_refl. apply (IH s2); assumption.
  - apply Ascii.compare_eq_iff in Hab. subst b. rewrite Hbc. congruence.
  - apply Ascii.compare_eq_iff in Hbc. subst c. rewrite Hab. congruence.
  - assert (Hac : Ascii.compare a c = Lt).
    { unfold Ascii.compare in *. rewrite N.compare_lt_iff in *.
      apply (N.lt_trans _ _ _ Hab Hbc). }
    rewrite Hac. congruence.
Qed.

Lemma textGe_refl (a : string) : textGe a a.
Proof. unfold textGe, String.leb. rewrite string_compare_refl. reflexivity. Qed.

Lemma textGe_trans (a b c : string) : textGe a b -> textGe b c -> textGe a c.
Proof.
  unfold textGe, String.leb. intros Hab Hbc.
  assert (H : String.compare c a <> Gt).
  { apply (string_compare_trans c b a).
    - destruct (String.compare c b); congruence.
    - destruct (String.compare b a); congruence. }
  destruct (String.compare c a); congruence.
Qed.

Lemma ltb_false_textGe (a b : string) : String.ltb a b = false -> textGe a b.
Proof.
  unfold textGe, String.ltb, String.leb. rewrite (String.compare_antisym a b).
  destruct (String.compare b a); simpl; congruence.
Qed.

Lemma ltb_true_textGe (a b : string) : String.ltb a b = true -> textGe b a.
Proof.
  unfold textGe, String.ltb, String.leb.
  destruct (String.compare a b); congruence.
Qed.

(** *** The aggregate query *)

Lemma distinct_in (x : string) (l : list string) :
  In x (distinct l) <-> In x l.
Proof.
  induction l as [|y l IH]; simpl; [tauto|].
  rewrite filter_In, IH. split.
  - intros [H | [H _]]; [left | right]; exact H.
  - intros [H | H]; [left; exact H|].
    destruct (String.eqb_spec x y) as [E|E]; [left; symmetry; exact E|].
    right. split; [exact H | reflexivity].
Qed.

Lemma distinct_NoDup (l : list string) : NoDup (distinct l).
Proof.
  induction l as [|y l IH]; simpl; constructor.
  - rewrite filter_In. intros [_ H]. rewrite String.eqb_refl in H.
    discriminate H.
  - apply NoDup_filter. exact IH.
Qed.

Lemma groupOf_command (c : string) (rows : list TaskRow) (r : TaskRow) :
  In r (groupOf c rows) <-> In r rows /\ command r = c.
Proof. unfold groupOf. rewrite filter_In, String.eqb_eq. tauto. Qed.

Lemma groupOf_first (c : string) (rows : list TaskRow) :
  In c (map command rows) ->
  exists first rest, groupOf c rows = first :: rest /\ command first = c.
Proof.
  intro H. apply in_map_iff in H. destruct H as [r [Hc Hin]].
  assert (Hg : In r (groupOf c rows)) by (apply groupOf_command; tauto).
  destruct (groupOf c rows) as [|first rest] eqn:E; [contradiction|].
  exists first, rest. split; [reflexivity|].
  assert (Hf : In first (groupOf c rows)) by (rewrite E; left; reflexivity).
  apply groupOf_command in Hf. apply Hf.
Qed.

(** One output row per distinct command. *)
Lemma groupRows_commands (rows : list TaskRow) :
  map sum_command (groupRows rows) = distinct (map command rows).
Proof.
  unfold groupRows.
  assert (H : forall cs, (forall c, In c cs -> In c (map command rows)) ->
    map sum_command
        (flat_map (fun c => match groupOf c rows with
                            | [] => []
                            | first :: rest => [aggregate first rest]
                            end) cs) = cs).
  { induction cs as [|c cs IH]; intro Hin; [reflexivity|].
    cbn [flat_map]. rewrite map_app, IH by (intros; apply Hin; right; assumption).
    destruct (groupOf_first c rows (Hin c (or_introl eq_refl)))
      as [first [rest [-> Hc]]].
    simpl. rewrite Hc. reflexivity. }
  apply H. intros c Hc. apply distinct_in. exact Hc.
Qed.

Lemma groupRows_row (rows : list TaskRow) (s : SummaryRow) :
  In s (groupRows rows) ->
  exists first rest,
    groupOf (sum_command s) rows = first :: rest /\ s = aggregate first rest.
Proof.
  unfold groupRows. intro H. apply in_flat_map in H.
  destruct H as [c [Hc Hs]]. apply (proj1 (distinct_in _ _)) in Hc.
  destruct (groupOf_first c rows Hc) as [first [rest [Hg Hcmd]]].
  rewrite Hg in Hs. destruct Hs as [<-|[]].
  exists first, rest. simpl. rewrite Hcmd. split; [exact Hg | reflexivity].
Qed.

Lemma sumCase_count (st : string) (rows : list TaskRow) :
  sumCase st rows =
  Z.of_nat (List.length (filter (fun r => status r =? st) rows)).
Proof.
  induction rows as [|r rows IH]; [reflexivity|].
  cbn [sumCase filter]. rewrite IH.
  destruct (status r =? st); cbn [List.length]; lia.
Qed.

Lemma filter_filter {A : Type} (p q : A -> bool) (l : list A) :
  filter q (filter p l) = filter (fun x => p x && q x) l.
Proof.
  induction l as [|x l IH]; [reflexivity|].
  simpl. destruct (p x); simpl; [destruct (q x)|]; rewrite IH; reflexivity.
Qed.

(** The row that holds the maximum: one of the rows, with a timestamp
    text not before any other. *)
Lemma maxTimestampRow_spec (rows : list TaskRow) : forall best,
  In (maxTimestampRow best rows) (best :: rows) /\
  forall r, In r (best :: rows) ->
            textGe (timestamp (maxTimestampRow best rows)) (timestamp r).
Proof.
  induction rows as [|x rows IH]; intro best; cbn [maxTimestampRow].
  - split; [left; reflexivity|]. intros r [<-|[]]. apply textGe_refl.
  - destruct (String.ltb (timestamp best) (timestamp x)) eqn:Hlt.
    + destruct (IH x) as [Hin Hmax]. split.
      * right. exact Hin.
      * intros r [<- | Hr]; [|apply Hmax; exact Hr].
        apply (textGe_trans _ (timestamp x)).
        -- apply Hmax. left. reflexivity.
        -- apply ltb_true_textGe. exact Hlt.
    + destruct (IH best) as [Hin Hmax]. split.
      * destruct Hin as [H|H]; [left; exact H | right; right; exact H].
      * intros r [<- | [<- | Hr]].
        -- apply Hmax. left. reflexivity.
        -- apply (textGe_trans _ (timestamp best)).
           ++ apply Hmax. left. reflexivity.
           ++ apply ltb_false_textGe. exact Hlt.
        -- apply Hmax. right. exact Hr.
Qed.

(** *** The ordering *)

Lemma insertDesc_perm (x : SummaryRow) (l : list SummaryRow) :
  Permutation (insertDesc x l) (x :: l).
Proof.
  induction l as [|y l IH]; simpl; [apply Permutation_refl|].
  destruct (String.leb (last_run y) (last_run x)); [apply Permutation_refl|].
  apply (Permutation_trans (perm_skip y IH)). apply perm_swap.
Qed.

Lemma orderByLastRunDesc_perm (l : list SummaryRow) :
  Permutation (orderByLastRunDesc l) l.
Proof.
  induction l as [|x l IH]; simpl; [apply Permutation_refl|].
  apply (Permutation_trans (insertDesc_perm x _)).
  apply perm_skip. exact IH.
Qed.

Lemma insertDesc_sorted (x : SummaryRow) (l : list SummaryRow) :
  Sorted (fun a b => textGe (last_run a) (last_run b)) l ->
  Sorted (fun a b => textGe (last_run a) (last_run b)) (insertDesc x l).
Proof.
  induction l as [|y l IH]; intro Hs; simpl.
  - constructor; constructor.
  - destruct (String.leb (last_run y) (last_run x)) eqn:Hle.
    + constructor; [exact Hs|]. constructor. exact Hle.
    + inversion Hs as [|y' l' Hsl Hhd]; subst.
      constructor; [apply IH; exact Hsl|].
      assert (Hyx : textGe (last_run y) (last_run x)).
      { unfold textGe. destruct (String.leb_total (last_run y) (last_run x))
          as [H|H]; [rewrite H in Hle; discriminate Hle | exact H]. }
      destruct l as [|z l]; simpl.
      * constructor. exact Hyx.
      * destruct (String.leb (last_run z) (last_run x)).
        -- constructor. exact Hyx.
        -- constructor. inversion Hhd; subst. assumption.
Qed.

Lemma orderByLastRunDesc_sorted (l : list SummaryRow) :
  Sorted (fun a b => textGe (last_run a) (last_run b)) (orderByLastRunDesc l).
Proof.
  induction l as [|x l IH]; simpl; [constructor|].
  apply insertDesc_sorted. exact IH.
Qed.

(** What the summary query does return: one row per distinct command;
    its counts are the numbers of Success and of Failure records of the
    command; its [last_run] is the timestamp text of one of the
    command's records and comes before none of the others in the
    byte-wise order of the texts; and the rows are ordered by that text,
    greatest first. *)
Lemma selectSummary_facts (d : Database) :
  Permutation (map sum_command (selectSummary d))
              (distinct (map command (tasks d))) /\
  NoDup (map sum_command (selectSummary d)) /\
  Sorted (fun a b => textGe (last_run a) (last_run b)) (selectSummary d) /\
  forall s, In s (selectSummary d) ->
    success_count s = countRuns (sum_command s) "Success" (tasks d) /\
    failure_count s = countRuns (sum_command s) "Failure" (tasks d) /\
    (exists r, In r (tasks d) /\ command r = sum_command s /\
               timestamp r = last_run s /\ task_uid r = sum_task_uid s /\
               output r = sum_output s) /\
    (forall r, In r (tasks d) -> command r = sum_command s ->
               textGe (last_run s) (timestamp r)).
Proof.
  unfold selectSummary.
  assert (Hperm : Permutation
                    (map sum_command (orderByLastRunDesc (groupRows (tasks d))))
                    (distinct (map command (tasks d)))).
  { rewrite <- groupRows_commands. apply Permutation_map.
    apply orderByLastRunDesc_perm. }
  split; [exact Hperm|]. split.
  { apply (Permutation_NoDup (Permutation_sym Hperm)). apply distinct_NoDup. }
  split; [apply orderByLastRunDesc_sorted|].
  intros s Hs.
  apply (Permutation_in _ (orderByLastRunDesc_perm _)) in Hs.
  destruct (groupRows_row _ _ Hs) as [first [rest [Hg ->]]].
  set (c := sum_command (aggregate first rest)) in *.
  destruct (maxTimestampRow_spec rest first) as [Hin Hmax].
  rewrite <- Hg in Hin.
  assert (Hcount : forall st,
            sumCase st (first :: rest) = countRuns c st (tasks d)).
  { intro st. rewrite <- Hg, sumCase_count. unfold groupOf, countRuns.
    rewrite filter_filter. reflexivity. }
  split; [apply Hcount|]. split; [apply Hcount|]. split.
  - exists (maxTimestampRow first rest).
    apply groupOf_command in Hin. destruct Hin as [Hin Hc].
    split; [exact Hin|]. split; [exact Hc|]. repeat split.
  - intros r Hr Hc. apply Hmax. rewrite <- Hg.
    apply groupOf_command. split; assumption.
Qed.

(** C5, the code at the failing input.  The timestamps are texts that
    start with the day of the month, and the query compares them as
    texts.  First case: one command ran on 31 January and again on
    1 February; [last_run] is the January text and the uid is that of
    the January run.  Second case: [echo a] ran on 31 January and
    [echo b] on 1 February; the summary lists [echo a] first. *)
Theorem last_run_compares_day_first_text :
  notAfter firstOfFebruary lastOfJanuary = false /\
  option_map selectSummary (db twoRunsWorld) =
    Some [mkSummaryRow "echo ok" (uuidString 1) (formatTime lastOfJanuary)
                       2 0 "ok"] /\
  option_map (fun d => map sum_command (selectSummary d))
             (db twoCommandsWorld) =
    Some ["echo a"; "echo b"] /\
  option_map (fun d => map last_run (selectSummary d))
             (db twoCommandsWorld) =
    Some [formatTime lastOfJanuary; formatTime firstOfFebruary].
Proof. repeat split; reflexivity. Qed.

(** ** Loading a job file *)

Lemma append_assoc (a b c : string) : (a ++ b) ++ c = a ++ (b ++ c).
Proof. induction a as [|x a IH]; simpl; [reflexivity | rewrite IH; reflexivity]. Qed.

Lemma append_nil_r (a : string) : a ++ "" = a.
Proof. induction a as [|x a IH]; simpl; [reflexivity | rewrite IH; reflexivity]. Qed.

(** *** The lines the scanner delivers *)

Lemma reverseOnto_app (s : string) : forall acc,
  reverseOnto s acc = reverse s ++ acc.
Proof.
  unfold reverse. induction s as [|c s IH]; intro acc; [reflexivity|].
  cbn [reverseOnto]. rewrite (IH (String c acc)), (IH (String c "")).
  rewrite append_assoc. reflexivity.
Qed.

Lemma reverseOnto_snoc (s : string) (c : ascii) : forall acc,
  reverseOnto (s ++ String c "") acc = String c (reverseOnto s acc).
Proof.
  induction s as [|x s IH]; intro acc; [reflexivity|].
  cbn [append reverseOnto]. apply IH.
Qed.

Lemma reverse_snoc (s : string) (c : ascii) :
  reverse (s ++ String c "") = String c (reverse s).
Proof. apply reverseOnto_snoc. Qed.

Lemma reverse_cons (s : string) (c : ascii) :
  reverse (String c s) = reverse s ++ String c "".
Proof. unfold reverse at 1. cbn [reverseOnto]. apply reverseOnto_app. Qed.

Lemma reverse_involutive (s : string) : reverse (reverse s) = s.
Proof.
  induction s as [|c s IH]; [reflexivity|].
  rewrite reverse_cons, reverse_snoc, IH. reflexivity.
Qed.

Lemma length_snoc (s : string) (c : ascii) :
  String.length (s ++ String c "") = S (String.length s).
Proof. induction s as [|x s IH]; simpl; [reflexivity | rewrite IH; reflexivity]. Qed.

Lemma length_append_le (s t : string) :
  (String.length s <= String.length (s ++ t))%nat.
Proof. induction s as [|x s IH]; simpl; lia. Qed.

Lemma linesAfter_empty (lines : list string) : linesAfter "" lines = lines.
Proof. destruct lines; reflexivity. Qed.

Lemma linesAfter_snoc (line : string) (c : ascii) (lines : list string) :
  linesAfter line (linesAfter (String c "") lines) =
  linesAfter (line ++ String c "") lines.
Proof.
  destruct lines as [|next more]; cbn [linesAfter].
  - change (String c "" =? "") with false. cbv iota. cbn [linesAfter].
    destruct (line ++ String c "" =? "") eqn:E; [|reflexivity].
    apply String.eqb_eq in E. destruct line; discriminate E.
  - cbn [linesAfter]. rewrite append_assoc. reflexivity.
Qed.

Lemma fileLines_cons (c : ascii) (rest : string) :
  fileLines (String c rest) =
  if (c =? "010")%char then "" :: fileLines rest
  else linesAfter (String c "") (fileLines rest).
Proof.
  cbn [fileLines]. destruct (c =? "010")%char; [reflexivity|].
  destruct (fileLines rest); reflexivity.
Qed.

(** The line being read is the beginning of the next line. *)
Lemma linesAfter_open (line : string) (lines : list string) :
  line <> "" ->
  exists more rest, linesAfter line lines = (line ++ more) :: rest.
Proof.
  intro Hline. destruct lines as [|next rest]; cbn [linesAfter].
  - destruct (line =? "") eqn:E; [apply String.eqb_eq in E; contradiction|].
    exists "", []. rewrite append_nil_r. reflexivity.
  - exists next, rest. reflexivity.
Qed.

(** The scanner delivers the lines of the file up to the first one
    that does not fit into its buffer, and reports [ErrTooLong] when
    there is such a line. *)
Lemma scanLoop_lines (data : string) (readErr : option string) :
  forall line,
  scannable line = true ->
  scanLoop data (reverse line) (N.of_nat (String.length line)) readErr =
    (map dropCR (scannablePrefix (linesAfter line (fileLines data))),
     if forallb scannable (linesAfter line (fileLines data)) then readErr
     else Some ErrTooLong).
Proof.
  induction data as [|c data IH]; intros line Hline.
  - cbn [scanLoop fileLines linesAfter]. destruct line as [|x line].
    + reflexivity.
    + change (String x line =? "") with false. cbv iota.
      cbn [scannablePrefix forallb map]. rewrite Hline. cbn [map andb].
      destruct (reverse (String x line)) as [|y held] eqn:E.
      * apply (f_equal reverse) in E. rewrite reverse_involutive in E.
        discriminate E.
      * rewrite <- E, reverse_involutive. reflexivity.
  - rewrite fileLines_cons. cbn [scanLoop].
    destruct (c =? "010")%char.
    + change (scanLoop data "" 0 readErr)
        with (scanLoop data (reverse "") (N.of_nat (String.length ""))
                       readErr).
      rewrite (IH "" eq_refl), linesAfter_empty.
      cbn [linesAfter scannablePrefix forallb map].
      rewrite append_nil_r, Hline. cbn [map andb].
      rewrite reverse_involutive. reflexivity.
    + rewrite linesAfter_snoc.
      destruct (MaxScanTokenSize <=? N.succ (N.of_nat (String.length line)))%N
        eqn:Hfull.
      * destruct (linesAfter_open (line ++ String c "") (fileLines data))
          as [more [rest H]]; [destruct line; discriminate|].
        rewrite H. cbn [scannablePrefix forallb].
        assert (Hlong : scannable ((line ++ String c "") ++ more) = false).
        { unfold scannable. apply N.ltb_ge. apply N.leb_le in Hfull.
          pose proof (length_append_le (line ++ String c "") more) as Hle.
          rewrite length_snoc in Hle. lia. }
        rewrite Hlong. reflexivity.
      * rewrite <- reverse_snoc.
        replace (N.succ (N.of_nat (String.length line)))
          with (N.of_nat (String.length (line ++ String c "")))
          by (rewrite length_snoc; lia).
        apply IH. unfold scannable. apply N.ltb_lt.
        apply N.leb_gt in Hfull. rewrite length_snoc. lia.
Qed.


Section JobFileFacts.

Variable Schedule : Type.
Variable ParseStandard : string -> Schedule + string.




(** What [scheduleJobsFromFile] does with a file that could be opened:
    the loop body on the lines the scanner delivers, and then the
    report of the scanner's error. *)
Lemma scheduleJobsFromFile_opened (content : string) (readErr : option string)
    (c : Cron Schedule) (w : World) :
  let lines := map dropCR (scannablePrefix (fileLines content)) in
  let scanErr := if forallb scannable (fileLines content) then readErr
                 else Some ErrTooLong in
  scheduleJobsFromFile ParseStandard c (Opened content readErr) w =
    (fst (scheduleLines ParseStandard lines c w),
     match scanErr with
     | Some err => print ("Error reading file: " ++ err ++ nl)
                         (snd (scheduleLines ParseStandard lines c w))
     | None => snd (scheduleLines ParseStandard lines c w)
     end).
Proof.
  intros lines scanErr. unfold scheduleJobsFromFile.
  change "" with (reverse "") at 1.
  change 0%N with (N.of_nat (String.length "")).
  rewrite (scanLoop_lines content readErr "" eq_refl), linesAfter_empty.
  fold lines. fold scanErr.
  destruct (scheduleLines ParseStandard lines c w) as [c1 w1].
  destruct scanErr; reflexivity.
Qed.


End JobFileFacts.



(** ** Concurrent recording under the mutex *)

Lemma callsCode_cons (h : Handles) (call : Call) (todo : list Call) :
  callsCode h (call :: todo) =
  (Lock :: map writeInstr (writesOf h call) ++ Unlock :: callsCode h todo)%list.
Proof.
  unfold callsCode; simpl. unfold callCode at 1. simpl.
  rewrite <- app_assoc. reflexivity.
Qed.

Lemma holders_app (a b : list (nat * Standing)) :
  holders (a ++ b) = holders a + holders b.
Proof.
  unfold holders. rewrite map_app.
  induction (map (fun g => insideCount (snd g)) a) as [|x l IH]; simpl;
    [reflexivity | rewrite IH; lia].
Qed.

Lemma holders_cons (g : nat * Standing) (l : list (nat * Standing)) :
  holders (g :: l) = insideCount (snd g) + holders l.
Proof. reflexivity. Qed.

Lemma holders_zero_underWay (gs : list (nat * Standing)) :
  holders gs = 0 -> underWay gs = [].
Proof.
  induction gs as [|[n st] gs IH]; [reflexivity|].
  rewrite holders_cons. simpl. destruct st; simpl; intro H.
  - apply IH. exact H.
  - discriminate H.
Qed.

Lemma underWay_app (a b : list (nat * Standing)) :
  underWay (a ++ b) = (underWay a ++ underWay b)%list.
Proof. apply flat_map_app. Qed.

Lemma outstanding_app (a b : list (nat * Standing)) :
  outstanding (a ++ b) = (outstanding a ++ outstanding b)%list.
Proof. apply flat_map_app. Qed.

Lemma standing_split (h : Handles) (gs : list (nat * Standing))
    (before after : list Goroutine) (g : Goroutine) :
  Forall2 (standsAt h) gs (before ++ g :: after) ->
  exists gb s ga,
    gs = (gb ++ s :: ga)%list /\ Forall2 (standsAt h) gb before /\
    standsAt h s g /\ Forall2 (standsAt h) ga after.
Proof.
  intro H. apply Forall2_app_inv_r in H.
  destruct H as [gb [rest [Hb [Hrest ->]]]].
  inversion Hrest as [|s g' ga after' Hs Ha]; subst.
  exists gb, s, ga. split; [reflexivity|]. split; [exact Hb|].
  split; [exact Hs | exact Ha].
Qed.

Lemma standing_join (h : Handles) (gb ga : list (nat * Standing))
    (before after : list Goroutine) (s : nat * Standing) (g : Goroutine) :
  Forall2 (standsAt h) gb before -> standsAt h s g ->
  Forall2 (standsAt h) ga after ->
  Forall2 (standsAt h) (gb ++ s :: ga) (before ++ g :: after).
Proof.
  intros Hb Hs Ha. apply Forall2_app; [exact Hb|].
  constructor; assumption.
Qed.

(** The first instruction tells where a goroutine stands. *)
Lemma standing_at_lock (h : Handles) (st : Standing) (rest : list Instr) :
  codeAt h st = Lock :: rest ->
  exists call todo,
    st = Outside (call :: todo) /\
    rest = codeAt h (Inside call [] (writesOf h call) todo).
Proof.
  destruct st as [[|call todo]|call written [|kp pending] todo];
    cbn [codeAt map app]; intro H.
  - discriminate H.
  - rewrite callsCode_cons in H. injection H as H.
    exists call, todo. split; [reflexivity|]. symmetry. exact H.
  - discriminate H.
  - discriminate H.
Qed.

Lemma standing_at_unlock (h : Handles) (st : Standing) (rest : list Instr) :
  codeAt h st = Unlock :: rest ->
  exists call written todo,
    st = Inside call written [] todo /\ rest = codeAt h (Outside todo).
Proof.
  destruct st as [[|call todo]|call written [|kp pending] todo];
    cbn [codeAt map app]; intro H.
  - discriminate H.
  - rewrite callsCode_cons in H. discriminate H.
  - injection H as H. exists call, written, todo.
    split; [reflexivity|]. symmetry. exact H.
  - discriminate H.
Qed.

Lemma standing_at_write (h : Handles) (st : Standing) (k : Sink) (s : string)
    (rest : list Instr) :
  codeAt h st = Write k s :: rest ->
  exists call written pending todo,
    st = Inside call written ((k, s) :: pending) todo /\
    rest = codeAt h (Inside call (written ++ [(k, s)]) pending todo).
Proof.
  destruct st as [[|call todo]|call written [|[k' s'] pending] todo];
    cbn [codeAt map app]; intro H.
  - discriminate H.
  - rewrite callsCode_cons in H. discriminate H.
  - discriminate H.
  - unfold writeInstr in H at 1. cbn [fst snd] in H.
    injection H as Hk Hs Hrest.
    subst k' s'. exists call, written, pending, todo.
    split; [reflexivity|]. symmetry. exact Hrest.
Qed.

Lemma eventsOf_app (n : nat) (a b : list (Sink * string)) :
  eventsOf n (a ++ b) = (eventsOf n a ++ eventsOf n b)%list.
Proof. apply map_app. Qed.

(** Every step keeps the invariant. *)
Lemma step_serialized (h : Handles) (programs : list (nat * list Call))
    (c c' : Config) :
  Serialized h programs c -> step c c' -> Serialized h programs c'.
Proof.
  intros [completed [gs [Hst [Htr [Hmu Hperm]]]]] Hstep.
  destruct Hstep as [before g rest after tr Hcode
                    |before g rest after tr Hcode
                    |m before g k s rest after tr Hcode];
    simpl in Hst, Htr, Hmu;
    destruct (standing_split _ _ _ _ _ Hst)
      as [gb [[n st] [ga [Hgs [Hb [[Hgid [Hcd Hwf]] Ha]]]]]];
    simpl in Hgid, Hcd, Hwf; subst gs;
    rewrite holders_app, holders_cons in Hmu; simpl in Hmu;
    rewrite Hcode in Hcd; symmetry in Hcd.
  - (* mu.Lock() *)
    destruct (standing_at_lock _ _ _ Hcd) as [call [todo [-> Hrest]]].
    exists completed, (gb ++ (n, Inside call [] (writesOf h call) todo) :: ga)%list.
    simpl. split; [|split; [|split]].
    + apply standing_join; [exact Hb | | exact Ha].
      split; [exact Hgid|]. split; [exact Hrest | reflexivity].
    + rewrite Htr, !underWay_app. reflexivity.
    + rewrite holders_app, holders_cons. simpl. simpl in Hmu. lia.
    + rewrite outstanding_app in *. exact Hperm.
  - (* mu.Unlock() *)
    destruct (standing_at_unlock _ _ _ Hcd)
      as [call [written [todo [-> Hrest]]]].
    simpl in Hmu, Hwf. rewrite app_nil_r in Hwf.
    assert (Hgb : holders gb = 0) by lia.
    assert (Hga : holders ga = 0) by lia.
    exists (completed ++ [(n, call)])%list, (gb ++ (n, Outside todo) :: ga)%list.
    simpl. split; [|split; [|split]].
    + apply standing_join; [exact Hb | | exact Ha].
      split; [exact Hgid|]. split; [exact Hrest | exact I].
    + rewrite Htr, !underWay_app. simpl.
      rewrite (holders_zero_underWay _ Hgb), (holders_zero_underWay _ Hga).
      rewrite flat_map_app. simpl. unfold callEvents at 2. simpl.
      rewrite Hwf, !app_nil_r. reflexivity.
    + rewrite holders_app, holders_cons. simpl. lia.
    + rewrite outstanding_app in *. simpl in *.
      rewrite <- app_assoc. simpl.
      eapply Permutation_trans; [|exact Hperm].
      apply Permutation_app_head.
      apply Permutation_cons_app. reflexivity.
  - (* a write *)
    destruct (standing_at_write _ _ _ _ _ Hcd)
      as [call [written [pending [todo [-> Hrest]]]]].
    simpl in Hmu, Hwf.
    assert (Hm : m = true) by (destruct m; [reflexivity | lia]).
    subst m.
    assert (Hgb : holders gb = 0) by lia.
    assert (Hga : holders ga = 0) by lia.
    exists completed,
      (gb ++ (n, Inside call (written ++ [(k, s)]) pending todo) :: ga)%list.
    simpl. split; [|split; [|split]].
    + apply standing_join; [exact Hb | | exact Ha].
      split; [exact Hgid|]. split; [exact Hrest|]. simpl.
      rewrite <- app_assoc. exact Hwf.
    + rewrite Htr, !underWay_app. simpl.
      rewrite (holders_zero_underWay _ Hgb), (holders_zero_underWay _ Hga).
      simpl. rewrite !app_nil_r, eventsOf_app, <- app_assoc, Hgid.
      reflexivity.
    + rewrite holders_app, holders_cons. simpl. lia.
    + rewrite outstanding_app in *. exact Hperm.
Qed.

Lemma launch_serialized (h : Handles) (programs : list (nat * list Call)) :
  Serialized h programs (launch h programs).
Proof.
  exists [], (map (fun p => (fst p, Outside (snd p))) programs).
  unfold launch; simpl.
  assert (Hholders : holders (map (fun p => (fst p, Outside (snd p))) programs)
                     = 0).
  { induction programs as [|p ps IH]; [reflexivity|].
    simpl. rewrite holders_cons. simpl. exact IH. }
  split; [|split; [|split]].
  - clear Hholders. induction programs as [|p ps IH]; simpl; constructor.
    + split; [reflexivity|]. split; [reflexivity | exact I].
    + exact IH.
  - rewrite (holders_zero_underWay _ Hholders). reflexivity.
  - exact Hholders.
  - unfold outstanding, allCalls. rewrite flat_map_concat_map, map_map.
    simpl. rewrite <- flat_map_concat_map. apply Permutation_refl.
Qed.

(** The invariant holds in every configuration the goroutines reach. *)
Lemma steps_serialized (h : Handles) (programs : list (nat * list Call))
    (c : Config) :
  steps (launch h programs) c -> Serialized h programs c.
Proof.
  intro H. remember (launch h programs) as c0 eqn:Hc0.
  induction H as [c|c1 c2 c3 _ IH Hstep].
  - subst c. apply launch_serialized.
  - apply (step_serialized h programs c2 c3); [apply IH; exact Hc0 | exact Hstep].
Qed.

(** The executable semantics takes steps of the relation. *)
Lemma replaceAt_middle {A : Type} (before after : list A) (a x : A) :
  replaceAt (List.length before) x (before ++ a :: after) =
  (before ++ x :: after)%list.
Proof.
  induction before as [|b before IH]; simpl; [reflexivity|].
  rewrite IH. reflexivity.
Qed.

Lemma stepOf_sound (i : nat) (c c' : Config) :
  stepOf i c = Some c' -> step c c'.
Proof.
  unfold stepOf. destruct c as [m gs tr]; simpl.
  destruct (nth_error gs i) as [g|] eqn:Hnth; [|discriminate].
  apply nth_error_split in Hnth.
  destruct Hnth as [before [after [-> <-]]].
  destruct (code g) as [|[| |k s] rest] eqn:Hcode; [discriminate| | |];
    rewrite replaceAt_middle.
  - destruct m; [discriminate|]. intro H. injection H as <-.
    apply StepLock. exact Hcode.
  - destruct m; [|discriminate]. intro H. injection H as <-.
    apply StepUnlock. exact Hcode.
  - intro H. injection H as <-. apply StepWrite. exact Hcode.
Qed.

Lemma run_steps (schedule : list nat) :
  forall c, steps c (run schedule c).
Proof.
  assert (Htrans : forall c1 c2, steps c1 c2 ->
                   forall c0, step c0 c1 -> steps c0 c2).
  { intros c1 c2 H. induction H as [c|c1 c2 c3 _ IH Hstep]; intros c0 H0.
    - apply (StepsSnoc c0 c0 c); [apply StepsRefl | exact H0].
    - apply (StepsSnoc c0 c2 c3); [apply IH; exact H0 | exact Hstep]. }
  induction schedule as [|i rest IH]; intro c; simpl.
  - apply StepsRefl.
  - destruct (stepOf i c) as [c'|] eqn:Hstep; [|apply IH].
    apply (Htrans c' _ (IH c')). apply stepOf_sound with (i := i).
    exact Hstep.
Qed.

(** *** What the sinks hold *)

Lemma concat_empty_cons (x : string) (xs : list string) :
  String.concat "" (x :: xs) = x ++ String.concat "" xs.
Proof.
  destruct xs as [|y ys]; simpl; [rewrite append_nil_r|]; reflexivity.
Qed.

Lemma concat_empty_app (a b : list string) :
  String.concat "" (a ++ b) = String.concat "" a ++ String.concat "" b.
Proof.
  induction a as [|x a IH]; [reflexivity|].
  rewrite <- app_comm_cons, !concat_empty_cons, IH, append_assoc.
  reflexivity.
Qed.

Lemma concat_bytesOf (s : string) : String.concat "" (bytesOf s) = s.
Proof.
  unfold bytesOf. induction s as [|a s IH]; [reflexivity|].
  cbn [list_ascii_of_string map]. rewrite concat_empty_cons, IH.
  reflexivity.
Qed.

Lemma received_app (k : Sink) (a b : list Event) :
  received k (a ++ b) = (received k a ++ received k b)%list.
Proof. unfold received. rewrite filter_app, map_app. reflexivity. Qed.

Lemma received_same (k : Sink) (n : nat) (l : list string) :
  received k (eventsOf n (map (pair k) l)) = l.
Proof.
  unfold received, eventsOf. induction l as [|x l IH]; [reflexivity|].
  simpl. destruct k; simpl; rewrite IH; reflexivity.
Qed.

Lemma received_other (k k' : Sink) (n : nat) (l : list string) :
  k <> k' -> received k (eventsOf n (map (pair k') l)) = [].
Proof.
  intro Hne. unfold received, eventsOf.
  induction l as [|x l IH]; [reflexivity|].
  simpl. destruct k, k'; simpl; try exact IH; exfalso; apply Hne; reflexivity.
Qed.

(** What one complete call leaves in each sink. *)
Lemma received_log_call (h : Handles) (b : nat * Call) :
  received LogSink (callEvents h b) =
  match snd b with
  | ToLog js => if logOpen h then bytesOf (logLineOf js) else []
  | ToDB _ => []
  end.
Proof.
  destruct b as [n [js|js]]; unfold callEvents; cbn [writesOf fst snd].
  - destruct (dbOpen h); [|reflexivity].
    apply received_other. discriminate.
  - destruct (logOpen h); [|reflexivity]. apply received_same.
Qed.

Lemma received_tasks_call (h : Handles) (b : nat * Call) :
  received TasksSink (callEvents h b) =
  match snd b with
  | ToDB js => rowCells h js
  | ToLog _ => []
  end.
Proof.
  destruct b as [n [js|js]]; unfold callEvents, rowCells;
    cbn [writesOf fst snd].
  - destruct (dbOpen h); [|reflexivity]. apply received_same.
  - destruct (logOpen h); [|reflexivity].
    apply received_other. discriminate.
Qed.

Lemma appended_completed (h : Handles) (completed : list (nat * Call)) :
  appended (flat_map (callEvents h) completed) =
  String.concat "" (map (entryText h) (loggedBy completed)).
Proof.
  unfold appended. induction completed as [|b completed IH]; [reflexivity|].
  cbn [flat_map]. rewrite received_app, concat_empty_app, IH.
  rewrite received_log_call. unfold loggedBy at 2. cbn [flat_map].
  fold (loggedBy completed).
  destruct (snd b) as [js|js]; [reflexivity|].
  cbn [app map]. rewrite concat_empty_cons. unfold entryText at 2.
  destruct (logOpen h); [rewrite concat_bytesOf|]; reflexivity.
Qed.

Lemma inserted_completed (h : Handles) (completed : list (nat * Call)) :
  received TasksSink (flat_map (callEvents h) completed) =
  flat_map (rowCells h) (insertedBy completed).
Proof.
  induction completed as [|b completed IH]; [reflexivity|].
  cbn [flat_map]. rewrite received_app, IH, received_tasks_call.
  unfold insertedBy at 2. cbn [flat_map]. fold (insertedBy completed).
  destruct (snd b) as [js|js]; [|reflexivity].
  cbn [app flat_map]. reflexivity.
Qed.

(** With at most one goroutine inside a call, the events under way are
    the part already written of that one call. *)
Lemma underWay_one_call (h : Handles) (gs : list (nat * Standing))
    (gl : list Goroutine) :
  Forall2 (standsAt h) gs gl -> holders gs <= 1 ->
  underWay gs = [] \/
  exists n call written pending,
    underWay gs = eventsOf n written /\
    (written ++ pending)%list = writesOf h call /\
    In (n, call) (outstanding gs).
Proof.
  intro H. induction H as [|[n st] g gs gl [_ [_ Hwf]] _ IH]; intro Hle.
  - left. reflexivity.
  - rewrite holders_cons in Hle. cbn [snd] in Hle, Hwf.
    destruct st as [todo|call written pending todo]; cbn [insideCount] in Hle.
    + destruct (IH Hle) as [Hnil | [n' [call [written [pending [Hu [Hw Hin]]]]]]].
      * left. exact Hnil.
      * right. exists n', call, written, pending.
        split; [exact Hu|]. split; [exact Hw|].
        unfold outstanding. cbn [flat_map snd fst].
        apply in_or_app. right. exact Hin.
    + right. exists n, call, written, pending.
      assert (Hrest : holders gs = 0) by lia.
      split; [|split; [exact Hwf | left; reflexivity]].
      unfold underWay. cbn [flat_map snd fst].
      fold (underWay gs). rewrite (holders_zero_underWay _ Hrest).
      apply app_nil_r.
Qed.

(** The calls of the job goroutines are the two recorder calls of each
    record. *)
Lemma jobPrograms_calls (records : list JobStatus) : forall n k call,
  In (k, call) (allCalls (jobPrograms n records)) ->
  exists js, In js records /\ (call = ToDB js \/ call = ToLog js).
Proof.
  induction records as [|js records IH]; intros n k call; simpl; [intros []|].
  intros [H | [H | H]].
  - injection H as _ <-. exists js. split; [left; reflexivity | left; reflexivity].
  - injection H as _ <-. exists js. split; [left; reflexivity | right; reflexivity].
  - destruct (IH _ _ _ H) as [js' [Hin Hcall]].
    exists js'. split; [right; exact Hin | exact Hcall].
Qed.

Lemma jobPrograms_logged (records : list JobStatus) : forall n,
  loggedBy (allCalls (jobPrograms n records)) = records.
Proof.
  induction records as [|js records IH]; intro n; [reflexivity|].
  simpl. unfold loggedBy in *. simpl. rewrite IH. reflexivity.
Qed.

Lemma jobPrograms_inserted (records : list JobStatus) : forall n,
  insertedBy (allCalls (jobPrograms n records)) = records.
Proof.
  induction records as [|js records IH]; intro n; [reflexivity|].
  simpl. unfold insertedBy in *. simpl. rewrite IH. reflexivity.
Qed.

Lemma loggedBy_in (calls : list (nat * Call)) (js : JobStatus) :
  In js (loggedBy calls) -> exists n, In (n, ToLog js) calls.
Proof.
  unfold loggedBy. intro H. apply in_flat_map in H.
  destruct H as [[n [js'|js']] [Hin Hjs]]; simpl in Hjs;
    [contradiction|]. destruct Hjs as [<-|[]]. exists n. exact Hin.
Qed.

Lemma insertedBy_in (calls : list (nat * Call)) (js : JobStatus) :
  In js (insertedBy calls) -> exists n, In (n, ToDB js) calls.
Proof.
  unfold insertedBy. intro H. apply in_flat_map in H.
  destruct H as [[n [js'|js']] [Hin Hjs]]; simpl in Hjs;
    [|contradiction]. destruct Hjs as [<-|[]]. exists n. exact Hin.
Qed.

(** A goroutine without instructions stands outside with nothing to do. *)
Lemma finished_outstanding (h : Handles) (gs : list (nat * Standing))
    (gl : list Goroutine) :
  Forall2 (standsAt h) gs gl -> Forall (fun g => code g = []) gl ->
  outstanding gs = [] /\ underWay gs = [].
Proof.
  intro H. induction H as [|[n st] g gs gl [_ [Hcode _]] _ IH]; intro Hfin.
  - split; reflexivity.
  - inversion Hfin as [|g' gl' Hg Hgl]; subst.
    destruct (IH Hgl) as [Hout Hunder]. cbn [snd] in Hcode.
    rewrite Hg in Hcode.
    destruct st as [[|call todo]|call written pending todo];
      cbn [codeAt] in Hcode.
    + unfold outstanding, underWay in *. cbn [flat_map snd fst map app].
      split; assumption.
    + rewrite callsCode_cons in Hcode. discriminate Hcode.
    + exfalso. symmetry in Hcode. apply app_eq_nil in Hcode.
      destruct Hcode as [_ Hcode]. discriminate Hcode.
Qed.

Lemma part_of_call (h : Handles) (k : Sink) (n : nat) (call : Call)
    (written pending : list (Sink * string)) :
  (written ++ pending)%list = writesOf h call ->
  beginsList (received k (eventsOf n written))
             (received k (callEvents h (n, call))).
Proof.
  intro H. exists (received k (eventsOf n pending)).
  unfold callEvents. cbn [fst snd].
  rewrite <- H, eventsOf_app, received_app. reflexivity.
Qed.

Lemma begins_nil {A : Type} (a : list A) : beginsList a [] -> a = [].
Proof.
  intros [rest H]. symmetry in H. apply app_eq_nil in H. apply H.
Qed.

(** The part written of the call under way: the beginning of one
    record's log text or of one record's row, never both. *)
Lemma underWay_part (h : Handles) (records : list JobStatus)
    (gs : list (nat * Standing)) (gl : list Goroutine) (n0 : nat) :
  Forall2 (standsAt h) gs gl -> holders gs <= 1 ->
  (forall b, In b (outstanding gs) -> In b (allCalls (jobPrograms n0 records))) ->
  (appended (underWay gs) = "" /\ received TasksSink (underWay gs) = []) \/
  exists js, In js records /\
    ((beginsText (appended (underWay gs)) (logLineOf js) /\
      received TasksSink (underWay gs) = []) \/
     (appended (underWay gs) = "" /\
      beginsList (received TasksSink (underWay gs)) (columnsOf js))).
Proof.
  intros Hst Hle Hall.
  destruct (underWay_one_call h gs gl Hst Hle)
    as [Hnil | [n [call [written [pending [Hu [Hw Hin]]]]]]].
  - left. rewrite Hnil. split; reflexivity.
  - destruct (jobPrograms_calls records n0 n call (Hall _ Hin))
      as [js [Hjs Hcall]].
    pose proof (part_of_call h LogSink n call written pending Hw) as Hlog.
    pose proof (part_of_call h TasksSink n call written pending Hw) as Htasks.
    rewrite received_log_call in Hlog.
    rewrite received_tasks_call in Htasks.
    rewrite <- Hu in Hlog, Htasks. cbn [snd] in Hlog, Htasks.
    destruct Hcall as [-> | ->].
    + apply begins_nil in Hlog. unfold rowCells in Htasks.
      destruct (dbOpen h).
      * right. exists js. split; [exact Hjs|]. right.
        split; [unfold appended; rewrite Hlog; reflexivity | exact Htasks].
      * apply begins_nil in Htasks. left.
        split; [unfold appended; rewrite Hlog; reflexivity | exact Htasks].
    + apply begins_nil in Htasks. destruct (logOpen h).
      * right. exists js. split; [exact Hjs|]. left.
        split; [|exact Htasks].
        destruct Hlog as [rest Hrest]. exists (String.concat "" rest).
        unfold appended. rewrite <- concat_empty_app, <- Hrest.
        symmetry. apply concat_bytesOf.
      * apply begins_nil in Hlog. left.
        split; [unfold appended; rewrite Hlog; reflexivity | exact Htasks].
Qed.

(** C9: job goroutines record concurrently, each through the two calls
    that lock the one mutex [mu].  In every configuration they can
    reach, at most one goroutine is inside a call, and it is there
    exactly when [mu] is locked.  The log file then holds whole log
    texts of records, one after the other, followed by at most the
    beginning of one more, and the table holds whole rows followed by
    at most the beginning of one more; a text and a row are never under
    way at the same time.  When all goroutines are done each sink holds
    every record exactly once, whole, in some order. *)
Theorem recorder_writes_never_interleave
    (h : Handles) (records : list JobStatus) (c : Config) :
  steps (initial h records) c ->
  exists (logged inserted : list JobStatus) (partLine : string)
         (partRow : list string),
    (exists gs, Forall2 (standsAt h) gs (pool c) /\ holders gs <= 1 /\
                (holders gs = 1 <-> mu c = true)) /\
    appended (trace c) =
      String.concat "" (map (entryText h) logged) ++ partLine /\
    received TasksSink (trace c) =
      (flat_map (rowCells h) inserted ++ partRow)%list /\
    incl logged records /\ incl inserted records /\
    (partLine = "" \/
     exists js, In js records /\ beginsText partLine (logLineOf js)) /\
    (partRow = [] \/
     exists js, In js records /\ beginsList partRow (columnsOf js)) /\
    (partLine = "" \/ partRow = []) /\
    (finished c ->
     partLine = "" /\ partRow = [] /\
     Permutation logged records /\ Permutation inserted records).
Proof.
  intro Hsteps.
  destruct (steps_serialized h (jobPrograms 0 records) c Hsteps)
    as [completed [gs [Hst [Htr [Hmu Hperm]]]]].
  assert (Hle : holders gs <= 1) by (destruct (mu c); lia).
  assert (Hall : forall b, In b (outstanding gs) ->
                           In b (allCalls (jobPrograms 0 records))).
  { intros b Hb. apply (Permutation_in _ Hperm).
    apply in_or_app. right. exact Hb. }
  assert (Hdone : forall b, In b completed ->
                            In b (allCalls (jobPrograms 0 records))).
  { intros b Hb. apply (Permutation_in _ Hperm).
    apply in_or_app. left. exact Hb. }
  exists (loggedBy completed), (insertedBy completed),
         (appended (underWay gs)), (received TasksSink (underWay gs)).
  split; [|split; [|split; [|split; [|split]]]].
  - exists gs. split; [exact Hst|]. split; [exact Hle|].
    destruct (mu c); split; intro; try reflexivity; try lia; discriminate.
  - rewrite Htr. unfold appended at 1.
    rewrite received_app, concat_empty_app.
    fold (appended (flat_map (callEvents h) completed)).
    rewrite appended_completed. reflexivity.
  - rewrite Htr, received_app, inserted_completed. reflexivity.
  - intros js Hjs. destruct (loggedBy_in _ _ Hjs) as [n Hn].
    destruct (jobPrograms_calls records 0 n _ (Hdone _ Hn))
      as [js' [Hin [Heq|Heq]]]; [discriminate Heq|].
    injection Heq as ->. exact Hin.
  - intros js Hjs. destruct (insertedBy_in _ _ Hjs) as [n Hn].
    destruct (jobPrograms_calls records 0 n _ (Hdone _ Hn))
      as [js' [Hin [Heq|Heq]]]; [|discriminate Heq].
    injection Heq as ->. exact Hin.
  - destruct (underWay_part h records gs (pool c) 0 Hst Hle Hall)
      as [[Hline Hrow] | [js [Hjs [[Hline Hrow] | [Hline Hrow]]]]].
    + split; [left; exact Hline|]. split; [left; exact Hrow|].
      split; [left; exact Hline|].
      intro Hfin. split; [exact Hline|]. split; [exact Hrow|].
      destruct (finished_outstanding h gs (pool c) Hst Hfin) as [Hout _].
      rewrite Hout, app_nil_r in Hperm. split.
      * rewrite <- (jobPrograms_logged records 0).
        apply Permutation_flat_map. exact Hperm.
      * rewrite <- (jobPrograms_inserted records 0).
        apply Permutation_flat_map. exact Hperm.
    + split; [right; exists js; split; assumption|].
      split; [left; exact Hrow|]. split; [right; exact Hrow|].
      intro Hfin.
      destruct (finished_outstanding h gs (pool c) Hst Hfin) as [Hout Hunder].
      rewrite Hunder. split; [reflexivity|]. split; [reflexivity|].
      rewrite Hout, app_nil_r in Hperm. split.
      * rewrite <- (jobPrograms_logged records 0).
        apply Permutation_flat_map. exact Hperm.
      * rewrite <- (jobPrograms_inserted records 0).
        apply Permutation_flat_map. exact Hperm.
    + split; [left; exact Hline|].
      split; [right; exists js; split; assumption|].
      split; [left; exact Hline|].
      intro Hfin.
      destruct (finished_outstanding h gs (pool c) Hst Hfin) as [Hout Hunder].
      rewrite Hunder. split; [reflexivity|]. split; [reflexivity|].
      rewrite Hout, app_nil_r in Hperm. split.
      * rewrite <- (jobPrograms_logged records 0).
        apply Permutation_flat_map. exact Hperm.
      * rewrite <- (jobPrograms_inserted records 0).
        apply Permutation_flat_map. exact Hperm.
Qed.

(** The goroutine inside a call, when there is one. *)
Lemma holder_found (h : Handles) (gs : list (nat * Standing))
    (gl : list Goroutine) :
  Forall2 (standsAt h) gs gl -> 1 <= holders gs ->
  exists before g after call written pending todo,
    gl = (before ++ g :: after)%list /\
    code g = codeAt h (Inside call written pending todo).
Proof.
  intro H. induction H as [|[n st] g gs gl [_ [Hcode _]] _ IH]; intro Hle.
  - unfold holders in Hle. simpl in Hle. lia.
  - rewrite holders_cons in Hle. cbn [snd] in Hle, Hcode.
    destruct st as [todo|call written pending todo]; cbn [insideCount] in Hle.
    + destruct (IH Hle)
        as [before [g' [after [call [written [pending [todo' [-> Hg']]]]]]]].
      exists (g :: before), g', after, call, written, pending, todo'.
      split; [reflexivity | exact Hg'].
    + exists [], g, gl, call, written, pending, todo.
      split; [reflexivity | exact Hcode].
Qed.

(** The recorder goroutines never block each other for good: as long
    as one of them has instructions left, some goroutine can step. *)
Lemma recorder_can_proceed (h : Handles) (programs : list (nat * list Call))
    (c : Config) :
  steps (launch h programs) c -> ~ finished c -> exists c', step c c'.
Proof.
  intros Hsteps Hnot.
  destruct (steps_serialized h programs c Hsteps)
    as [completed [gs [Hst [_ [Hmu _]]]]].
  destruct c as [m gl tr]. simpl in Hst, Hmu. destruct m.
  - destruct (holder_found h gs gl Hst)
      as [before [g [after [call [written [pending [todo [-> Hcode]]]]]]]];
      [lia|].
    destruct pending as [|[k s] pending]; cbn [codeAt map app] in Hcode.
    + eexists. apply StepUnlock. exact Hcode.
    + eexists. apply StepWrite. exact Hcode.
  - unfold finished in Hnot. simpl in Hnot.
    apply neg_Forall_Exists_neg in Hnot.
    + apply Exists_exists in Hnot. destruct Hnot as [g [Hin Hcode]].
      apply in_split in Hin. destruct Hin as [before [after ->]].
      destruct (standing_split _ _ _ _ _ Hst)
        as [gb [[n st] [ga [-> [_ [[_ [Hcd _]] _]]]]]].
      rewrite holders_app, holders_cons in Hmu. cbn [snd] in Hmu, Hcd.
      destruct st as [[|call todo]|call written pending todo];
        cbn [insideCount] in Hmu; cbn [codeAt] in Hcd; [| |lia].
      * exfalso. apply Hcode. exact Hcd.
      * rewrite callsCode_cons in Hcd. eexists. apply StepLock. exact Hcd.
    + intro g. destruct (code g); [left; reflexivity | right; discriminate].
Qed.

Lemma recorder_writes_never_interleave_witness :
  appended (trace interleavedRun) =
    logLineOf failedStatus ++ logLineOf okStatus \/
  appended (trace interleavedRun) =
    logLineOf okStatus ++ logLineOf failedStatus.
Proof.
  destruct (recorder_writes_never_interleave bothOpen
              [failedStatus; okStatus] interleavedRun)
    as [logged [inserted [partLine [partRow
         [_ [Hlog [_ [_ [_ [_ [_ [_ Hfin]]]]]]]]]]]].
  - apply run_steps.
  - destruct Hfin as [Hline [_ [Hperm _]]].
    + unfold finished. vm_compute. repeat constructor.
    + rewrite Hlog, Hline. apply Permutation_sym in Hperm.
      apply Permutation_length_2_inv in Hperm.
      destruct Hperm as [-> | ->]; [left | right]; reflexivity.
Defined.

(** ** Requests and job runs in any order *)

Lemma sorted_snoc (l : list Z) (bound : Z) :
  StronglySorted Z.lt l -> Forall (fun x => (x <= bound)%Z) l ->
  StronglySorted Z.lt (l ++ [(bound + 1)%Z]).
Proof.
  induction l as [|x l IH]; intros Hs Hb; simpl.
  - constructor; constructor.
  - inversion Hs as [|x' l' Hsl Hx]; subst.
    inversion Hb as [|x' l' Hxb Hlb]; subst.
    constructor; [apply IH; assumption|].
    apply Forall_app. split; [exact Hx|].
    constructor; [lia | constructor].
Qed.

Lemma nodup_snoc {A : Type} (l : list A) (x : A) :
  NoDup l -> ~ In x l -> NoDup (l ++ [x]).
Proof.
  intros Hl Hx. apply NoDup_app; [exact Hl | constructor; [intros [] | constructor] |].
  intros y Hy [<-|[]]. exact (Hx Hy).
Qed.

(** The effect of [logJobStatusToDB] on an open database. *)
Lemma logJobStatusToDB_db (js : JobStatus) (w : World) (d : Database) :
  db w = Some d ->
  db (logJobStatusToDB js w) = Some d \/
  (uidFresh (UID js) d /\
   db (logJobStatusToDB js w) =
     Some (mkDatabase (tasks d ++ [rowOf (tasks_seq d + 1) js])
                      (tasks_seq d + 1) (jobs d) (jobs_seq d))).
Proof.
  intro Hdb. unfold logJobStatusToDB, insertTask. rewrite Hdb.
  destruct (existsb _ (tasks d)) eqn:Hex; simpl.
  - left. exact Hdb.
  - right. split; [|reflexivity]. intros row Hin Heq.
    assert (Ht : existsb (fun r => task_uid r =? UID js) (tasks d) = true).
    { apply existsb_exists. exists row. split; [exact Hin|].
      apply String.eqb_eq. exact Heq. }
    rewrite Ht in Hex. discriminate Hex.
Qed.

Lemma Consistent_add_task (d : Database) (js : JobStatus) :
  Consistent d -> uidFresh (UID js) d ->
  Consistent (mkDatabase (tasks d ++ [rowOf (tasks_seq d + 1) js])
                         (tasks_seq d + 1) (jobs d) (jobs_seq d)).
Proof.
  intros [Hu [Hi [Hb [Hn [Hj Hjb]]]]] Hfresh. unfold Consistent; simpl.
  rewrite !map_app; simpl. split; [|split; [|split; [|split; [|split]]]];
    try assumption.
  - apply nodup_snoc; [exact Hu|]. intro Hin. apply in_map_iff in Hin.
    destruct Hin as [row [Heq Hrow]]. exact (Hfresh row Hrow Heq).
  - apply sorted_snoc; [exact Hi|]. apply Forall_map. exact Hb.
  - apply Forall_app. split.
    + apply (Forall_impl _ (fun r H => Z.le_trans _ _ _ H (Z.le_succ_diag_r _))).
      exact Hb.
    + constructor; [simpl; lia | constructor].
Qed.

Lemma Consistent_add_job (d : Database)
    (name schedule cmd description ts : string) :
  Consistent d -> jobNameExists name d = false ->
  Consistent (mkDatabase (tasks d) (tasks_seq d)
                (jobs d ++ [mkJobRow (jobs_seq d + 1) name schedule cmd
                                     description ts true None])
                (jobs_seq d + 1)).
Proof.
  intros [Hu [Hi [Hb [Hn [Hj Hjb]]]]] Hnew. unfold Consistent; simpl.
  rewrite !map_app; simpl. split; [|split; [|split; [|split; [|split]]]];
    try assumption.
  - apply nodup_snoc; [exact Hn|]. intro Hin. apply in_map_iff in Hin.
    destruct Hin as [j [Heq Hin]].
    rewrite (jobNameExists_true name d) in Hnew; [discriminate Hnew|].
    exists j. split; assumption.
  - apply sorted_snoc; [exact Hj|]. apply Forall_map. exact Hjb.
  - apply Forall_app. split.
    + apply (Forall_impl _ (fun r H => Z.le_trans _ _ _ H (Z.le_succ_diag_r _))).
      exact Hjb.
    + constructor; [simpl; lia | constructor].
Qed.

Lemma Extends_refl (d : Database) : Extends d d.
Proof.
  split; [exists []; rewrite app_nil_r; reflexivity|].
  split; [exists []; rewrite app_nil_r; reflexivity|].
  intros j Hin _. exact Hin.
Qed.

Lemma Extends_trans (d1 d2 d3 : Database) :
  Extends d1 d2 -> Extends d2 d3 -> Extends d1 d3.
Proof.
  intros [[t1 Ht1] [[j1 Hj1] Hk1]] [[t2 Ht2] [[j2 Hj2] Hk2]].
  split; [exists (t1 ++ t2)%list; rewrite Ht2, Ht1, app_assoc; reflexivity|].
  split; [exists (j1 ++ j2)%list; rewrite Hj2, Hj1, app_assoc; reflexivity|].
  intros j Hin Hoff. apply Hk2; [apply Hk1; assumption | exact Hoff].
Qed.

Lemma Extends_add_task (d : Database) (row : TaskRow) (n : Z) :
  Extends d (mkDatabase (tasks d ++ [row]) n (jobs d) (jobs_seq d)).
Proof.
  split; [exists [row]; reflexivity|].
  split; [exists []; rewrite app_nil_r; reflexivity|].
  intros j Hin _. exact Hin.
Qed.

Lemma Extends_add_job (d : Database) (j : JobRow) (n : Z) :
  Extends d (mkDatabase (tasks d) (tasks_seq d) (jobs d ++ [j]) n).
Proof.
  split; [exists []; rewrite app_nil_r; reflexivity|].
  split; [exists [disabled j]; simpl; rewrite map_app; reflexivity|].
  intros j' Hin _. simpl. apply in_or_app. left. exact Hin.
Qed.

Lemma disabled_off (j : JobRow) : job_status j = false -> disabled j = j.
Proof. destruct j; simpl. intros ->. reflexivity. Qed.

Lemma disabled_twice (j : JobRow) : disabled (disabled j) = disabled j.
Proof. reflexivity. Qed.

Section OperationFacts.

Variable Schedule : Type.
Variable ParseStandard : string -> Schedule + string.
Variable integerOfText : string -> option Z.

Lemma Extends_disableJob (jobID : string) (d : Database) :
  Extends d (disableJob integerOfText jobID d).
Proof.
  split; [exists []; rewrite app_nil_r; reflexivity|].
  split.
  - exists []. rewrite app_nil_r. simpl. rewrite map_map.
    apply map_ext. intro j. destruct (jobIdIs integerOfText jobID j); reflexivity.
  - intros j Hin Hoff. simpl. apply in_map_iff. exists j.
    split; [|exact Hin].
    destruct (jobIdIs integerOfText jobID j); [apply disabled_off; exact Hoff|].
    reflexivity.
Qed.

Lemma Consistent_disableJob (jobID : string) (d : Database) :
  Consistent d -> Consistent (disableJob integerOfText jobID d).
Proof.
  intros [Hu [Hi [Hb [Hn [Hj Hjb]]]]]. unfold Consistent; simpl.
  assert (Hname : map job_name
            (map (fun j => if jobIdIs integerOfText jobID j
                           then disabled j else j) (jobs d)) =
          map job_name (jobs d)).
  { rewrite map_map. apply map_ext. intro j.
    destruct (jobIdIs integerOfText jobID j); reflexivity. }
  assert (Hid : map job_id
            (map (fun j => if jobIdIs integerOfText jobID j
                           then disabled j else j) (jobs d)) =
          map job_id (jobs d)).
  { rewrite map_map. apply map_ext. intro j.
    destruct (jobIdIs integerOfText jobID j); reflexivity. }
  rewrite Hname, Hid.
  split; [|split; [|split; [|split; [|split]]]]; try assumption.
  apply Forall_map. apply (Forall_impl _ (fun j H => H)).
  apply Forall_forall. intros j Hin.
  rewrite Forall_forall in Hjb. specialize (Hjb j Hin).
  destruct (jobIdIs integerOfText jobID j); exact Hjb.
Qed.

(** What one action does to a process whose database is open: it
    returns, and the new database is the old one, or the old one with a
    new task row, with a new job row, or with some jobs disabled; the
    clocks are kept, and a submission may start one more. *)
Lemma perform_cases (a : Action) (p : Process Schedule) (d : Database) :
  db (world p) = Some d ->
  exists p' d',
    perform ParseStandard integerOfText a p = Returned p' /\
    db (world p') = Some d' /\
    ((d' = d /\ clocks p' = clocks p) \/
     (exists js, uidFresh (UID js) d /\ clocks p' = clocks p /\
        d' = mkDatabase (tasks d ++ [rowOf (tasks_seq d + 1) js])
                        (tasks_seq d + 1) (jobs d) (jobs_seq d)) \/
     (exists name schedule cmd description ts,
        jobNameExists name d = false /\
        d' = mkDatabase (tasks d) (tasks_seq d)
               (jobs d ++ [mkJobRow (jobs_seq d + 1) name schedule cmd
                                    description ts true None])
               (jobs_seq d + 1) /\
        (clocks p' = clocks p \/
         exists s, ParseStandard schedule = inl s /\
                   clocks p' = (clocks p ++ [mkCron [mkEntry s cmd]])%list)) \/
     (exists jobID, d' = disableJob integerOfText jobID d /\
                    clocks p' = clocks p)).
Proof.
  intro Hdb.
  assert (Hp : mkProcess (world p) (clocks p) = p) by (destruct p; reflexivity).
  assert (Hsame : exists p' d',
            Returned p = Returned p' /\ db (world p') = Some d' /\
            ((d' = d /\ clocks p' = clocks p) \/
             (exists js, uidFresh (UID js) d /\ clocks p' = clocks p /\
                d' = mkDatabase (tasks d ++ [rowOf (tasks_seq d + 1) js])
                                (tasks_seq d + 1) (jobs d) (jobs_seq d)) \/
             (exists name schedule cmd description ts,
                jobNameExists name d = false /\
                d' = mkDatabase (tasks d) (tasks_seq d)
                       (jobs d ++ [mkJobRow (jobs_seq d + 1) name schedule cmd
                                            description ts true None])
                       (jobs_seq d + 1) /\
                (clocks p' = clocks p \/
                 exists s, ParseStandard schedule = inl s /\
                   clocks p' = (clocks p ++ [mkCron [mkEntry s cmd]])%list)) \/
             (exists jobID, d' = disableJob integerOfText jobID d /\
                            clocks p' = clocks p))).
  { exists p, d. split; [reflexivity|]. split; [exact Hdb|].
    left. split; reflexivity. }
  destruct a as [cmd r endTime u|now r|r|r|now r|r]; simpl.
  - (* a job run *)
    set (js := newJobStatus cmd r endTime u).
    assert (Hjob : db (job cmd r endTime u (world p)) =
                   db (logJobStatusToDB js (world p)))
      by (unfold job; apply logJobStatus_db).
    destruct (logJobStatusToDB_db js (world p) d Hdb) as [Hold | [Hfresh Hnew]].
    + exists (mkProcess (job cmd r endTime u (world p)) (clocks p)), d.
      split; [reflexivity|]. split; [simpl; rewrite Hjob; exact Hold|].
      left. split; reflexivity.
    + eexists (mkProcess (job cmd r endTime u (world p)) (clocks p)), _.
      split; [reflexivity|]. split; [simpl; rewrite Hjob; exact Hnew|].
      right; left. exists js. split; [exact Hfresh|]. split; reflexivity.
  - (* a submission *)
    unfold submitJobHandler.
    destruct (negb (Method r =? "POST")); simpl; [exact Hsame|].
    destruct ((FormValue r "cron_expr" =? "") || (FormValue r "command" =? "") ||
              (FormValue r "job_name" =? "") ||
              (FormValue r "job_description" =? "")); simpl; [exact Hsame|].
    rewrite Hdb.
    destruct (jobNameExists (FormValue r "job_name") d) eqn:Hname; simpl;
      [exact Hsame|].
    unfold insertJob. rewrite Hname. unfold AddFunc.
    destruct (ParseStandard (FormValue r "cron_expr")) as [s|err] eqn:Hparse;
      simpl.
    + eexists _, _. split; [reflexivity|]. split; [reflexivity|].
      right; right; left. do 5 eexists. split; [exact Hname|].
      split; [reflexivity|]. right. exists s. split; [exact Hparse|].
      reflexivity.
    + eexists _, _. split; [reflexivity|]. split; [reflexivity|].
      right; right; left. do 5 eexists. split; [exact Hname|].
      split; [reflexivity|]. left. reflexivity.
  - (* a deletion *)
    unfold deleteJobHandler.
    destruct (negb (Method r =? "POST")); simpl; [exact Hsame|].
    destruct (ParseFormError r); simpl; [exact Hsame|].
    destruct (FormValue r "job_id" =? ""); simpl; [exact Hsame|].
    rewrite Hdb. simpl. eexists _, _. split; [reflexivity|].
    split; [reflexivity|].
    right; right; right. eexists. split; reflexivity.
  - (* a download *)
    unfold downloadLogHandler.
    destruct (queryGet r "task_uid" =? ""); simpl;
      [|rewrite Hdb; destruct (selectTaskByUid _ d); simpl];
      rewrite Hp; exact Hsame.
  - (* the status page *)
    unfold distinctCommandsHandler. rewrite Hdb. simpl.
    rewrite Hp. exact Hsame.
  - (* the delete page *)
    unfold deleteJobPageHandler, getJobs. rewrite Hdb. simpl.
    rewrite Hp. exact Hsame.
Qed.

Lemma perform_extends (a : Action) (p : Process Schedule) (d : Database) :
  db (world p) = Some d ->
  exists p' d',
    perform ParseStandard integerOfText a p = Returned p' /\
    db (world p') = Some d' /\ Extends d d' /\
    (Consistent d -> Consistent d') /\
    exists more, clocks p' = (clocks p ++ more)%list.
Proof.
  intro Hdb. destruct (perform_cases a p d Hdb)
    as [p' [d' [Hrun [Hdb' Hcases]]]].
  exists p', d'. split; [exact Hrun|]. split; [exact Hdb'|].
  destruct Hcases as [[-> Hc] | [[js [Hfresh [Hc ->]]]
                    | [[name [schedule [cmd [description [ts [Hnew [-> Hc]]]]]]]
                      | [jobID [-> Hc]]]]].
  - split; [apply Extends_refl|]. split; [tauto|].
    exists []. rewrite app_nil_r. exact Hc.
  - split; [apply Extends_add_task|].
    split; [intro H; apply Consistent_add_task; assumption|].
    exists []. rewrite app_nil_r. exact Hc.
  - split; [apply Extends_add_job|].
    split; [intro H; apply Consistent_add_job; assumption|].
    destruct Hc as [Hc | [s [_ Hc]]].
    + exists []. rewrite app_nil_r. exact Hc.
    + eexists. exact Hc.
  - split; [apply Extends_disableJob|].
    split; [apply Consistent_disableJob|].
    exists []. rewrite app_nil_r. exact Hc.
Qed.

(** X1: once [main] has opened the database, no sequence of job runs
    and requests makes a handler panic: every action returns and the
    database handle stays set. *)
Theorem open_database_never_panics
    (actions : list Action) (p : Process Schedule) (d : Database) :
  db (world p) = Some d ->
  exists p' d',
    performAll ParseStandard integerOfText actions p = Returned p' /\
    db (world p') = Some d'.
Proof.
  revert p d. induction actions as [|a actions IH]; intros p d Hdb; simpl.
  - exists p, d. split; [reflexivity | exact Hdb].
  - destruct (perform_extends a p d Hdb) as [p1 [d1 [Hrun [Hdb1 _]]]].
    rewrite Hrun. apply (IH p1 d1 Hdb1).
Qed.

(** X2: the actions keep the constraints of the tables: task uids and
    job names stay unique, and the keys stay in ascending order below
    the counters, whatever is submitted, deleted or run. *)
Theorem database_stays_consistent
    (actions : list Action) (p p' : Process Schedule) (d d' : Database) :
  db (world p) = Some d -> Consistent d ->
  performAll ParseStandard integerOfText actions p = Returned p' ->
  db (world p') = Some d' -> Consistent d'.
Proof.
  revert p d. induction actions as [|a actions IH]; intros p d Hdb Hc; simpl.
  - intros Hrun Hdb'. injection Hrun as <-. rewrite Hdb in Hdb'.
    injection Hdb' as <-. exact Hc.
  - destruct (perform_extends a p d Hdb) as [p1 [d1 [Hrun [Hdb1 [_ [Hc1 _]]]]]].
    rewrite Hrun. apply (IH p1 d1 Hdb1 (Hc1 Hc)).
Qed.

(** X3: nothing is ever taken away: after any actions the rows of
    [tasks] are still there, unchanged and in place, the rows of [jobs]
    are still there up to their status, a disabled job is still
    disabled, and every clock that was running still runs with the same
    entries. *)
Theorem history_only_grows
    (actions : list Action) (p p' : Process Schedule) (d d' : Database) :
  db (world p) = Some d ->
  performAll ParseStandard integerOfText actions p = Returned p' ->
  db (world p') = Some d' ->
  Extends d d' /\ exists more, clocks p' = (clocks p ++ more)%list.
Proof.
  revert p d. induction actions as [|a actions IH]; intros p d Hdb; simpl.
  - intros Hrun Hdb'. injection Hrun as <-. rewrite Hdb in Hdb'.
    injection Hdb' as <-. split; [apply Extends_refl|].
    exists []. rewrite app_nil_r. reflexivity.
  - destruct (perform_extends a p d Hdb)
      as [p1 [d1 [Hrun [Hdb1 [Hext [_ [more1 Hclocks]]]]]]].
    rewrite Hrun. intros Hrest Hdb'.
    destruct (IH p1 d1 Hdb1 Hrest Hdb') as [Hext' [more Hmore]].
    split; [apply (Extends_trans d d1 d'); assumption|].
    exists (more1 ++ more)%list. rewrite Hmore, Hclocks, app_assoc.
    reflexivity.
Qed.

Lemma perform_from_rows (a : Action) (p p' : Process Schedule) (d : Database) :
  db (world p) = Some d -> FromRows ParseStandard p ->
  perform ParseStandard integerOfText a p = Returned p' ->
  FromRows ParseStandard p'.
Proof.
  intros Hdb Hfrom Hrun.
  destruct (perform_cases a p d Hdb) as [p1 [d1 [Hrun1 [Hdb1 Hcases]]]].
  rewrite Hrun in Hrun1. injection Hrun1 as <-.
  assert (Hold : forall e, In e (armed p) ->
            exists j, In j (jobs d) /\
              ParseStandard (job_schedule j) = inl (entrySchedule e) /\
              job_command j = entryCmd e).
  { intros e He. destruct (Hfrom e He) as [d0 [j [Hd0 Hj]]].
    rewrite Hdb in Hd0. injection Hd0 as <-. exists j. exact Hj. }
  assert (Hkeep : clocks p' = clocks p ->
            (forall j, In j (jobs d) ->
               exists j', In j' (jobs d1) /\ job_schedule j' = job_schedule j /\
                          job_command j' = job_command j) ->
            FromRows ParseStandard p').
  { intros Hc Hrows e He. unfold armed in He. rewrite Hc in He.
    destruct (Hold e He) as [j [Hin [Hs Hcmd]]].
    destruct (Hrows j Hin) as [j' [Hin' [Hs' Hcmd']]].
    exists d1, j'. split; [exact Hdb1|]. split; [exact Hin'|].
    rewrite Hs', Hcmd'. split; assumption. }
  destruct Hcases as [[-> Hc] | [[js [Hfresh [Hc ->]]]
                    | [[name [schedule [cmd [description [ts [Hnew [-> Hc]]]]]]]
                      | [jobID [-> Hc]]]]].
  - apply (Hkeep Hc). intros j Hin. exists j. repeat split; assumption.
  - apply (Hkeep Hc). intros j Hin. exists j. repeat split; assumption.
  - destruct Hc as [Hc | [s [Hparse Hc]]].
    + apply (Hkeep Hc). intros j Hin. exists j. simpl.
      split; [apply in_or_app; left; exact Hin | split; reflexivity].
    + intros e He. unfold armed in He. rewrite Hc, flat_map_app in He.
      apply in_app_or in He. destruct He as [He | He].
      * destruct (Hold e He) as [j [Hin [Hs Hcmd]]].
        eexists _, j. split; [exact Hdb1|]. simpl.
        split; [apply in_or_app; left; exact Hin | split; assumption].
      * simpl in He. destruct He as [<- | []].
        eexists _, _. split; [exact Hdb1|]. simpl.
        split; [apply in_or_app; right; left; reflexivity|].
        simpl. split; [exact Hparse | reflexivity].
  - apply (Hkeep Hc). intros j Hin.
    exists (if jobIdIs integerOfText jobID j then disabled j else j).
    split; [simpl; apply in_map_iff; exists j; split; [reflexivity | exact Hin]|].
    destruct (jobIdIs integerOfText jobID j); split; reflexivity.
Qed.

Lemma activeEntries_from_rows (rows : list JobRow) (e : Entry Schedule) :
  In e (activeEntries ParseStandard rows) ->
  exists j, In j rows /\ job_status j = true /\
            ParseStandard (job_schedule j) = inl (entrySchedule e) /\
            job_command j = entryCmd e.
Proof.
  unfold activeEntries. intro H. apply in_flat_map in H.
  destruct H as [j [Hin He]]. exists j. split; [exact Hin|].
  destruct (job_status j); [|contradiction].
  destruct (ParseStandard (job_schedule j)) as [s|err] eqn:Hs; [|contradiction].
  destruct He as [<- | []]. simpl. repeat split.
Qed.

(** X4: from the start of the scheduler on, whatever is submitted,
    deleted or run, every entry armed in a running clock was parsed
    from the schedule of a row of [jobs] and carries that row's
    command: the clocks never dispatch a command that is not the
    command of a registered (possibly disabled) job. *)
Theorem dispatched_commands_are_registered
    (Due : Schedule -> Time -> bool) (now : Time) (w : World) (d : Database)
    (actions : list Action) :
  db w = Some d ->
  exists p0 p' d',
    startScheduler ParseStandard now w = Returned p0 /\
    performAll ParseStandard integerOfText actions p0 = Returned p' /\
    db (world p') = Some d' /\
    FromRows ParseStandard p' /\
    forall t cmd, In cmd (tick Due t p') ->
                  exists j, In j (jobs d') /\ job_command j = cmd.
Proof.
  intro Hdb.
  destruct (startScheduler_armed Schedule ParseStandard now w d Hdb)
    as [p0 [Hstart [Harmed Hdb0]]].
  assert (H0 : FromRows ParseStandard p0).
  { intros e He. rewrite Harmed in He.
    destruct (activeEntries_from_rows _ _ He) as [j [Hin [_ Hj]]].
    exists d, j. split; [exact Hdb0|]. split; [exact Hin | exact Hj]. }
  assert (Hall : forall acts p dd, db (world p) = Some dd ->
            FromRows ParseStandard p ->
            exists p' d', performAll ParseStandard integerOfText acts p
                            = Returned p' /\
                          db (world p') = Some d' /\ FromRows ParseStandard p').
  { induction acts as [|a acts IH]; intros p dd Hd Hf; simpl.
    - exists p, dd. split; [reflexivity|]. split; assumption.
    - destruct (perform_extends a p dd Hd) as [p1 [d1 [Hrun [Hd1 _]]]].
      rewrite Hrun. apply (IH p1 d1 Hd1).
      apply (perform_from_rows a p p1 dd Hd Hf Hrun). }
  destruct (Hall actions p0 d Hdb0 H0) as [p' [d' [Hrun [Hdb' Hfrom]]]].
  exists p0, p', d'. split; [exact Hstart|]. split; [exact Hrun|].
  split; [exact Hdb'|]. split; [exact Hfrom|].
  intros t cmd Hin. unfold tick in Hin. apply in_flat_map in Hin.
  destruct Hin as [c [Hc Hcmd]]. unfold dueCommands in Hcmd.
  apply in_map_iff in Hcmd. destruct Hcmd as [e [<- He]].
  apply filter_In in He. destruct He as [He _].
  assert (Harm : In e (armed p'))
    by (unfold armed; apply in_flat_map; exists c; split; assumption).
  destruct (Hfrom e Harm) as [d0 [j [Hd0 [Hj [_ Hcmd]]]]].
  rewrite Hdb' in Hd0. injection Hd0 as <-. exists j. split; assumption.
Qed.

End OperationFacts.

(** ** Requests and job runs: a concrete sequence *)

Lemma pingDatabase_consistent : Consistent pingDatabase.
Proof.
  unfold Consistent, pingDatabase; simpl.
  repeat split; repeat constructor; simpl; try tauto; lia.
Qed.

Lemma sampleOutcome_returned :
  sampleOutcome = Returned (processOf sampleOutcome) /\
  db (world (processOf sampleOutcome)) = Some (databaseOf sampleOutcome).
Proof. split; vm_compute; reflexivity. Qed.

Lemma open_database_never_panics_witness : sampleOutcome <> Panicked.
Proof.
  destruct (open_database_never_panics FieldSchedule specParseStandard
              decimalInteger sampleActions pingProcess pingDatabase eq_refl)
    as [p' [d' [Hrun _]]].
  unfold sampleOutcome. rewrite Hrun. discriminate.
Defined.

Lemma database_stays_consistent_witness :
  Consistent (databaseOf sampleOutcome).
Proof.
  apply (database_stays_consistent FieldSchedule specParseStandard
           decimalInteger sampleActions pingProcess (processOf sampleOutcome)
           pingDatabase (databaseOf sampleOutcome)).
  - reflexivity.
  - exact pingDatabase_consistent.
  - apply sampleOutcome_returned.
  - apply sampleOutcome_returned.
Defined.

Lemma history_only_grows_witness :
  Extends pingDatabase (databaseOf sampleOutcome).
Proof.
  apply (history_only_grows FieldSchedule specParseStandard
           decimalInteger sampleActions pingProcess (processOf sampleOutcome)
           pingDatabase (databaseOf sampleOutcome)).
  - reflexivity.
  - apply sampleOutcome_returned.
  - apply sampleOutcome_returned.
Defined.

Lemma dispatched_commands_are_registered_witness :
  FromRows specParseStandard (processOf sampleOutcome).
Proof.
  destruct (dispatched_commands_are_registered FieldSchedule specParseStandard
              decimalInteger specDue lastOfJanuary pingWorld pingDatabase
              sampleActions eq_refl)
    as [p0 [p' [d' [Hstart [Hrun [_ [Hfrom _]]]]]]].
  assert (Hp0 : p0 = pingProcess).
  { assert (H : Returned p0 = Returned pingProcess)
      by (rewrite <- Hstart; reflexivity).
    injection H as H. exact H. }
  subst p0.
  assert (Hp' : p' = processOf sampleOutcome).
  { unfold sampleOutcome. rewrite Hrun. reflexivity. }
  rewrite <- Hp'. exact Hfrom.
Defined.

(** ** Submitting, listing and deleting jobs *)

Lemma string_of_uint_not_empty (d : Decimal.uint) :
  NilZero.string_of_uint d <> "".
Proof. destruct d; simpl; discriminate. Qed.

Lemma fmtInt_not_empty (z : Z) : fmtInt z <> "".
Proof.
  unfold fmtInt, NilZero.string_of_int.
  destruct (Z.to_int z) as [d|d]; [apply string_of_uint_not_empty|discriminate].
Qed.

Section RegistryMoreFacts.

Variable Schedule : Type.
Variable ParseStandard : string -> Schedule + string.
Variable Due : Schedule -> Time -> bool.
Variable integerOfText : string -> option Z.

(** X5: a complete POST with a new name and a schedule that parses
    registers the job: the answer is the redirect to the index page, the
    row is appended to [jobs] as an active job under the next key, the
    job shows on the delete page after the jobs listed before, and from
    then on the command is dispatched at exactly the minutes at which
    its schedule is due, besides what was dispatched before.  The
    terminal and the log file are not written. *)
Theorem submitted_job_is_registered_and_armed
    (now : Time) (r : Request) (p : Process Schedule) (d : Database)
    (s : Schedule) :
  Method r = "POST" -> FormValue r "cron_expr" <> "" ->
  FormValue r "command" <> "" -> FormValue r "job_name" <> "" ->
  FormValue r "job_description" <> "" ->
  db (world p) = Some d ->
  jobNameExists (FormValue r "job_name") d = false ->
  ParseStandard (FormValue r "cron_expr") = inl s ->
  exists p' d',
    submitJobHandler ParseStandard now r p =
      Returned (Redirect "/" StatusSeeOther, p') /\
    db (world p') = Some d' /\
    jobs d' = (jobs d ++
               [mkJobRow (jobs_seq d + 1) (FormValue r "job_name")
                  (FormValue r "cron_expr") (FormValue r "command")
                  (FormValue r "job_description") (formatTime now) true None])%list /\
    tasks d' = tasks d /\
    getJobs (world p') =
      Returned (selectJobList d ++
                [mkJob (fmtInt (jobs_seq d + 1)) (FormValue r "job_name")])%list /\
    (forall t, tick Due t p' =
               (tick Due t p ++
                if Due s t then [FormValue r "command"] else [])%list) /\
    stdout (world p') = stdout (world p) /\
    logFile (world p') = logFile (world p).
Proof.
  intros Hm H1 H2 H3 H4 Hdb Hnew Hparse. unfold submitJobHandler.
  apply String.eqb_neq in H1, H2, H3, H4.
  rewrite Hm, H1, H2, H3, H4, Hdb, Hnew. simpl.
  unfold insertJob, AddFunc. rewrite Hnew, Hparse. simpl.
  eexists _, _. split; [reflexivity|]. simpl.
  split; [reflexivity|]. split; [reflexivity|]. split; [reflexivity|].
  split.
  - unfold getJobs, selectJobList; simpl.
    rewrite filter_app, map_app. reflexivity.
  - split; [|split; reflexivity].
    intro t. unfold tick; simpl. rewrite flat_map_app. simpl.
    unfold dueCommands at 2; simpl.
    destruct (Due s t); simpl; reflexivity.
Qed.

Lemma jobIdIs_disabled (jobID : string) (j : JobRow) :
  jobIdIs integerOfText jobID (disabled j) = jobIdIs integerOfText jobID j.
Proof. reflexivity. Qed.

Lemma disableJob_twice (jobID : string) (d : Database) :
  disableJob integerOfText jobID (disableJob integerOfText jobID d) =
  disableJob integerOfText jobID d.
Proof.
  unfold disableJob; simpl. f_equal. rewrite map_map. apply map_ext.
  intro j. destruct (jobIdIs integerOfText jobID j) eqn:H.
  - rewrite jobIdIs_disabled, H. reflexivity.
  - rewrite H. reflexivity.
Qed.

(** X6: deleting is idempotent: the same delete request served a second
    time gives the same answer and leaves the process exactly as the
    first time left it. *)
Theorem delete_is_idempotent
    (r : Request) (p p1 : Process Schedule) (resp : Response) :
  deleteJobHandler integerOfText r p = Returned (resp, p1) ->
  deleteJobHandler integerOfText r p1 = Returned (resp, p1).
Proof.
  unfold deleteJobHandler.
  destruct (negb (Method r =? "POST")); simpl.
  { intro H. injection H as <- <-. reflexivity. }
  destruct (ParseFormError r); simpl.
  { intro H. injection H as <- <-. reflexivity. }
  destruct (FormValue r "job_id" =? ""); simpl.
  { intro H. injection H as <- <-. reflexivity. }
  destruct (db (world p)) as [d|] eqn:Hdb; [|discriminate].
  intro H. injection H as <- <-. simpl.
  rewrite disableJob_twice. reflexivity.
Qed.

Lemma disableJob_no_match (jobID : string) (d : Database) :
  (forall j, In j (jobs d) -> jobIdIs integerOfText jobID j = false) ->
  disableJob integerOfText jobID d = d.
Proof.
  intro H. destruct d as [ts tseq js jseq]. unfold disableJob; simpl.
  f_equal. simpl in H. induction js as [|j js IH]; [reflexivity|].
  simpl. rewrite (H j (or_introl eq_refl)), IH; [reflexivity|].
  intros j' Hj'. apply H. right. exact Hj'.
Qed.

(** X7: a delete request for a key that no row carries (or for a text
    that is no integer) is answered with the same redirect as a
    successful deletion, and the tables and clocks are left as they
    were: a missing job is not reported. *)
Theorem delete_of_unknown_job_is_silent
    (r : Request) (p : Process Schedule) (d : Database) :
  Method r = "POST" -> ParseFormError r = false ->
  FormValue r "job_id" <> "" -> db (world p) = Some d ->
  (forall j, In j (jobs d) ->
             jobIdIs integerOfText (FormValue r "job_id") j = false) ->
  deleteJobHandler integerOfText r p =
    Returned (Redirect "/" StatusSeeOther, p).
Proof.
  intros Hm Hparse Hid Hdb Hnone. unfold deleteJobHandler.
  apply String.eqb_neq in Hid. rewrite Hm, Hparse, Hid, Hdb. simpl.
  rewrite (disableJob_no_match _ d Hnone).
  destruct p as [w cs]. simpl in Hdb. destruct w as [lf dbh out].
  simpl in Hdb. subst dbh. reflexivity.
Qed.

Lemma sorted_lt_head (x : Z) (l : list Z) :
  StronglySorted Z.lt (x :: l) -> ~ In x l.
Proof.
  intros H Hin. inversion H as [|x' l' _ Hall]; subst.
  rewrite Forall_forall in Hall. specialize (Hall x Hin). lia.
Qed.

(** The list of the delete page after a deletion: the entries whose key
    text differs from the deleted one. *)
Lemma selectJobList_disableJob (d : Database) (n : Z) (jobID : string) :
  integerOfText jobID = Some n ->
  selectJobList (disableJob integerOfText jobID d) =
  map (fun j => mkJob (fmtInt (job_id j)) (job_name j))
      (filter (fun j => job_status j && negb (job_id j =? n)%Z) (jobs d)).
Proof.
  intro Hn. unfold selectJobList, disableJob, jobIdIs; simpl. rewrite Hn.
  induction (jobs d) as [|j js IH]; [reflexivity|].
  simpl. destruct (job_id j =? n)%Z; simpl.
  - rewrite andb_false_r. exact IH.
  - rewrite andb_true_r. destruct (job_status j); simpl; rewrite IH; reflexivity.
Qed.

Lemma filter_other_keys (js : list JobRow) (n : Z) :
  StronglySorted Z.lt (map job_id js) ->
  (exists j, In j js /\ job_id j = n /\ job_status j = true) ->
  S (List.length (filter (fun j => job_status j && negb (job_id j =? n)%Z) js)) =
  List.length (filter job_status js).
Proof.
  induction js as [|j js IH]; intros Hs [j0 [Hin [Hid Hon]]]; [contradiction|].
  simpl in Hs. inversion Hs as [|x l Hsl Hall]; subst x l.
  simpl. destruct (Z.eqb_spec (job_id j) n) as [E|E].
  - (* the row itself: no later row has the key *)
    assert (Hj : job_status j = true).
    { destruct Hin as [<-|Hin]; [exact Hon|].
      exfalso. apply (sorted_lt_head _ _ Hs). rewrite E, <- Hid.
      apply in_map. exact Hin. }
    rewrite Hj. simpl. f_equal. f_equal.
    apply filter_ext_in. intros k Hk.
    destruct (Z.eqb_spec (job_id k) n) as [Ek|_]; [|rewrite andb_true_r; reflexivity].
    exfalso. apply (sorted_lt_head _ _ Hs). rewrite E, <- Ek.
    apply in_map. exact Hk.
  - destruct Hin as [<-|Hin]; [contradiction|].
    rewrite andb_true_r. destruct (job_status j); simpl;
      rewrite <- (IH Hsl); try reflexivity;
      exists j0; repeat split; assumption.
Qed.

(** X8: the delete page and the delete handler fit together: when the
    key text of a listed job is sent back as [job_id] (SQLite reading
    the decimal text as that key), the deletion succeeds, the job is no
    longer listed, it is the only entry that disappears, and every other
    listed job stays listed in the same order. *)
Theorem listed_job_can_be_deleted
    (r : Request) (p : Process Schedule) (d : Database) (j : JobRow) :
  Method r = "POST" -> ParseFormError r = false ->
  db (world p) = Some d -> Consistent d ->
  In j (jobs d) -> job_status j = true ->
  FormValue r "job_id" = fmtInt (job_id j) ->
  integerOfText (fmtInt (job_id j)) = Some (job_id j) ->
  exists p' listed,
    deleteJobHandler integerOfText r p =
      Returned (Redirect "/" StatusSeeOther, p') /\
    getJobs (world p') = Returned listed /\
    listed = map (fun k => mkJob (fmtInt (job_id k)) (job_name k))
                 (filter (fun k => job_status k && negb (job_id k =? job_id j)%Z)
                         (jobs d)) /\
    ~ In (job_name j) (map JobName listed) /\
    S (List.length listed) = List.length (selectJobList d).
Proof.
  intros Hm Hparse Hdb [_ [_ [_ [Hnames [Hids _]]]]] Hin Hon Hreq Hint.
  unfold deleteJobHandler.
  assert (Hne : (FormValue r "job_id" =? "") = false).
  { apply String.eqb_neq. rewrite Hreq. apply fmtInt_not_empty. }
  rewrite Hm, Hparse, Hne, Hdb. simpl. rewrite Hreq.
  eexists _, _. split; [reflexivity|]. unfold getJobs; simpl.
  split; [reflexivity|].
  rewrite (selectJobList_disableJob d (job_id j) _ Hint).
  split; [reflexivity|]. split.
  - rewrite map_map. simpl. intro Habs. apply in_map_iff in Habs.
    destruct Habs as [k [Hname Hk]]. apply filter_In in Hk.
    destruct Hk as [Hk Hcond]. apply andb_prop in Hcond.
    destruct Hcond as [_ Hother].
    assert (Hkj : k = j).
    { clear - Hnames Hin Hk Hname. induction (jobs d) as [|x xs IH];
        [contradiction|].
      simpl in Hnames. inversion Hnames as [|x' xs' Hx Hxs]; subst.
      destruct Hin as [<-|Hin], Hk as [<-|Hk]; try reflexivity.
      - exfalso. apply Hx. rewrite <- Hname. apply in_map. exact Hk.
      - exfalso. apply Hx. rewrite Hname. apply in_map. exact Hin.
      - apply IH; assumption. }
    subst k. rewrite Z.eqb_refl in Hother. discriminate Hother.
  - rewrite length_map. unfold selectJobList. rewrite length_map.
    apply filter_other_keys; [exact Hids|].
    exists j. repeat split; assumption.
Qed.

End RegistryMoreFacts.

(** ** Submitting, listing and deleting jobs: concrete cases *)

Lemma submitted_job_is_registered_and_armed_witness :
  tick specDue halfPastTwo nightlyProcess = ["echo ok"; "echo night"] /\
  tick specDue firstOfFebruary nightlyProcess = ["echo ok"].
Proof.
  destruct (submitted_job_is_registered_and_armed FieldSchedule
              specParseStandard specDue lastOfJanuary nightlyRequest
              pingProcess pingDatabase
              (mkFieldSchedule (Literal 30) (Literal 2) Any Any Any)
              eq_refl)
    as [p' [d' [Hrun [_ [_ [_ [_ [Htick _]]]]]]]];
    try discriminate; [reflexivity .. |].
  unfold nightlyProcess. rewrite Hrun. simpl.
  rewrite !Htick. split; reflexivity.
Defined.

Lemma delete_is_idempotent_witness :
  deleteJobHandler decimalInteger (deleteRequest "1") pingProcessDisabled =
  Returned (Redirect "/" StatusSeeOther, pingProcessDisabled).
Proof.
  apply (delete_is_idempotent FieldSchedule decimalInteger
           (deleteRequest "1") pingProcess).
  reflexivity.
Defined.

Lemma delete_of_unknown_job_is_silent_witness :
  deleteJobHandler decimalInteger (deleteRequest "42") pingProcess =
  Returned (Redirect "/" StatusSeeOther, pingProcess).
Proof.
  apply (delete_of_unknown_job_is_silent FieldSchedule decimalInteger
           (deleteRequest "42") pingProcess pingDatabase);
    try reflexivity; try discriminate.
  intros j [<- | []]. reflexivity.
Defined.

Lemma listed_job_can_be_deleted_witness :
  getJobs (world pingProcess) = Returned [mkJob "1" "ping"] /\
  getJobs (world pingProcessDisabled) = Returned [].
Proof.
  split; [reflexivity|].
  destruct (listed_job_can_be_deleted FieldSchedule decimalInteger
              (deleteRequest "1") pingProcess pingDatabase pingRow
              eq_refl eq_refl eq_refl pingDatabase_consistent
              (or_introl eq_refl) eq_refl eq_refl eq_refl)
    as [p' [listed [Hrun [Hlist [Hlisted _]]]]].
  assert (Hp : @Returned (Response * Process FieldSchedule)
                 (Redirect "/" StatusSeeOther, p') =
               Returned (Redirect "/" StatusSeeOther, pingProcessDisabled))
    by (rewrite <- Hrun; reflexivity).
  injection Hp as Hp. subst p'. rewrite Hlist, Hlisted. reflexivity.
Defined.

(** ** The status page *)

Lemma sorted_map {A B : Type} (R : B -> B -> Prop) (f : A -> B) (l : list A) :
  Sorted (fun a b => R (f a) (f b)) l -> Sorted R (map f l).
Proof.
  induction 1 as [|a l Hs IH Hhd]; simpl; constructor; [exact IH|].
  destruct Hhd; simpl; constructor. assumption.
Qed.

(** X9: what the status page shows for an open database: one row per
    distinct command of [tasks]; the two counters of a row are the
    numbers of Success and of Failure records of its command; the uid,
    last run and output of a row are those of one record of its
    command, whose timestamp text comes before that of no other record
    of the command (byte-wise order of the texts); the rows are ordered
    by that text, greatest first; and the download button is shown
    exactly for an output of more than two bytes.  The handler leaves
    the process state as it is. *)
Theorem status_page_lists_each_command_once
    (now : Time) (r : Request) (w : World) (d : Database) :
  db w = Some d ->
  exists views,
    distinctCommandsHandler now r w =
      Returned (IndexPage (formatTime now) (intervalOf r) views, w) /\
    Permutation (map View.Command views) (distinct (map command (tasks d))) /\
    NoDup (map View.Command views) /\
    Sorted (fun a b => textGe a b) (map View.LastRun views) /\
    forall v, In v views ->
      View.SuccessCount v = countRuns (View.Command v) "Success" (tasks d) /\
      View.FailureCount v = countRuns (View.Command v) "Failure" (tasks d) /\
      View.HasOutput v = (2 <? String.length (View.Output v))%nat /\
      (exists row, In row (tasks d) /\ command row = View.Command v /\
                   timestamp row = View.LastRun v /\
                   task_uid row = View.TaskUID v /\
                   output row = View.Output v) /\
      (forall row, In row (tasks d) -> command row = View.Command v ->
                   textGe (View.LastRun v) (timestamp row)).
Proof.
  intro Hdb. destruct (selectSummary_facts d) as [Hperm [Hnodup [Hsorted Hrows]]].
  exists (map viewOf (selectSummary d)).
  split; [unfold distinctCommandsHandler, intervalOf, getCurrentTime;
          rewrite Hdb; reflexivity|].
  assert (Hcmd : map View.Command (map viewOf (selectSummary d)) =
                 map sum_command (selectSummary d))
    by (rewrite map_map; reflexivity).
  rewrite Hcmd. split; [exact Hperm|]. split; [exact Hnodup|]. split.
  - rewrite map_map. apply (sorted_map (fun a b => textGe a b)). exact Hsorted.
  - intros v Hv. apply in_map_iff in Hv. destruct Hv as [s [<- Hs]].
    destruct (Hrows s Hs) as [Hok [Hfail [Hrow Hmax]]]. simpl.
    split; [exact Hok|]. split; [exact Hfail|]. split; [reflexivity|].
    split; assumption.
Qed.

Lemma status_page_lists_each_command_once_witness :
  map View.Command
      (map viewOf (selectSummary (databaseOf sampleOutcome))) = ["echo ok"].
Proof.
  destruct (status_page_lists_each_command_once lastOfJanuary
              (mkRequest "GET" [] [] false) (world (processOf sampleOutcome))
              (databaseOf sampleOutcome) (proj2 sampleOutcome_returned))
    as [views [Hpage [Hperm _]]].
  assert (Hviews : views = map viewOf (selectSummary (databaseOf sampleOutcome))).
  { unfold distinctCommandsHandler in Hpage.
    rewrite (proj2 sampleOutcome_returned) in Hpage.
    injection Hpage as Hv. symmetry. exact Hv. }
  rewrite <- Hviews. apply Permutation_sym in Hperm.
  apply Permutation_length_1_inv in Hperm. exact Hperm.
Defined.

(** *** The counters add up *)

Lemma sumCase_both (g : list TaskRow) :
  Forall (fun row => jobStatusText (status row)) g ->
  (sumCase "Success" g + sumCase "Failure" g)%Z = Z.of_nat (List.length g).
Proof.
  induction 1 as [|row g Hrow _ IH]; [reflexivity|].
  cbn [sumCase List.length]. rewrite Nat2Z.inj_succ, <- IH.
  destruct Hrow as [E | E]; rewrite E.
  - change ("Success" =? "Success") with true.
    change ("Success" =? "Failure") with false. cbv beta iota. lia.
  - change ("Failure" =? "Success") with false.
    change ("Failure" =? "Failure") with true. cbv beta iota. lia.
Qed.

Lemma groupRows_total (rows : list TaskRow) (cs : list string) :
  Forall (fun row => jobStatusText (status row)) rows ->
  totalRuns
    (map viewOf
       (flat_map (fun c => match groupOf c rows with
                           | [] => []
                           | first :: rest => [aggregate first rest]
                           end) cs)) =
  fold_right Z.add 0%Z (map (groupTotal rows) cs).
Proof.
  intro Hst. induction cs as [|c cs IH]; [reflexivity|].
  cbn [flat_map map fold_right]. rewrite map_app. unfold totalRuns in *.
  rewrite fold_right_app, IH. unfold groupTotal at 2.
  assert (Hg : Forall (fun row => jobStatusText (status row)) (groupOf c rows)).
  { apply Forall_forall. intros row Hin. apply groupOf_command in Hin.
    rewrite Forall_forall in Hst. apply Hst. apply Hin. }
  destruct (groupOf c rows) as [|first rest]; [simpl; lia|].
  cbn [map fold_right viewOf aggregate View.SuccessCount View.FailureCount
       success_count failure_count].
  rewrite <- (sumCase_both (first :: rest) Hg). lia.
Qed.

Lemma group_split (rows : list TaskRow) (c : string) (cs : list string) :
  ~ In c cs ->
  (groupTotal rows c +
   Z.of_nat (List.length
               (filter (fun row => existsb (String.eqb (command row)) cs) rows)))%Z =
  Z.of_nat (List.length
              (filter (fun row => existsb (String.eqb (command row)) (c :: cs))
                      rows)).
Proof.
  intro Hc. unfold groupTotal, groupOf. cbn [existsb].
  induction rows as [|row rows IH]; [reflexivity|].
  cbn [filter].
  destruct (String.eqb_spec (command row) c) as [E|E]; cbn [orb].
  - assert (Hno : existsb (String.eqb (command row)) cs = false).
    { destruct (existsb (String.eqb (command row)) cs) eqn:Hex; [|reflexivity].
      exfalso. apply existsb_exists in Hex. destruct Hex as [x [Hx Heq]].
      apply String.eqb_eq in Heq. apply Hc. rewrite <- E, Heq. exact Hx. }
    rewrite Hno. cbn [List.length]. rewrite !Nat2Z.inj_succ. lia.
  - destruct (existsb (String.eqb (command row)) cs); cbn [List.length];
      rewrite ?Nat2Z.inj_succ; lia.
Qed.

Lemma groups_partition (rows : list TaskRow) (cs : list string) :
  NoDup cs ->
  fold_right Z.add 0%Z (map (groupTotal rows) cs) =
  Z.of_nat (List.length
              (filter (fun row => existsb (String.eqb (command row)) cs) rows)).
Proof.
  induction 1 as [|c cs Hc _ IH]; simpl.
  - induction rows as [|row rows IHr]; [reflexivity | exact IHr].
  - rewrite IH. apply (group_split rows c cs Hc).
Qed.

Lemma totalRuns_perm (l l' : list View.t) :
  Permutation l l' -> totalRuns l = totalRuns l'.
Proof.
  unfold totalRuns. induction 1; simpl; lia.
Qed.

(** X10: when every record carries the status Success or Failure (the
    statuses that [job] writes), the counters of the status page add up
    to the number of records: each execution is counted once, in the
    row of its command. *)
Theorem status_counters_add_up
    (now : Time) (r : Request) (w : World) (d : Database) :
  db w = Some d ->
  Forall (fun row => jobStatusText (status row)) (tasks d) ->
  exists views,
    distinctCommandsHandler now r w =
      Returned (IndexPage (formatTime now) (intervalOf r) views, w) /\
    totalRuns views = Z.of_nat (List.length (tasks d)).
Proof.
  intros Hdb Hst. exists (map viewOf (selectSummary d)).
  split; [unfold distinctCommandsHandler, intervalOf, getCurrentTime;
          rewrite Hdb; reflexivity|].
  unfold selectSummary.
  rewrite (totalRuns_perm _ (map viewOf (groupRows (tasks d))))
    by (apply Permutation_map; apply orderByLastRunDesc_perm).
  unfold groupRows. rewrite (groupRows_total _ _ Hst).
  rewrite (groups_partition _ _ (distinct_NoDup _)).
  f_equal. f_equal.
  assert (Hall : forall rows0 cs,
            (forall row, In row rows0 -> In (command row) cs) ->
            filter (fun row => existsb (String.eqb (command row)) cs) rows0 = rows0).
  { induction rows0 as [|row rows0 IH]; intros cs Hin; [reflexivity|].
    simpl.
    assert (Hex : existsb (String.eqb (command row)) cs = true).
    { apply existsb_exists. exists (command row).
      split; [apply Hin; left; reflexivity | apply String.eqb_refl]. }
    rewrite Hex, IH; [reflexivity|]. intros x Hx. apply Hin. right. exact Hx. }
  apply Hall. intros row Hin. apply distinct_in. apply in_map. exact Hin.
Qed.

Lemma status_counters_add_up_witness :
  totalRuns (map viewOf (selectSummary (databaseOf sampleOutcome))) = 2%Z.
Proof.
  destruct (status_counters_add_up lastOfJanuary
              (mkRequest "GET" [] [] false) (world (processOf sampleOutcome))
              (databaseOf sampleOutcome) (proj2 sampleOutcome_returned))
    as [views [Hpage Htotal]].
  - repeat constructor; vm_compute; tauto.
  - assert (Hviews : views =
                     map viewOf (selectSummary (databaseOf sampleOutcome))).
    { unfold distinctCommandsHandler in Hpage.
      rewrite (proj2 sampleOutcome_returned) in Hpage.
      injection Hpage as Hv. symmetry. exact Hv. }
    rewrite <- Hviews, Htotal. reflexivity.
Defined.

(** *** A finished job on the status page *)

Lemma countRuns_snoc (cmd st : string) (rows : list TaskRow) (row : TaskRow) :
  countRuns cmd st (rows ++ [row]) =
  Z.add (countRuns cmd st rows)
        (if (command row =? cmd) && (status row =? st) then 1%Z else 0%Z).
Proof.
  unfold countRuns. rewrite filter_app, length_app, Nat2Z.inj_add. simpl.
  destruct ((command row =? cmd) && (status row =? st)); reflexivity.
Qed.

(** X11: a job that finished shows on the status page: with the database
    open and a fresh uid, the page served after [job] has a row for the
    command, and its counters are those of the records before the run
    with one more success when the run exited with status 0 and one
    more failure otherwise. *)
Theorem finished_job_is_counted
    (cmd : string) (r : RunResult) (endTime : Time) (u : UUID)
    (now : Time) (req : Request) (w : World) (d : Database) :
  db w = Some d -> uidFresh (uuidString u) d ->
  exists views v,
    distinctCommandsHandler now req (job cmd r endTime u w) =
      Returned (IndexPage (formatTime now) (intervalOf req) views,
                job cmd r endTime u w) /\
    In v views /\ View.Command v = cmd /\
    View.SuccessCount v =
      (countRuns cmd "Success" (tasks d) +
       match runError r with None => 1 | Some _ => 0 end)%Z /\
    View.FailureCount v =
      (countRuns cmd "Failure" (tasks d) +
       match runError r with None => 0 | Some _ => 1 end)%Z.
Proof.
  intros Hdb Hfresh.
  set (js := newJobStatus cmd r endTime u).
  set (d' := mkDatabase (tasks d ++ [rowOf (tasks_seq d + 1) js])
                        (tasks_seq d + 1) (jobs d) (jobs_seq d)).
  assert (Hdb' : db (job cmd r endTime u w) = Some d').
  { unfold job. rewrite logJobStatus_db. fold js.
    unfold logJobStatusToDB, insertTask. rewrite Hdb.
    rewrite (existsb_uid_false (UID js) d Hfresh). reflexivity. }
  destruct (selectSummary_facts d') as [Hperm [_ [_ Hrows]]].
  assert (Hcmd : In cmd (map sum_command (selectSummary d'))).
  { apply (Permutation_in _ (Permutation_sym Hperm)).
    apply distinct_in. simpl. rewrite map_app. apply in_or_app.
    right. left. reflexivity. }
  apply in_map_iff in Hcmd. destruct Hcmd as [s [Hs Hin]].
  destruct (Hrows s Hin) as [Hok [Hfail _]].
  exists (map viewOf (selectSummary d')), (viewOf s).
  split; [unfold distinctCommandsHandler, intervalOf, getCurrentTime;
          rewrite Hdb'; reflexivity|].
  split; [apply in_map; exact Hin|]. split; [exact Hs|].
  simpl. rewrite Hok, Hfail, Hs. simpl tasks. rewrite !countRuns_snoc.
  simpl command. simpl status. rewrite String.eqb_refl. simpl andb.
  destruct (runError r); split; reflexivity.
Qed.

Lemma finished_job_is_counted_witness :
  map (fun v => (View.Command v, View.SuccessCount v, View.FailureCount v))
      (map viewOf
         (selectSummary
            (databaseOf (Returned (mkProcess
               (job "echo ok" failedRun firstOfFebruary 9
                    (world (processOf sampleOutcome))) []))))) =
  [("echo ok", 1%Z, 2%Z)].
Proof.
  destruct (finished_job_is_counted "echo ok" failedRun firstOfFebruary 9
              lastOfJanuary (mkRequest "GET" [] [] false)
              (world (processOf sampleOutcome)) (databaseOf sampleOutcome)
              (proj2 sampleOutcome_returned))
    as [views [v [Hpage [Hin [Hc [Hok Hfail]]]]]].
  - intros row Hrow. vm_compute in Hrow.
    destruct Hrow as [<- | [<- | []]]; vm_compute; discriminate.
  - reflexivity.
Defined.
(** ** The fields of a job-file line *)

(** *** Reading runes *)

Lemma first_Lead (b : N) (sz : nat) (lo hi : N) :
  first b = Lead sz lo hi ->
  (sz = 2 \/ sz = 3 \/ sz = 4)%nat /\ (0x80 <= lo)%N /\ (hi <= 0xBF)%N.
Proof.
  unfold first.
  repeat match goal with
         | |- context [if ?c then _ else _] => destruct c
         end;
    intro H; inversion H; subst; repeat split; try lia; auto.
Qed.

Lemma first_continuation (b : N) : continuation b = true -> first b = Illegal.
Proof.
  unfold continuation, first. intro H. apply andb_prop in H.
  destruct H as [Hlo Hhi]. apply N.leb_le in Hlo. apply N.leb_le in Hhi.
  destruct (N.ltb_spec b 0x80); [lia|].
  destruct (N.ltb_spec b 0xC2); [reflexivity | lia].
Qed.

Lemma accepted_continuation (lo hi b : N) :
  (0x80 <= lo)%N -> (hi <= 0xBF)%N ->
  ((b <? lo) || (hi <? b))%N = false -> continuation b = true.
Proof.
  intros Hlo Hhi H. apply orb_false_elim in H. destruct H as [H1 H2].
  apply N.ltb_ge in H1. apply N.ltb_ge in H2. unfold continuation.
  apply andb_true_intro. split; apply N.leb_le; lia.
Qed.

Lemma IsSpace_RuneError : IsSpace RuneError = false.
Proof. reflexivity. Qed.

Lemma Decode_continuation (c : ascii) (rest : string) :
  continuation (byte c) = true ->
  DecodeRuneInString (String c rest) = (RuneError, 1%nat).
Proof.
  intro H. unfold DecodeRuneInString. rewrite (first_continuation _ H).
  reflexivity.
Qed.

Lemma space_freshStart (s : string) :
  IsSpace (fst (DecodeRuneInString s)) = true -> freshStart s.
Proof.
  destruct s as [|c rest]; [intros _; exact I|]. intro H. simpl.
  destruct (continuation (byte c)) eqn:Hc; [|reflexivity].
  rewrite (Decode_continuation c rest Hc) in H. discriminate H.
Qed.

Ltac decode_cases :=
  repeat match goal with
         | |- context [if ?c then _ else _] => destruct c eqn:?
         | H : context [if ?c then _ else _] |- _ => destruct c eqn:?
         end.

Ltac accept_absurd :=
  match goal with
  | Ha : ((?b <? ?lo) || (?hi <? ?b))%N = false,
    Hlo : (0x80 <= ?lo)%N, Hhi : (?hi <= 0xBF)%N,
    Hc : continuation ?b = false |- _ =>
      rewrite (accepted_continuation lo hi b Hlo Hhi Ha) in Hc; discriminate Hc
  | Hn : negb (continuation ?b) = false, Hc : continuation ?b = false |- _ =>
      rewrite Hc in Hn; discriminate Hn
  end.

(** What follows an encoding does not change how it is read, as long
    as it cannot continue it. *)
Lemma Decode_append (x y : string) :
  x <> "" -> freshStart y ->
  DecodeRuneInString (x ++ y) = DecodeRuneInString x.
Proof.
  intros Hx Hy. destruct x as [|c0 x1]; [contradiction|].
  cbn [append]. unfold DecodeRuneInString.
  destruct (first (byte c0)) as [| |sz lo hi] eqn:Hf; try reflexivity.
  destruct (first_Lead _ _ _ _ Hf) as [Hsz [Hlo Hhi]].
  destruct Hsz as [->|[->| ->]];
    destruct x1 as [|c1 [|c2 [|c3 x4]]];
    destruct y as [|d [|d1 [|d2 y3]]];
    cbn [append String.length byteAt String.get Nat.ltb Nat.leb freshStart]
      in *;
    decode_cases; try reflexivity; try discriminate; try accept_absurd.
Qed.

(** The bytes of a rune after its first are continuation bytes. *)
Lemma Decode_size (c0 : ascii) (rest : string) :
  contPrefix (snd (DecodeRuneInString (String c0 rest)) - 1) rest.
Proof.
  unfold DecodeRuneInString.
  destruct (first (byte c0)) as [| |sz lo hi] eqn:Hf; try exact I.
  destruct (first_Lead _ _ _ _ Hf) as [Hsz [Hlo Hhi]].
  destruct Hsz as [->|[->| ->]];
    destruct rest as [|c1 [|c2 [|c3 x4]]];
    cbn [String.length byteAt String.get Nat.ltb Nat.leb];
    decode_cases; cbn [snd Nat.sub contPrefix]; try exact I;
    repeat split;
    try (eapply accepted_continuation; eassumption);
    try (apply negb_false_iff; assumption).
Qed.

Lemma Decode_space (tail : string) :
  DecodeRuneInString (String " " tail) = (32%N, 1%nat).
Proof. reflexivity. Qed.

(** *** The spans of the loop *)

Lemma spanOf_split (s : string) : forall ahead,
  exists y, s = spanOf s ahead ++ y /\ freshStart y.
Proof.
  induction s as [|c rest IH]; intro ahead.
  - exists "". split; [reflexivity | exact I].
  - destruct ahead as [|k]; cbn [spanOf].
    + destruct (DecodeRuneInString (String c rest)) as [r size] eqn:Hd.
      destruct (IsSpace r) eqn:Hr.
      * exists (String c rest). split; [reflexivity|].
        apply space_freshStart. rewrite Hd. exact Hr.
      * destruct (IH (size - 1)%nat) as [y [Hy Hfresh]].
        exists y. split; [|exact Hfresh]. cbn [append]. rewrite <- Hy.
        reflexivity.
    + destruct (IH k) as [y [Hy Hfresh]].
      exists y. split; [|exact Hfresh]. cbn [append]. rewrite <- Hy.
      reflexivity.
Qed.

Lemma spanOf_spaceFree (s : string) : forall ahead,
  contPrefix ahead s -> spaceFree (spanOf s ahead) = true.
Proof.
  induction s as [|c rest IH]; intros ahead Hcont; [reflexivity|].
  destruct ahead as [|k]; cbn [spanOf].
  - destruct (DecodeRuneInString (String c rest)) as [r size] eqn:Hd.
    destruct (IsSpace r) eqn:Hr; [reflexivity|].
    cbn [spaceFree]. apply andb_true_intro. split.
    + destruct (spanOf_split rest (size - 1)) as [y [Hy Hfresh]].
      assert (Hsame : DecodeRuneInString (String c (spanOf rest (size - 1))) =
                      DecodeRuneInString (String c rest)).
      { rewrite Hy at 2.
        change (String c (spanOf rest (size - 1) ++ y))
          with (String c (spanOf rest (size - 1)) ++ y).
        symmetry. apply Decode_append; [discriminate | exact Hfresh]. }
      rewrite Hsame, Hd. cbn [fst]. rewrite Hr. reflexivity.
    + apply IH. pose proof (Decode_size c rest) as Hsize.
      rewrite Hd in Hsize. exact Hsize.
  - destruct Hcont as [Hc Hrest]. cbn [spaceFree].
    rewrite (Decode_continuation _ _ Hc). cbn [fst].
    rewrite IsSpace_RuneError. cbn [negb andb]. apply IH. exact Hrest.
Qed.

(** Where the loop stands with a span open, the field it returns next
    is that span and the bytes up to the next white space; and every
    field it returns after a start is clean. *)
Lemma fieldsLoop_fields (s : string) : forall ahead start,
  match start with
  | Some field =>
      exists more,
        fieldsLoop IsSpace s ahead start = (field ++ spanOf s ahead) :: more /\
        Forall cleanField more
  | None => Forall cleanField (fieldsLoop IsSpace s ahead None)
  end.
Proof.
  induction s as [|c rest IH]; intros ahead start.
  - destruct start as [field|]; cbn [fieldsLoop spanOf].
    + exists []. rewrite append_nil_r. split; [reflexivity | constructor].
    + constructor.
  - destruct ahead as [|k]; cbn [fieldsLoop spanOf].
    + destruct (DecodeRuneInString (String c rest)) as [r size] eqn:Hd.
      destruct (IsSpace r) eqn:Hr.
      * destruct start as [field|].
        -- exists (fieldsLoop IsSpace rest (size - 1) None).
           rewrite append_nil_r. split; [reflexivity|].
           apply (IH (size - 1)%nat None).
        -- apply (IH (size - 1)%nat None).
      * destruct start as [field|]; cbn [spanText].
        -- destruct (IH (size - 1)%nat (Some (field ++ String c "")))
             as [more [Hmore Hclean]].
           exists more. split; [|exact Hclean]. rewrite Hmore.
           rewrite append_assoc. reflexivity.
        -- destruct (IH (size - 1)%nat (Some ("" ++ String c "")))
             as [more [Hmore Hclean]].
           rewrite Hmore. constructor; [|exact Hclean].
           cbn [append]. split; [discriminate|].
           pose proof (spanOf_spaceFree (String c rest) 0 I) as Hfree.
           cbn [spanOf] in Hfree. rewrite Hd, Hr in Hfree. exact Hfree.
    + destruct start as [field|].
      * destruct (IH k (Some (field ++ String c "")))
          as [more [Hmore Hclean]].
        exists more. split; [|exact Hclean]. rewrite Hmore.
        rewrite append_assoc. reflexivity.
      * apply (IH k None).
Qed.

Lemma Fields_clean (s : string) : Forall cleanField (Fields s).
Proof. exact (fieldsLoop_fields s 0 None). Qed.

(** A blank ends whatever stands before it. *)
Lemma fieldsLoop_blank (a b : string) : forall ahead start,
  contPrefix ahead a ->
  fieldsLoop IsSpace (a ++ String " " b) ahead start =
    (fieldsLoop IsSpace a ahead start ++ fieldsLoop IsSpace b 0 None)%list.
Proof.
  induction a as [|c rest IH]; intros ahead start Hcont.
  - destruct ahead as [|k]; [|contradiction].
    cbn [append fieldsLoop]. rewrite Decode_space.
    change (IsSpace 32%N) with true. cbv iota.
    destruct start; reflexivity.
  - cbn [append]. destruct ahead as [|k]; cbn [fieldsLoop].
    + change (String c (rest ++ String " " b))
        with (String c rest ++ String " " b).
      rewrite Decode_append by (try discriminate; reflexivity).
      pose proof (Decode_size c rest) as Hsize.
      destruct (DecodeRuneInString (String c rest)) as [r size].
      cbn [snd] in Hsize.
      destruct (IsSpace r); [destruct start|]; rewrite IH by exact Hsize;
        reflexivity.
    + destruct Hcont as [_ Hcont]. apply IH. exact Hcont.
Qed.

Lemma Fields_blank (a b : string) :
  Fields (a ++ String " " b) = (Fields a ++ Fields b)%list.
Proof. apply (fieldsLoop_blank a b 0 None I). Qed.

Lemma fieldsLoop_last (t : string) : forall ahead field,
  spaceFree t = true -> contPrefix ahead t ->
  fieldsLoop IsSpace t ahead (Some field) = [field ++ t].
Proof.
  induction t as [|c rest IH]; intros ahead field Hfree Hcont.
  - cbn [fieldsLoop]. rewrite append_nil_r. reflexivity.
  - cbn [spaceFree] in Hfree. apply andb_prop in Hfree.
    destruct Hfree as [Hhead Hfree]. apply negb_true_iff in Hhead.
    destruct ahead as [|k]; cbn [fieldsLoop].
    + destruct (DecodeRuneInString (String c rest)) as [r size] eqn:Hd.
      cbn [fst] in Hhead. rewrite Hhead. cbn [spanText].
      rewrite IH; [rewrite append_assoc; reflexivity | exact Hfree |].
      pose proof (Decode_size c rest) as Hsize. rewrite Hd in Hsize.
      exact Hsize.
    + destruct Hcont as [_ Hcont].
      rewrite IH by assumption. rewrite append_assoc. reflexivity.
Qed.

Lemma Fields_field (t : string) : cleanField t -> Fields t = [t].
Proof.
  intros [Hne Hfree]. destruct t as [|c rest]; [contradiction|].
  unfold Fields, FieldsFunc. cbn [fieldsLoop].
  pose proof (Decode_size c rest) as Hsize.
  cbn [spaceFree] in Hfree. apply andb_prop in Hfree.
  destruct Hfree as [Hhead Hfree]. apply negb_true_iff in Hhead.
  destruct (DecodeRuneInString (String c rest)) as [r size].
  cbn [fst snd] in *. rewrite Hhead. cbn [spanText append].
  rewrite fieldsLoop_last by assumption. reflexivity.
Qed.

Lemma Fields_Join (l : list string) :
  Forall cleanField l -> Fields (Join l " ") = l.
Proof.
  unfold Join. induction l as [|x l IH]; intro H; [reflexivity|].
  inversion H as [|? ? Hx Hl]; subst.
  destruct l as [|y l'].
  - apply Fields_field. exact Hx.
  - assert (E : String.concat " " (x :: y :: l') =
                x ++ String " " (String.concat " " (y :: l')))
      by reflexivity.
    rewrite E.
    rewrite Fields_blank, IH by exact Hl.
    rewrite (Fields_field x Hx). reflexivity.
Qed.

Lemma Forall_firstn {A : Type} (P : A -> Prop) (n : nat) (l : list A) :
  Forall P l -> Forall P (firstn n l).
Proof.
  intro H. revert n. induction H as [|x l Hx _ IH]; intros [|n]; simpl;
    constructor; [exact Hx | apply IH].
Qed.

Lemma Forall_skipn {A : Type} (P : A -> Prop) (n : nat) (l : list A) :
  Forall P l -> Forall P (skipn n l).
Proof.
  intro H. revert n. induction H as [|x l Hx Hl IH]; intros [|n]; simpl;
    try constructor; try assumption. apply IH.
Qed.

Lemma Fields_singleSpaced (line : string) :
  Fields (singleSpaced line) = Fields line.
Proof.
  pose proof (Fields_clean line) as Hclean.
  unfold singleSpaced, cronExprOf, commandOf.
  set (A := Join (firstn 5 (Fields line)) " ").
  set (B := Join (skipn 5 (Fields line)) " ").
  change (Fields (A ++ String " " B) = Fields line).
  rewrite Fields_blank. unfold A, B. rewrite !Fields_Join.
  - apply firstn_skipn.
  - apply Forall_skipn, Hclean.
  - apply Forall_firstn, Hclean.
Qed.

(** X12: what [scheduleJobsFromFile] makes of a line with at least six
    fields: the cron expression handed to the parser splits again into
    exactly the first five fields of the line, and the command splits
    again into the remaining fields and is not empty; the white space
    of the line (runs of it, and the white space beyond ASCII that
    [strings.Fields] knows) leaves no trace in either. *)
Theorem line_splits_into_schedule_and_command (line : string) :
  (6 <= List.length (Fields line))%nat ->
  Fields (cronExprOf line) = firstn 5 (Fields line) /\
  List.length (Fields (cronExprOf line)) = 5%nat /\
  Fields (commandOf line) = skipn 5 (Fields line) /\
  commandOf line <> "" /\
  Fields (cronExprOf line ++ " " ++ commandOf line) = Fields line.
Proof.
  intro Hlen. pose proof (Fields_clean line) as Hclean.
  unfold cronExprOf, commandOf.
  assert (H5 : Fields (Join (firstn 5 (Fields line)) " ") =
               firstn 5 (Fields line))
    by (apply Fields_Join, Forall_firstn, Hclean).
  assert (Hrest : Fields (Join (skipn 5 (Fields line)) " ") =
                  skipn 5 (Fields line))
    by (apply Fields_Join, Forall_skipn, Hclean).
  split; [exact H5|]. split; [rewrite H5, length_firstn; lia|].
  split; [exact Hrest|]. split.
  - intro Habs. rewrite Habs in Hrest.
    change (Fields "") with (@nil string) in Hrest.
    apply (f_equal (@List.length string)) in Hrest.
    rewrite length_skipn in Hrest. simpl in Hrest. lia.
  - set (A := Join (firstn 5 (Fields line)) " ") in *.
    set (B := Join (skipn 5 (Fields line)) " ") in *.
    change (Fields (A ++ String " " B) = Fields line).
    rewrite Fields_blank, H5, Hrest. apply firstn_skipn.
Qed.

Lemma line_splits_into_schedule_and_command_witness :
  Fields (cronExprOf unicodeSpacedLine) = ["30"; "2"; "*"; "*"; "*"] /\
  commandOf unicodeSpacedLine <> "".
Proof.
  destruct (line_splits_into_schedule_and_command unicodeSpacedLine)
    as [H5 [_ [_ [Hcmd _]]]].
  - vm_compute. lia.
  - split; [rewrite H5; vm_compute; reflexivity | exact Hcmd].
Defined.

Section JobFileMoreFacts.

Variable Schedule : Type.
Variable ParseStandard : string -> Schedule + string.

(** X13: white space does not matter in a job file: a line and the same
    line with its fields separated by single spaces are handled alike
    by the loop of [scheduleJobsFromFile] when the line has at least six
    fields, whatever white space ([unicode.IsSpace]) separates them:
    the same entry is armed (or refused) and the same text is printed
    and logged. *)
Theorem white_space_in_job_lines_is_insignificant
    (line : string) (c : Cron Schedule) (w : World) :
  (6 <= List.length (Fields line))%nat ->
  scheduleLine ParseStandard (singleSpaced line) c w =
  scheduleLine ParseStandard line c w.
Proof.
  intro Hlen. unfold scheduleLine. rewrite Fields_singleSpaced.
  apply Nat.ltb_ge in Hlen. rewrite Hlen. reflexivity.
Qed.

Lemma scheduleLine_log (line : string) (c : Cron Schedule) (w : World)
    (content : string) :
  logFile w = Some content ->
  logFile (snd (scheduleLine ParseStandard line c w)) =
    Some (content ++ if hasSixFields line
                     then schedulerLineOf ParseStandard line else "") /\
  db (snd (scheduleLine ParseStandard line c w)) = db w /\
  stdout (snd (scheduleLine ParseStandard line c w)) =
    stdout w ++ reportOf ParseStandard line.
Proof.
  intro Hlog. unfold scheduleLine, reportOf, hasSixFields, schedulerLineOf,
    AddFunc, cronExprOf, commandOf.
  set (expr := Join (firstn 5 (Fields line)) " ").
  set (cmd := Join (skipn 5 (Fields line)) " ").
  destruct (List.length (Fields line) <? 6)%nat; cbn [negb snd].
  - cbn [print logFile db stdout]. rewrite Hlog, append_nil_r.
    repeat split; reflexivity.
  - destruct (ParseStandard expr) as [s|err]; cbn [snd];
      unfold writeSchedulerLine; cbn [print logFile db]; rewrite Hlog;
      cbn [setLogFile logFile db stdout]; repeat split; reflexivity.
Qed.

Lemma scheduleLines_log (lines : list string) :
  forall (c : Cron Schedule) (w : World) (content : string),
  logFile w = Some content ->
  logFile (snd (scheduleLines ParseStandard lines c w)) =
    Some (content ++
          String.concat ""
            (map (schedulerLineOf ParseStandard)
                 (filter hasSixFields lines))) /\
  db (snd (scheduleLines ParseStandard lines c w)) = db w /\
  stdout (snd (scheduleLines ParseStandard lines c w)) =
    stdout w ++ String.concat "" (map (reportOf ParseStandard) lines).
Proof.
  induction lines as [|l ls IH]; intros c w content Hlog;
    cbn [scheduleLines filter map].
  - cbn [String.concat snd]. rewrite !append_nil_r.
    repeat split; [exact Hlog | reflexivity..].
  - destruct (scheduleLine_log l c w content Hlog) as [Hl [Hd Hout]].
    destruct (scheduleLine ParseStandard l c w) as [c1 w1].
    cbn [snd] in Hl, Hd, Hout. destruct (IH c1 w1 _ Hl) as [Hls [Hds Houts]].
    rewrite Hls, Hds, Houts, Hout, Hd, concat_empty_cons, !append_assoc.
    split; [|split; reflexivity].
    destruct (hasSixFields l); cbn [map].
    + rewrite concat_empty_cons. reflexivity.
    + reflexivity.
Qed.

(** X14: what [scheduleJobsFromFile] reports with the log file open.
    The lines it handles are those of the file before the first line
    that does not fit into the scanner's buffer (all of them when every
    line fits), without their carriage returns.  For each of them with
    at least six fields the log file gains one line, in file order,
    saying that the job was scheduled or why it was not, and the
    terminal shows the same line; a shorter line is reported on the
    terminal only.  After them the terminal shows the error that ended
    the reading, if there was one.  The database is not touched, and
    when the file cannot be opened neither the clock nor the log file
    changes. *)
Theorem job_file_report_in_log
    (file : JobFile) (c : Cron Schedule) (w : World) (content : string) :
  logFile w = Some content ->
  db (snd (scheduleJobsFromFile ParseStandard c file w)) = db w /\
  match file with
  | OpenError err =>
      scheduleJobsFromFile ParseStandard c file w =
        (c, print ("Error opening file: " ++ err ++ nl) w)
  | Opened bytes readErr =>
      logFile (snd (scheduleJobsFromFile ParseStandard c file w)) =
        Some (content ++
              String.concat ""
                (map (schedulerLineOf ParseStandard)
                     (filter hasSixFields
                        (map dropCR (scannablePrefix (fileLines bytes)))))) /\
      stdout (snd (scheduleJobsFromFile ParseStandard c file w)) =
        stdout w ++
        String.concat ""
          (map (reportOf ParseStandard)
               (map dropCR (scannablePrefix (fileLines bytes)))) ++
        readReport bytes readErr
  end.
Proof.
  intro Hlog. destruct file as [err|bytes readErr].
  - split; reflexivity.
  - rewrite scheduleJobsFromFile_opened. unfold readReport.
    destruct (scheduleLines_log
                (map dropCR (scannablePrefix (fileLines bytes))) c w content
                Hlog) as [Hl [Hd Hout]].
    destruct (forallb scannable (fileLines bytes)); [destruct readErr|];
      cbn [snd print db logFile stdout]; rewrite Hl, Hd, Hout;
      rewrite ?append_assoc, ?append_nil_r; repeat split; reflexivity.
Qed.

End JobFileMoreFacts.

Lemma white_space_in_job_lines_is_insignificant_witness :
  scheduleLine specParseStandard "30 2 * * * echo last one" cronNew freshWorld =
  scheduleLine specParseStandard unicodeSpacedLine cronNew freshWorld.
Proof.
  apply (white_space_in_job_lines_is_insignificant FieldSchedule
           specParseStandard unicodeSpacedLine cronNew freshWorld).
  vm_compute. lia.
Defined.

Lemma job_file_report_in_log_witness :
  logFile (snd (scheduleJobsFromFile specParseStandard cronNew sampleJobFile
                                     freshWorld)) =
  Some ("Scheduled job: echo first with cron expression: * * * * *" ++ nl ++
        "Error scheduling job: hour field out of range: 24" ++ nl ++
        "Scheduled job: echo last one with cron expression: 30 2 * * *" ++ nl).
Proof.
  destruct (job_file_report_in_log FieldSchedule specParseStandard
              sampleJobFile cronNew freshWorld "" eq_refl) as [_ [Hlog _]].
  exact Hlog.
Defined.

(** ** Concurrent recording comes to an end *)

Lemma workLeft_middle (m : bool) (before after : list Goroutine)
    (g : Goroutine) (tr : list Event) :
  workLeft (mkConfig m (before ++ g :: after) tr) =
  List.length (code g) +
  workLeft (mkConfig m (before ++ after) tr).
Proof.
  unfold workLeft; simpl. rewrite !map_app, !list_sum_app. simpl. lia.
Qed.

(** Every step uses up one instruction. *)
Lemma step_workLeft (c c' : Config) :
  step c c' -> workLeft c = S (workLeft c').
Proof.
  intro H. destruct H as [before g rest after tr Hcode
                         |before g rest after tr Hcode
                         |m before g k s rest after tr Hcode];
    rewrite !workLeft_middle, Hcode; simpl; unfold workLeft; reflexivity.
Qed.

Lemma finished_workLeft (c : Config) : finished c <-> workLeft c = 0.
Proof.
  unfold finished, workLeft. induction (pool c) as [|g gs IH]; simpl.
  - split; [reflexivity | constructor].
  - split.
    + intro H. inversion H as [|g' gs' Hg Hgs]; subst.
      rewrite Hg. simpl. apply IH. exact Hgs.
    + intro H. assert (Hg : List.length (code g) = 0) by lia.
      constructor; [destruct (code g); [reflexivity | discriminate Hg]|].
      apply IH. lia.
Qed.

Lemma steps_trans (c1 c2 c3 : Config) :
  steps c1 c2 -> steps c2 c3 -> steps c1 c3.
Proof.
  intros H12 H23. induction H23 as [c|c2 c3 c4 _ IH Hstep]; [exact H12|].
  apply (StepsSnoc c1 c3 c4); [apply IH; exact H12 | exact Hstep].
Qed.

(** X15: the recorder goroutines never deadlock and never starve each
    other for good: from every configuration they can reach, the run can
    be continued until every goroutine has executed all its
    instructions. *)
Theorem recording_can_always_complete
    (h : Handles) (programs : list (nat * list Call)) (c : Config) :
  steps (launch h programs) c ->
  exists c', steps c c' /\ finished c'.
Proof.
  remember (workLeft c) as n eqn:Hn. revert c Hn.
  induction n as [|n IH]; intros c Hn Hreach.
  - exists c. split; [apply StepsRefl|]. apply finished_workLeft.
    symmetry. exact Hn.
  - assert (Hnot : ~ finished c).
    { intro Hfin. apply finished_workLeft in Hfin. lia. }
    destruct (recorder_can_proceed h programs c Hreach Hnot) as [c1 Hstep].
    assert (Hwork : n = workLeft c1).
    { apply step_workLeft in Hstep. lia. }
    destruct (IH c1 Hwork (StepsSnoc _ _ _ Hreach Hstep)) as [c' [Hrun Hfin]].
    exists c'. split; [|exact Hfin].
    apply (steps_trans c c1 c'); [|exact Hrun].
    apply (StepsSnoc c c c1); [apply StepsRefl | exact Hstep].
Qed.

Lemma recording_can_always_complete_witness :
  exists c', steps (initial bothOpen [failedStatus; okStatus]) c' /\ finished c'.
Proof.
  apply (recording_can_always_complete bothOpen
           (jobPrograms 0 [failedStatus; okStatus])).
  apply StepsRefl.
Defined.

(** ** The variant with one log file per task *)

Lemma length_append (a b : string) :
  String.length (a ++ b) = String.length a + String.length b.
Proof. induction a as [|x a IH]; simpl; [reflexivity | rewrite IH; reflexivity]. Qed.

Lemma append_inv_tail (c : string) : forall a b, a ++ c = b ++ c -> a = b.
Proof.
  induction a as [|x a IH]; intros [|y b] H; simpl in H.
  - reflexivity.
  - exfalso. apply (f_equal String.length) in H. simpl in H.
    rewrite length_append in H. lia.
  - exfalso. apply (f_equal String.length) in H. simpl in H.
    rewrite length_append in H. lia.
  - injection H as -> H. rewrite (IH b H). reflexivity.
Qed.

Lemma taskLogFilePath_inj (a b : string) :
  taskLogFilePath a = taskLogFilePath b -> a = b.
Proof.
  unfold taskLogFilePath. simpl. intro H. injection H as H.
  apply (append_inv_tail ".log"). exact H.
Qed.

Lemma logJobStatusWithFile_open (js : JobStatus) (t : TaskLogs) :
  logFile (globals t) <> None ->
  logFile (globals (logJobStatusWithFile js t)) <> None /\
  files (logJobStatusWithFile js t) =
    (taskLogFilePath (UID js), logLineOf js) :: files t.
Proof.
  unfold logJobStatusWithFile. destruct (logFile (globals t)) as [content|];
    [|intro H; contradiction]. intros _. simpl. split; [discriminate | reflexivity].
Qed.

Lemma logAllWithFile_keeps (later : list JobStatus) : forall t uid content,
  logFile (globals t) <> None ->
  Forall (fun js => UID js <> uid) later ->
  readFile (taskLogFilePath uid) (files t) = Some content ->
  readFile (taskLogFilePath uid) (files (logAllWithFile later t)) = Some content.
Proof.
  induction later as [|js later IH]; intros t uid content Hopen Hother Hread;
    [exact Hread|].
  inversion Hother as [|js' later' Hjs Hlater]; subst.
  destruct (logJobStatusWithFile_open js t Hopen) as [Hopen' Hfiles].
  simpl. apply IH; [exact Hopen' | exact Hlater|].
  rewrite Hfiles. cbn [readFile].
  destruct (String.eqb_spec (taskLogFilePath (UID js)) (taskLogFilePath uid))
    as [E|_]; [|exact Hread].
  exfalso. apply Hjs. apply taskLogFilePath_inj. exact E.
Qed.

(** X17: in the variant that keeps one log file per task, the download
    handler serves exactly the text that [logJobStatus] wrote for the
    record (the log line, with the output block of a failure), also
    after records with other uids were logged; the log-file handle has
    to be set, since with a nil handle [logJobStatus] returns before it
    writes the task file. *)
Theorem task_file_round_trip
    (js : JobStatus) (u : UUID) (t : TaskLogs) (later : list JobStatus)
    (r : Request) :
  UID js = uuidString u ->
  queryGet r "task_id" = UID js ->
  Forall (fun js' => UID js' <> UID js) later ->
  (logFile (globals t) <> None ->
   downloadLogFileHandler r (logAllWithFile later (logJobStatusWithFile js t)) =
     Attachment (UID js ++ ".log") (logLineOf js)) /\
  (logFile (globals t) = None -> logJobStatusWithFile js t = t).
Proof.
  intros Huid Hreq Hother. split.
  - intro Hopen.
    destruct (logJobStatusWithFile_open js t Hopen) as [Hopen' Hfiles].
    unfold downloadLogFileHandler. rewrite Hreq.
    assert (Hne : (UID js =? "") = false).
    { apply String.eqb_neq. rewrite Huid. apply uuidString_not_empty. }
    rewrite Hne.
    rewrite (logAllWithFile_keeps later _ (UID js) (logLineOf js) Hopen' Hother);
      [reflexivity|].
    rewrite Hfiles. cbn [readFile]. rewrite String.eqb_refl. reflexivity.
  - intro Hnil. unfold logJobStatusWithFile. rewrite Hnil. reflexivity.
Qed.

Lemma task_file_round_trip_witness :
  downloadLogFileHandler (taskLogRequest (UID failedStatus))
    (logAllWithFile [okStatus] (logJobStatusWithFile failedStatus freshTaskLogs)) =
  Attachment (UID failedStatus ++ ".log") (logLineOf failedStatus).
Proof.
  destruct (task_file_round_trip failedStatus 7 freshTaskLogs [okStatus]
              (taskLogRequest (UID failedStatus)) eq_refl eq_refl)
    as [Hopen _].
  - constructor; [vm_compute; discriminate | constructor].
  - apply Hopen. discriminate.
Defined.

(** ** More on recording and fetching *)

(** X18: a uid that is already in [tasks] (the UNIQUE column refuses
    the INSERT): [job] leaves the database as it was and prints the
    error of the INSERT, but still writes the entry of the record to
    the log file, so the two sinks differ by this record. *)
Theorem duplicate_uid_is_logged_but_not_stored
    (cmd : string) (r : RunResult) (endTime : Time) (u : UUID) (w : World)
    (d : Database) (content : string) :
  db w = Some d -> logFile w = Some content ->
  (exists row, In row (tasks d) /\ task_uid row = uuidString u) ->
  let js := newJobStatus cmd r endTime u in
  db (job cmd r endTime u w) = Some d /\
  logFile (job cmd r endTime u w) = Some (content ++ logLineOf js) /\
  stdout (job cmd r endTime u w) =
    stdout w ++
    "Error inserting into database: UNIQUE constraint failed: tasks.task_uid"
    ++ nl ++ logLineOf js.
Proof.
  intros Hdb Hlog [row [Hin Huid]] js.
  assert (Hex : existsb (fun r0 => task_uid r0 =? UID js) (tasks d) = true).
  { apply existsb_exists. exists row. split; [exact Hin|].
    apply String.eqb_eq. exact Huid. }
  assert (Hw : logJobStatusToDB js w =
               print ("Error inserting into database: " ++
                      "UNIQUE constraint failed: tasks.task_uid" ++ nl) w).
  { unfold logJobStatusToDB, insertTask. rewrite Hdb, Hex. reflexivity. }
  unfold job. fold js. rewrite Hw. unfold logJobStatus. simpl.
  rewrite Hlog. simpl. split; [exact Hdb|]. split; [reflexivity|].
  rewrite !append_assoc. reflexivity.
Qed.

Lemma duplicate_uid_is_logged_but_not_stored_witness :
  db (job "exit 1" failedRun firstOfFebruary 1 (world (processOf sampleOutcome)))
  = db (world (processOf sampleOutcome)).
Proof.
  destruct (duplicate_uid_is_logged_but_not_stored
              "exit 1" failedRun firstOfFebruary 1
              (world (processOf sampleOutcome)) (databaseOf sampleOutcome)
              (match logFile (world (processOf sampleOutcome)) with
               | Some c => c
               | None => ""
               end)
              (proj2 sampleOutcome_returned)) as [Hdb _].
  - vm_compute. reflexivity.
  - eexists. split; [left; reflexivity | vm_compute; reflexivity].
  - rewrite Hdb. symmetry. apply sampleOutcome_returned.
Defined.

(** X19: the log file is the sequence of the entries: when records are
    recorded one after the other with the log file open, the file grows
    by their log texts in that order, whatever the database does with
    the records (stored, refused, or no database at all). *)
Theorem log_file_collects_entries_in_order
    (later : list JobStatus) (w : World) (content : string) :
  logFile w = Some content ->
  logFile (recordAll later w) =
    Some (content ++ String.concat "" (map logLineOf later)).
Proof.
  revert w content. induction later as [|js later IH]; intros w content Hlog.
  - simpl. rewrite append_nil_r. exact Hlog.
  - cbn [recordAll fold_left map]. rewrite concat_empty_cons.
    fold (recordAll later (logJobStatus js (logJobStatusToDB js w))).
    rewrite (IH _ (content ++ logLineOf js)).
    + rewrite append_assoc. reflexivity.
    + unfold logJobStatus. rewrite logJobStatusToDB_logFile, Hlog. reflexivity.
Qed.

Lemma log_file_collects_entries_in_order_witness :
  logFile (recordAll [failedStatus; okStatus; failedStatus] freshWorld) =
  Some (logLineOf failedStatus ++ logLineOf okStatus ++ logLineOf failedStatus).
Proof.
  rewrite (log_file_collects_entries_in_order
             [failedStatus; okStatus; failedStatus] freshWorld "" eq_refl).
  reflexivity.
Defined.

Lemma unique_uid_finds_row (rows : list TaskRow) (row : TaskRow) :
  NoDup (map task_uid rows) -> In row rows ->
  find (fun r => task_uid r =? task_uid row) rows = Some row.
Proof.
  induction rows as [|x rows IH]; intros Hnd Hin; [contradiction|].
  simpl in Hnd. inversion Hnd as [|x' l Hx Hrest]; subst.
  simpl. destruct (String.eqb_spec (task_uid x) (task_uid row)) as [E|E].
  - destruct Hin as [->|Hin]; [reflexivity|].
    exfalso. apply Hx. rewrite E. apply in_map. exact Hin.
  - destruct Hin as [->|Hin]; [contradiction|]. apply IH; assumption.
Qed.

(** X20: in a consistent database every record can be told apart by its
    uid: for each row of [tasks] with a non-empty uid the download
    handler serves the attachment of that very row, named after the
    uid, and leaves the state as it is. *)
Theorem download_serves_the_record
    (r : Request) (w : World) (d : Database) (row : TaskRow) :
  db w = Some d -> Consistent d -> In row (tasks d) ->
  task_uid row <> "" -> queryGet r "task_uid" = task_uid row ->
  downloadLogHandler r w =
    Returned (Attachment (task_uid row ++ ".log")
                (logContentOf (mkJobStatus (task_uid row) (id row)
                                 (command row) (timestamp row) (status row)
                                 (output row))), w).
Proof.
  intros Hdb [Hnd _] Hin Hne Hreq. unfold downloadLogHandler.
  apply String.eqb_neq in Hne. rewrite Hreq, Hne, Hdb.
  unfold selectTaskByUid. rewrite (unique_uid_finds_row _ _ Hnd Hin).
  reflexivity.
Qed.

Lemma sampleDatabase_consistent : Consistent (databaseOf sampleOutcome).
Proof.
  unfold Consistent. vm_compute.
  repeat split;
    repeat (constructor;
            try (intro H; repeat destruct H as [H|H]; try discriminate H;
                 try contradiction);
            try lia);
    try discriminate.
Qed.

Lemma download_serves_the_record_witness :
  downloadLogHandler (downloadRequest (uuidString 2))
                     (world (processOf sampleOutcome)) =
  Returned (Attachment (uuidString 2 ++ ".log")
              (logContentOf (newJobStatus "echo ok" failedRun firstOfFebruary 2)),
            world (processOf sampleOutcome)).
Proof.
  apply (download_serves_the_record (downloadRequest (uuidString 2))
           (world (processOf sampleOutcome)) (databaseOf sampleOutcome)
           (rowOf 2 (newJobStatus "echo ok" failedRun firstOfFebruary 2))).
  - apply sampleOutcome_returned.
  - exact sampleDatabase_consistent.
  - right. left. reflexivity.
  - vm_compute. discriminate.
  - reflexivity.
Defined.

(** ** Starting the scheduler from the table *)

Section StartFacts.

Variable Schedule : Type.
Variable ParseStandard : string -> Schedule + string.

Lemma scheduleRows_stdout (rows : list JobRow) :
  forall (c : Cron Schedule) (w : World),
  stdout (snd (scheduleRows ParseStandard
                 (map (fun j => (job_schedule j, job_command j)) rows) c w)) =
  stdout w ++ String.concat "" (map (tableLineOf ParseStandard) rows) /\
  logFile (snd (scheduleRows ParseStandard
                  (map (fun j => (job_schedule j, job_command j)) rows) c w)) =
  logFile w.
Proof.
  induction rows as [|j rows IH]; intros c w.
  - simpl. rewrite append_nil_r. split; reflexivity.
  - cbn [map scheduleRows]. rewrite concat_empty_cons.
    unfold tableLineOf at 1. unfold AddFunc.
    destruct (ParseStandard (job_schedule j)) as [s|err].
    + destruct (IH (mkCron (entries c ++ [mkEntry s (job_command j)]))
                   (print ("Scheduled job: " ++ job_command j ++
                           " with cron expression: " ++ job_schedule j ++ nl) w))
        as [Hout Hlog].
      rewrite Hout, Hlog. cbn [print stdout logFile].
      rewrite !append_assoc. split; reflexivity.
    + destruct (IH c (print ("Error scheduling job: " ++ err ++ nl) w))
        as [Hout Hlog].
      rewrite Hout, Hlog. cbn [print stdout logFile].
      rewrite !append_assoc. split; reflexivity.
Qed.

(** X21: the start of the scheduler goes through all active rows of
    [jobs]: every active row whose schedule parses is armed in the one
    clock, in table order, a row whose schedule does not parse is left
    out with an error line on the terminal and does not keep the rows
    after it from being armed, and disabled rows are not looked at.
    The terminal gets one line per active row and the start message,
    the open log file gets the start message only, and the database is
    not changed. *)
Theorem start_arms_every_parsable_active_row
    (now : Time) (w : World) (d : Database) (content : string) :
  db w = Some d -> logFile w = Some content ->
  exists p,
    startScheduler ParseStandard now w = Returned p /\
    clocks p = [mkCron (activeEntries ParseStandard (jobs d))] /\
    (forall j s, In j (jobs d) -> job_status j = true ->
                 ParseStandard (job_schedule j) = inl s ->
                 In (mkEntry s (job_command j)) (armed p)) /\
    db (world p) = Some d /\
    stdout (world p) =
      stdout w ++
      String.concat "" (map (tableLineOf ParseStandard)
                            (filter job_status (jobs d))) ++
      "[" ++ formatTime now ++ "] Scheduler has started" ++ nl /\
    logFile (world p) =
      Some (content ++ "[" ++ formatTime now ++ "] Scheduler has started" ++ nl).
Proof.
  intros Hdb Hlog. unfold startScheduler, scheduleJobsFromTable. rewrite Hdb.
  unfold selectActiveJobs.
  pose proof (scheduleRows_entries Schedule ParseStandard
                (map (fun j => (job_schedule j, job_command j))
                     (filter job_status (jobs d))) cronNew w) as Hent.
  destruct (scheduleRows_stdout (filter job_status (jobs d)) cronNew w)
    as [Hout Hlg].
  pose proof (scheduleRows_db Schedule ParseStandard
                (map (fun j => (job_schedule j, job_command j))
                     (filter job_status (jobs d))) cronNew w) as Hd.
  destruct (scheduleRows ParseStandard _ cronNew w) as [c w'].
  simpl in Hent, Hout, Hlg, Hd.
  assert (Hc : entries c = activeEntries ParseStandard (jobs d)).
  { rewrite Hent. apply (selectActiveJobs_entries Schedule ParseStandard d). }
  eexists. split; [reflexivity|]. simpl.
  split; [destruct c as [es]; simpl in Hc; rewrite Hc; reflexivity|].
  split.
  { intros j s Hin Hon Hparse. unfold armed; simpl. rewrite app_nil_r, Hc.
    unfold activeEntries. apply in_flat_map. exists j. split; [exact Hin|].
    rewrite Hon, Hparse. left. reflexivity. }
  unfold logSchedulerStart. simpl. rewrite Hlg, Hlog. simpl.
  split; [rewrite Hd; exact Hdb|]. split.
  - rewrite Hout, !append_assoc. reflexivity.
  - reflexivity.
Qed.

End StartFacts.

Lemma start_arms_every_parsable_active_row_witness :
  option_map (fun p => map entryCmd (armed p))
    (match startScheduler specParseStandard lastOfJanuary mixedWorld with
     | Returned p => Some p
     | Panicked => None
     end) = Some ["echo ok"; "echo night"].
Proof.
  destruct (start_arms_every_parsable_active_row FieldSchedule
              specParseStandard lastOfJanuary mixedWorld
              (mkDatabase [] 0
                 [pingRow; badMinuteRow;
                  mkJobRow 3 "nightly" "30 2 * * *" "echo night"
                           "runs at night" "31-01-2024 10:00:00" true None] 3)
              "" eq_refl eq_refl)
    as [p [Hstart [Hclocks _]]].
  rewrite Hstart. simpl. unfold armed. rewrite Hclocks. reflexivity.
Defined.

(** ** Registering, restarting, deleting: how they compose *)

Section ComposeFacts.

Variable Schedule : Type.
Variable ParseStandard : string -> Schedule + string.
Variable Due : Schedule -> Time -> bool.
Variable integerOfText : string -> option Z.

Lemma activeEntries_app (rows rows' : list JobRow) :
  activeEntries ParseStandard (rows ++ rows') =
  (activeEntries ParseStandard rows ++ activeEntries ParseStandard rows')%list.
Proof. unfold activeEntries. apply flat_map_app. Qed.

(** X22: a registered job survives a restart: after a complete POST
    with a new name and a schedule that parses, a start of the scheduler
    on the state the handler left arms what the table armed before,
    followed by the entry of the new job. *)
Theorem registered_job_survives_restart
    (now later : Time) (r : Request) (p : Process Schedule) (d : Database)
    (s : Schedule) :
  Method r = "POST" -> FormValue r "cron_expr" <> "" ->
  FormValue r "command" <> "" -> FormValue r "job_name" <> "" ->
  FormValue r "job_description" <> "" ->
  db (world p) = Some d ->
  jobNameExists (FormValue r "job_name") d = false ->
  ParseStandard (FormValue r "cron_expr") = inl s ->
  exists p' p'',
    submitJobHandler ParseStandard now r p =
      Returned (Redirect "/" StatusSeeOther, p') /\
    startScheduler ParseStandard later (world p') = Returned p'' /\
    armed p'' =
      (activeEntries ParseStandard (jobs d) ++
       [mkEntry s (FormValue r "command")])%list.
Proof.
  intros Hm H1 H2 H3 H4 Hdb Hnew Hparse. unfold submitJobHandler.
  apply String.eqb_neq in H1, H2, H3, H4.
  rewrite Hm, H1, H2, H3, H4, Hdb, Hnew. simpl.
  unfold insertJob, AddFunc. rewrite Hnew, Hparse. simpl.
  match goal with
  | |- context [setDb ?d1 (world p)] =>
      destruct (startScheduler_armed Schedule ParseStandard later
                  (setDb d1 (world p)) d1 eq_refl)
        as [p'' [Hstart [Harmed _]]]
  end.
  eexists _, p''. split; [reflexivity|]. simpl. split; [exact Hstart|].
  rewrite Harmed. simpl. rewrite activeEntries_app. f_equal.
  unfold activeEntries. simpl. rewrite Hparse. reflexivity.
Qed.

Lemma disableJob_keeps_names (jobID name : string) (d : Database) :
  jobNameExists name (disableJob integerOfText jobID d) = jobNameExists name d.
Proof.
  unfold jobNameExists, disableJob; simpl.
  induction (jobs d) as [|j js IH]; [reflexivity|].
  simpl. rewrite IH.
  destruct (jobIdIs integerOfText jobID j); reflexivity.
Qed.

(** X23: the name of a deleted job stays taken: after a delete request
    was served, a complete POST that submits the name of any job of the
    table, deleted or not, is refused with "Job name already exists"
    and changes nothing. *)
Theorem name_of_deleted_job_stays_taken
    (now : Time) (del r : Request) (p p1 : Process Schedule) (d : Database)
    (j : JobRow) (resp : Response) :
  db (world p) = Some d -> In j (jobs d) ->
  deleteJobHandler integerOfText del p = Returned (resp, p1) ->
  Method r = "POST" -> FormValue r "cron_expr" <> "" ->
  FormValue r "command" <> "" -> FormValue r "job_description" <> "" ->
  FormValue r "job_name" = job_name j -> job_name j <> "" ->
  submitJobHandler ParseStandard now r p1 =
    Returned (FormWithError (FormValue r "cron_expr") (FormValue r "command")
                (job_name j) (FormValue r "job_description")
                "Job name already exists. Please enter a different unique job name.",
              p1).
Proof.
  intros Hdb Hin Hdel Hm H1 H2 H4 Hname H3.
  assert (Hex : jobNameExists (job_name j) d = true).
  { apply jobNameExists_true. exists j. split; [exact Hin | reflexivity]. }
  assert (Hp1 : exists d1, db (world p1) = Some d1 /\
                           jobNameExists (job_name j) d1 = true).
  { unfold deleteJobHandler in Hdel.
    destruct (negb (Method del =? "POST")); simpl in Hdel;
      [injection Hdel as _ <-; exists d; split; assumption|].
    destruct (ParseFormError del); simpl in Hdel;
      [injection Hdel as _ <-; exists d; split; assumption|].
    destruct (FormValue del "job_id" =? ""); simpl in Hdel;
      [injection Hdel as _ <-; exists d; split; assumption|].
    rewrite Hdb in Hdel. injection Hdel as _ <-. simpl.
    eexists. split; [reflexivity|]. rewrite disableJob_keeps_names. exact Hex. }
  destruct Hp1 as [d1 [Hdb1 Hex1]].
  unfold submitJobHandler. apply String.eqb_neq in H1, H2, H3, H4.
  rewrite Hm, Hname, H1, H2, H3, H4, Hdb1, Hex1. reflexivity.
Qed.

End ComposeFacts.

Lemma registered_job_survives_restart_witness :
  option_map (fun p => map entryCmd (armed p))
    (match startScheduler specParseStandard firstOfFebruary
                          (world nightlyProcess) with
     | Returned p => Some p
     | Panicked => None
     end) = Some ["echo ok"; "echo night"].
Proof.
  destruct (registered_job_survives_restart FieldSchedule specParseStandard
              lastOfJanuary firstOfFebruary nightlyRequest pingProcess
              pingDatabase
              (mkFieldSchedule (Literal 30) (Literal 2) Any Any Any) eq_refl)
    as [p' [p'' [Hrun [Hstart Harmed]]]];
    try discriminate; [reflexivity .. |].
  assert (Hp' : p' = nightlyProcess).
  { unfold nightlyProcess. rewrite Hrun. reflexivity. }
  subst p'. rewrite Hstart. simpl. rewrite Harmed. reflexivity.
Defined.

Lemma name_of_deleted_job_stays_taken_witness :
  submitJobHandler specParseStandard firstOfFebruary
    (submitRequest "ping" "* * * * *" "echo again" "second ping")
    pingProcessDisabled =
  Returned (FormWithError "* * * * *" "echo again" "ping" "second ping"
    "Job name already exists. Please enter a different unique job name.",
    pingProcessDisabled).
Proof.
  apply (name_of_deleted_job_stays_taken FieldSchedule specParseStandard
           decimalInteger firstOfFebruary (deleteRequest "1")
           (submitRequest "ping" "* * * * *" "echo again" "second ping")
           pingProcess pingProcessDisabled pingDatabase pingRow
           (Redirect "/" StatusSeeOther));
    try reflexivity; try discriminate.
  left. reflexivity.
Defined.
